(** * KangaMarketRanking: market data transformation and ranking pipeline

    A shallow embedding of the pure core of the application
    (spread calculator, RAG classifier, market comparators, the compound
    sort hook, the market assembler, the depth analyzer, the validators,
    the search filter and the sort buttons) together with the properties
    stated about it.

    JavaScript numbers are IEEE-754 binary64 values; they are embedded as
    Rocq's primitive floats, so that [+], [-], [*], [/], [<], [<=] and [===]
    on numbers are exactly the operations the program executes. *)

From Stdlib Require Import ZArith Floats Lia Bool Ascii String Reals Lra.
From stdpp Require Import base option list strings gmap sorting.

Set Warnings "-inexact-float".

(** ** Part I: the program *)

(** *** JavaScript values used by the program *)

Module JSNumber.
Definition number := float.

(** [Number.isFinite] and [isNaN] on a value of type number. *)
Definition isFinite (x : number) : bool := is_finite x.
Definition isNaN (x : number) : bool := is_nan x.

(** The position of a non-NaN binary64 value in the numeric order, as a
    lexicographic triple: class, exponent, mantissa. Both zeros share a
    position, as [0 === -0]. Used only to reason about comparisons. *)
Definition rank (x : spec_float) : Z * Z * Z :=
  match x with
  | S754_nan => (0, 0, 0)%Z
  | S754_zero _ => (0, 0, 0)%Z
  | S754_infinity s => (if s then (-2) else 2, 0, 0)%Z
  | S754_finite s m e =>
      if s then (-1, - e, - Zpos m)%Z else (1, e, Zpos m)%Z
  end.

Definition lex_lt (p q : Z * Z * Z) : Prop :=
  let '(a, b, c) := p in
  let '(a', b', c') := q in
  (a < a' \/ (a = a' /\ (b < b' \/ (b = b' /\ c < c'))))%Z.

Definition lex_cmp (p q : Z * Z * Z) : comparison :=
  let '(a, b, c) := p in
  let '(a', b', c') := q in
  match (a ?= a')%Z with
  | Eq => match (b ?= b')%Z with Eq => (c ?= c')%Z | r => r end
  | r => r
  end.

Definition rk (x : number) : Z * Z * Z := rank (Prim2SF x).
End JSNumber.
Export JSNumber.

(** A value that may be [undefined] or [null] ([T | null | undefined]).
    A field of type [T | null] is an [option T], [None] being [null]. *)
Inductive nullish (A : Type) : Type :=
  | Undefined
  | Null
  | Defined (a : A).
Arguments Undefined {A}.
Arguments Null {A}.
Arguments Defined {A} a.

(** [x ?? null] for [x : T | null | undefined]. *)
Definition orNull {A} (x : nullish A) : option A :=
  match x with Defined a => Some a | _ => None end.

(** A [T | null] value passed where [T | null | undefined] is expected. *)
Definition ofNullable {A} (x : option A) : nullish A :=
  match x with Some a => Defined a | None => Null end.

(** *** types/index.ts, api/types.ts *)

Inductive RAGStatus := green | amber | red.

Inductive SortField := market_f | spread_f | volume_f | price_f | ragStatus_f.
Inductive SortOrder := asc | desc.
Record SortConfig := { field : SortField; order : SortOrder }.

Record MarketPair := {
  mp_ticker_id : string;
  mp_base : string;
  mp_target : string
}.

Record MarketSummary := {
  ticker_id : string;
  base_currency : string;
  target_currency : string;
  last_price : number;
  base_volume : number;
  target_volume : number;
  bid : option number;
  ask : option number;
  high : number;
  low : number
}.

Record MarketData := {
  tickerId : string;
  market : string;
  baseSymbol : string;
  targetSymbol : string;
  highestBid : option number;
  lowestAsk : option number;
  spread : option number;
  spreadPercentage : option number;
  ragStatus : RAGStatus;
  lastPrice : number;
  volume24h : number;
  high24h : option number;   (* [None] is [undefined] *)
  low24h : option number     (* [None] is [undefined] *)
}.

(** *** utils/spreadCalculator.ts *)

Section SpreadCalculator.
Local Open Scope float_scope.

Definition calculateSpread (bid ask : nullish number) : option number :=
  match bid, ask with
  | Defined bid, Defined ask =>
      if negb (isFinite bid) || negb (isFinite ask) then None
      else if (bid <=? 0) || (ask <=? 0) then None
      else if ask <? bid then None
      else if bid =? ask then Some 0
      else
        let midPrice := (bid + ask) / 2 in
        let spread := ((ask - bid) / midPrice) * 100 in
        Some spread
  | _, _ => None
  end.

Definition calculateAbsoluteSpread (bid ask : nullish number) : option number :=
  match bid, ask with
  | Defined bid, Defined ask =>
      if negb (isFinite bid) || negb (isFinite ask) then None
      else if (bid <=? 0) || (ask <=? 0) then None
      else Some (ask - bid)
  | _, _ => None
  end.

Definition calculateMidPrice (bid ask : nullish number) : option number :=
  match bid, ask with
  | Defined bid, Defined ask =>
      if negb (isFinite bid) || negb (isFinite ask) then None
      else Some ((bid + ask) / 2)
  | _, _ => None
  end.
End SpreadCalculator.

(** *** utils/ragClassifier.ts *)

Section RagClassifier.
Local Open Scope float_scope.

Definition GREEN_MAX : number := 2.0.

Definition classifyRAG (spread : option number) : RAGStatus :=
  match spread with
  | None => red
  | Some spread =>
      if negb (isFinite spread) then red
      else if spread <=? GREEN_MAX then green
      else amber
  end.

(** [RAG_PRIORITY], higher is better. *)
Definition RAG_PRIORITY (s : RAGStatus) : number :=
  match s with green => 2 | amber => 1 | red => 0 end.

Definition compareRAGStatus (a b : RAGStatus) : number :=
  RAG_PRIORITY a - RAG_PRIORITY b.
End RagClassifier.

(** *** Array methods

    [Array.prototype.sort] is stable (ECMAScript 2019 and later), and for a
    comparator that is a consistent weak order every conforming
    implementation returns the same array. It is modelled as the stable
    insertion sort below. As in the language's [SortCompare], only the sign
    of the comparator's result matters and a NaN result counts as [+0]:
    an element moves behind another one only when the comparator returns a
    number greater than 0. For a comparator that is not consistent (one
    that returns NaN for some pairs, as a difference with a NaN operand
    does) the language leaves the order to the implementation, and the
    insertion sort is then one admissible order, not that of a given
    engine: statements about the order that the program shows are made
    for consistent comparators. *)

Module JSArray.
Section WithElements.
Context {A : Type}.

Section Sort.
Variable comparefn : A -> A -> number.

Definition sortsAfter (x y : A) : bool := (0 <? comparefn x y)%float.

Fixpoint insert (x : A) (l : list A) : list A :=
  match l with
  | [] => [x]
  | y :: l' => if sortsAfter x y then y :: insert x l' else x :: y :: l'
  end.

Definition sort (l : list A) : list A := foldr insert [] l.
End Sort.

(** [findIndex]: the first index whose element satisfies [p];
    [None] stands for the result [-1]. *)
Fixpoint findIndex (p : A -> bool) (l : list A) : option nat :=
  match l with
  | [] => None
  | x :: l' => if p x then Some 0 else S <$> findIndex p l'
  end.

(** [filter] with the two-argument callback [(x, i) => ...];
    [i0] is the index of the head of [l]. *)
Fixpoint filterFrom (i0 : nat) (p : A -> nat -> bool) (l : list A) : list A :=
  match l with
  | [] => []
  | x :: l' =>
      if p x i0 then x :: filterFrom (S i0) p l' else filterFrom (S i0) p l'
  end.

Definition filteri (p : A -> nat -> bool) (l : list A) : list A :=
  filterFrom 0 p l.

(** [slice(1)]. *)
Definition slice1 (l : list A) : list A := tail l.
End WithElements.
End JSArray.

(** *** utils/marketComparators.ts *)

Section MarketComparators.
Local Open Scope float_scope.

(** [String.prototype.localeCompare] depends on the host's locale data. *)
Variable localeCompare : string -> string -> number.

Definition compareByMarket (a b : MarketData) : number :=
  localeCompare (market a) (market b).

Definition compareBySpread (a b : MarketData) : number :=
  match spread a, spread b with
  | None, None => 0
  | None, _ => 1
  | _, None => -1
  | Some sa, Some sb => sa - sb
  end.

Definition compareByVolume (a b : MarketData) : number :=
  volume24h a - volume24h b.

Definition compareByPrice (a b : MarketData) : number :=
  lastPrice a - lastPrice b.

Definition ragOrder (s : RAGStatus) : number :=
  match s with green => 0 | amber => 1 | red => 2 end.

Definition compareByRAGStatus (a b : MarketData) : number :=
  ragOrder (ragStatus a) - ragOrder (ragStatus b).

Definition compareByField (a b : MarketData) (f : SortField) : number :=
  match f with
  | market_f => compareByMarket a b
  | spread_f => compareBySpread a b
  | volume_f => compareByVolume a b
  | price_f => compareByPrice a b
  | ragStatus_f => compareByRAGStatus a b
  end.

(** *** hooks/useMarketSorting.ts *)

(** The comparator that [sortMarkets] passes to [sort]: the first chain
    entry whose comparison is not 0 decides. *)
Fixpoint compareByChain (sortConfigs : list SortConfig) (a b : MarketData) : number :=
  match sortConfigs with
  | [] => 0
  | config :: rest =>
      let comparison := compareByField a b (field config) in
      if negb (comparison =? 0) then
        match order config with
        | asc => comparison
        | desc => - comparison
        end
      else compareByChain rest a b
  end.

Definition sortMarkets (sortConfigs : list SortConfig) (markets : list MarketData)
  : list MarketData :=
  JSArray.sort (compareByChain sortConfigs) markets.
End MarketComparators.

Definition SortField_eqb (f g : SortField) : bool :=
  match f, g with
  | market_f, market_f | spread_f, spread_f | volume_f, volume_f
  | price_f, price_f | ragStatus_f, ragStatus_f => true
  | _, _ => false
  end.

Section UseMarketSorting.
(** The hook's options. [maxSorts] is a count of chain entries. *)
Variable defaultSort : SortConfig.
Variable maxSorts : Z.

(** The initial state, [useState([defaultSort])]. *)
Definition initialSortConfigs : list SortConfig := [defaultSort].

(** The state update performed by [toggleSort(field)]. *)
Definition toggleSort (f : SortField) (current : list SortConfig) : list SortConfig :=
  match JSArray.findIndex (fun config => SortField_eqb (field config) f) current with
  | Some existingIndex =>
      match current !! existingIndex with
      | Some existing =>
          match order existing with
          | desc =>
              <[existingIndex := {| field := f; order := asc |}]> current
          | asc =>
              let filtered :=
                JSArray.filteri (fun _ i => negb (Nat.eqb i existingIndex)) current in
              if Nat.eqb (length filtered) 0 then [defaultSort] else filtered
          end
      | None => current (* not reached: [findIndex] returns an index of [current] *)
      end
  | None =>
      if (maxSorts <=? Z.of_nat (length current))%Z
      then JSArray.slice1 current ++ [{| field := f; order := desc |}]
      else current ++ [{| field := f; order := desc |}]
  end.

Definition clearSorts (current : list SortConfig) : list SortConfig := [defaultSort].

(** The chain after a sequence of [toggleSort] calls, oldest call first. *)
Definition toggleAll (fields : list SortField) (current : list SortConfig)
  : list SortConfig :=
  foldl (fun chain f => toggleSort f chain) current fields.
End UseMarketSorting.

(** *** hooks/useMarketData.ts *)

Section UseMarketData.
Local Open Scope float_scope.

(** [new Map(summaries.map((s) => [s.ticker_id, s]))]: entries are added in
    array order, so a later summary replaces an earlier one with the same
    [ticker_id]. *)
Definition summaryMap (summaries : list MarketSummary) : gmap string MarketSummary :=
  foldl (fun m s => <[ticker_id s := s]> m) ∅ summaries.

(** The callback of [pairs.map]. *)
Definition processPair (sm : gmap string MarketSummary) (pair : MarketPair)
  : MarketData :=
  let summary := sm !! mp_ticker_id pair in
  let bid := summary ≫= bid in
  let ask := summary ≫= ask in
  let spread := calculateSpread (ofNullable bid) (ofNullable ask) in
  let ragStatus := classifyRAG spread in
  {| tickerId := mp_ticker_id pair;
     market := mp_base pair +:+ "/" +:+ mp_target pair;
     baseSymbol := mp_base pair;
     targetSymbol := mp_target pair;
     highestBid := bid;
     lowestAsk := ask;
     spread := spread;
     spreadPercentage := spread;
     ragStatus := ragStatus;
     lastPrice := from_option last_price 0 summary;
     volume24h := from_option base_volume 0 summary;
     high24h := high <$> summary;
     low24h := low <$> summary |}.

Definition processedMarkets (pairs : list MarketPair) (summaries : list MarketSummary)
  : list MarketData :=
  processPair (summaryMap summaries) <$> pairs.

(** The array that [fetchMarkets] stores with [setMarkets], given the pairs
    and summaries that the two requests returned. *)
Definition fetchMarkets (pairs : list MarketPair) (summaries : list MarketSummary)
  : list MarketData :=
  JSArray.sort (fun a b => volume24h b - volume24h a)
    (processedMarkets pairs summaries).
End UseMarketData.

(** The result of a function that may throw. *)
Inductive outcome (A : Type) : Type :=
  | Returns (a : A)
  | Throws.
Arguments Returns {A} a.
Arguments Throws {A}.

(** *** hooks/useMarketDepth.ts *)

Record OrderBookEntry := { price : number; quantity : number }.

Record ValidatedMarketDepth := {
  depth_ticker_id : string;
  depth_timestamp : number;
  bids : list OrderBookEntry;
  asks : list OrderBookEntry
}.

Record PriceRange := { range_min : number; range_max : number }.

Record MarketDepthAnalysis := {
  analysis_tickerId : string;
  totalBidQuantity : number;
  totalAskQuantity : number;
  bidPriceRange : option PriceRange;
  askPriceRange : option PriceRange;
  bidDepth : nat;
  askDepth : nat;
  spreadAtDepth : option number;
  analysis_timestamp : number
}.

Module JSMath.
Local Open Scope float_scope.

Definition isNegZero (x : number) : bool :=
  match classify x with NZero => true | _ => false end.
Definition isPosZero (x : number) : bool :=
  match classify x with PZero => true | _ => false end.

(** [Math.min]: NaN if any argument is NaN; otherwise the smallest
    argument, [-0] counting as smaller than [+0]; [+Infinity] without
    arguments. *)
Fixpoint minFrom (lowest : number) (l : list number) : number :=
  match l with
  | [] => lowest
  | x :: l' =>
      if isNaN x then nan
      else
        minFrom (if isNegZero x && isPosZero lowest then x
                 else if x <? lowest then x else lowest) l'
  end.

Definition min (l : list number) : number := minFrom infinity l.

(** [Math.max], symmetrically. *)
Fixpoint maxFrom (highest : number) (l : list number) : number :=
  match l with
  | [] => highest
  | x :: l' =>
      if isNaN x then nan
      else
        maxFrom (if isPosZero x && isNegZero highest then x
                 else if highest <? x then x else highest) l'
  end.

Definition max (l : list number) : number := maxFrom neg_infinity l.
End JSMath.

Section UseMarketDepth.
Local Open Scope float_scope.

(** Whether the engine accepts a call with that many arguments. A spread
    call such as [Math.min(...prices)] passes every element as an argument
    of its own, and an engine throws a [RangeError] when the arguments are
    more than its stack holds; where that limit lies differs from engine
    to engine. *)
Variable acceptsArguments : nat -> bool.

(** [Math.min(...prices)] and [Math.max(...prices)]. *)
Definition spreadMin (prices : list number) : outcome number :=
  if acceptsArguments (length prices) then Returns (JSMath.min prices)
  else Throws.

Definition spreadMax (prices : list number) : outcome number :=
  if acceptsArguments (length prices) then Returns (JSMath.max prices)
  else Throws.

(** [prices.length > 0 ? { min: Math.min(...prices), max: Math.max(...prices) } : null]. *)
Definition rangeOf (prices : list number) : outcome (option PriceRange) :=
  if Nat.ltb 0 (length prices) then
    match spreadMin prices with
    | Returns min =>
        match spreadMax prices with
        | Returns max => Returns (Some {| range_min := min; range_max := max |})
        | Throws => Throws
        end
    | Throws => Throws
    end
  else Returns None.

Definition analyzeOrderBook (depthData : ValidatedMarketDepth)
  : outcome MarketDepthAnalysis :=
  let totalBidQuantity := foldl (fun sum bid => sum + quantity bid) 0 (bids depthData) in
  let totalAskQuantity := foldl (fun sum ask => sum + quantity ask) 0 (asks depthData) in
  let bidPrices := price <$> bids depthData in
  let askPrices := price <$> asks depthData in
  match rangeOf bidPrices with
  | Throws => Throws
  | Returns bidPriceRange =>
      match rangeOf askPrices with
      | Throws => Throws
      | Returns askPriceRange =>
          let spreadAtDepth :=
            match bidPriceRange, askPriceRange with
            | Some bidPriceRange, Some askPriceRange =>
                Some (((range_min askPriceRange - range_max bidPriceRange) /
                       (0.5 * (range_min askPriceRange + range_max bidPriceRange))) * 100)
            | _, _ => None
            end in
          Returns
            {| analysis_tickerId := depth_ticker_id depthData;
               totalBidQuantity := totalBidQuantity;
               totalAskQuantity := totalAskQuantity;
               bidPriceRange := bidPriceRange;
               askPriceRange := askPriceRange;
               bidDepth := length (bids depthData);
               askDepth := length (asks depthData);
               spreadAtDepth := spreadAtDepth;
               analysis_timestamp := depth_timestamp depthData |}
      end
  end.
End UseMarketDepth.

(** *** api/validators.ts *)

(** An untrusted payload: a JavaScript value as [JSON.parse] or a test may
    produce it. An object is the list of its own properties. *)
Inductive JSValue :=
  | VUndefined
  | VNull
  | VBool (b : bool)
  | VNumber (n : number)
  | VString (s : string)
  | VArray (items : list JSValue)
  | VObject (props : list (string * JSValue)).

(** [data[key]] on an object; [undefined] when the property is missing. *)
Definition getProp (key : string) (props : list (string * JSValue)) : JSValue :=
  match list_find (fun kv => kv.1 = key) props with
  | Some (_, (_, v)) => v
  | None => VUndefined
  end.

Module JSString.
(** [s.includes(c)] and [s.split(c)] for a one-character string [c]. *)
Fixpoint includes (c : ascii) (s : string) : bool :=
  match s with
  | EmptyString => false
  | String c' rest => if Ascii.eqb c' c then true else includes c rest
  end.

Fixpoint split (sep : ascii) (s : string) : list string :=
  match s with
  | EmptyString => [EmptyString]
  | String c rest =>
      if Ascii.eqb c sep then EmptyString :: split sep rest
      else
        match split sep rest with
        | part :: parts => String c part :: parts
        | [] => [String c EmptyString]
        end
  end.
End JSString.

Module Raw.
(** The output type of [RawMarketSummaryItemSchema]. *)
Record MarketSummaryItem := {
  trading_pairs : string;
  lowest_price_24h : number;
  highest_price_24h : number;
  highest_bid : option number;
  lowest_ask : option number;
  base_volume : number;
  quote_volume : number;
  last_price : number;
  price_change_percent_24h : option number   (* [None] is [undefined] *)
}.

(** The output type of [RawMarketSummaryResponseSchema]. *)
Record MarketSummaryResponse := {
  timestamp : string;
  summary : list MarketSummaryItem
}.
End Raw.

(** A Zod schema is modelled by its [safeParse]: the parsed value, or [None]
    when parsing reports issues (which [parse] throws as a [ZodError]). *)
Section Validators.
Local Open Scope float_scope.

(** The conversion [Number(value)] of the language. *)
Variable Number : JSValue -> number.

(** [z.string()] and [z.string().min(1, ...)]. *)
Definition zString (data : JSValue) : option string :=
  match data with VString s => Some s | _ => None end.

Definition zStringMin1 (data : JSValue) : option string :=
  s ← zString data;
  if Nat.ltb (String.length s) 1 then None else Some s.

(** [z.number()] accepts a number that is not NaN; [.nonnegative()]
    rejects a number below 0. *)
Definition zNumber (data : JSValue) : option number :=
  match data with
  | VNumber n => if isNaN n then None else Some n
  | _ => None
  end.

Definition nonnegative (n : number) : option number :=
  if n <? 0 then None else Some n.

(** [z.coerce.number()] parses [Number(data)]. *)
Definition zCoerceNumber (data : JSValue) : option number :=
  zNumber (VNumber (Number data)).

Definition zCoerceNumberNonnegative (data : JSValue) : option number :=
  zCoerceNumber data ≫= nonnegative.

(** [z.coerce.number().optional()]. *)
Definition zCoerceNumberOptional (data : JSValue) : option (option number) :=
  match data with
  | VUndefined => Some None
  | _ => Some <$> zCoerceNumber data
  end.

(** [optionalNumber()]: the preprocessing step, then
    [z.number().nonnegative().nullable()]. *)
Definition optionalNumberPreprocess (val : JSValue) : JSValue :=
  match val with
  | VUndefined | VNull | VString EmptyString => VNull
  | _ =>
      let num := Number val in
      if isNaN num then VNull else VNumber num
  end.

Definition zNumberNonnegativeNullable (data : JSValue) : option (option number) :=
  match data with
  | VNull => Some None
  | _ => Some <$> (zNumber data ≫= nonnegative)
  end.

Definition optionalNumber (val : JSValue) : option (option number) :=
  zNumberNonnegativeNullable (optionalNumberPreprocess val).

Definition RawMarketSummaryItemSchema (data : JSValue)
  : option Raw.MarketSummaryItem :=
  match data with
  | VObject props =>
      trading_pairs ← zStringMin1 (getProp "trading_pairs" props);
      lowest_price_24h ← zCoerceNumberNonnegative (getProp "lowest_price_24h" props);
      highest_price_24h ← zCoerceNumberNonnegative (getProp "highest_price_24h" props);
      highest_bid ← optionalNumber (getProp "highest_bid" props);
      lowest_ask ← optionalNumber (getProp "lowest_ask" props);
      base_volume ← zCoerceNumberNonnegative (getProp "base_volume" props);
      quote_volume ← zCoerceNumberNonnegative (getProp "quote_volume" props);
      last_price ← zCoerceNumberNonnegative (getProp "last_price" props);
      price_change_percent_24h ←
        zCoerceNumberOptional (getProp "price_change_percent_24h" props);
      Some {| Raw.trading_pairs := trading_pairs;
              Raw.lowest_price_24h := lowest_price_24h;
              Raw.highest_price_24h := highest_price_24h;
              Raw.highest_bid := highest_bid;
              Raw.lowest_ask := lowest_ask;
              Raw.base_volume := base_volume;
              Raw.quote_volume := quote_volume;
              Raw.last_price := last_price;
              Raw.price_change_percent_24h := price_change_percent_24h |}
  | _ => None
  end.

(** [z.array(schema)]. *)
Definition zArray {A} (schema : JSValue -> option A) (data : JSValue)
  : option (list A) :=
  match data with
  | VArray items => mapM schema items
  | _ => None
  end.

Definition RawMarketSummaryResponseSchema (data : JSValue)
  : option Raw.MarketSummaryResponse :=
  match data with
  | VObject props =>
      timestamp ← zString (getProp "timestamp" props);
      summary ← zArray RawMarketSummaryItemSchema (getProp "summary" props);
      Some {| Raw.timestamp := timestamp; Raw.summary := summary |}
  | _ => None
  end.

(** The callback of [rawResponse.summary.map] in [validateMarketSummary]. *)
Definition transformSummaryItem (item : Raw.MarketSummaryItem) : MarketSummary :=
  let separator :=
    if JSString.includes "-" (Raw.trading_pairs item) then "-"%char else "_"%char in
  let parts := JSString.split separator (Raw.trading_pairs item) in
  let base := default EmptyString (parts !! 0%nat) in
  let target := default EmptyString (parts !! 1%nat) in
  let ticker_id := base +:+ "_" +:+ target in
  {| ticker_id := ticker_id;
     base_currency := base;
     target_currency := target;
     last_price := Raw.last_price item;
     base_volume := Raw.base_volume item;
     target_volume := Raw.quote_volume item;
     bid := Raw.highest_bid item;
     ask := Raw.lowest_ask item;
     high := Raw.highest_price_24h item;
     low := Raw.lowest_price_24h item |}.

(** [validateMarketSummary] throws an [Error] when the schema reports
    issues, and returns the transformed items otherwise. *)
Definition validateMarketSummary (data : JSValue) : outcome (list MarketSummary) :=
  match RawMarketSummaryResponseSchema data with
  | Some rawResponse => Returns (transformSummaryItem <$> Raw.summary rawResponse)
  | None => Throws
  end.

(** [safeValidateMarketSummary] returns [null] ([None]) instead. *)
Definition safeValidateMarketSummary (data : JSValue) : option (list MarketSummary) :=
  match validateMarketSummary data with
  | Returns transformed => Some transformed
  | Throws => None
  end.
End Validators.

(** A model of [Number(value)] on the values that occur in the examples:
    numbers, booleans, [null], [undefined], and strings that are empty or a
    decimal integer with an optional minus sign. It agrees with the
    language on integers of up to 15 digits, where every step of the
    accumulation is exact. It is not the conversion of the language
    elsewhere: a string with a fraction, an exponent or blanks is NaN here
    and a number there, and a longer integer is rounded digit by digit.
    The theorems take [Number] as a parameter; this model serves the
    concrete payloads of the examples only. *)
Module NumberOfDecimal.
Local Open Scope float_scope.

(** The value of a decimal digit, from its character code. *)
Definition digit (c : ascii) : option number :=
  let code := Z.of_nat (nat_of_ascii c) in
  if ((48 <=? code) && (code <=? 57))%Z
  then Some (of_uint63 (Uint63.of_Z (code - 48)))
  else None.

Fixpoint digits (acc : number) (s : string) : number :=
  match s with
  | EmptyString => acc
  | String c rest =>
      match digit c with
      | Some d => digits (acc * 10 + d) rest
      | None => nan
      end
  end.

Definition ofString (s : string) : number :=
  match s with
  | EmptyString => 0
  | String "-"%char EmptyString => nan
  | String "-"%char rest => - digits 0 rest
  | _ => digits 0 s
  end.

Definition Number (v : JSValue) : number :=
  match v with
  | VUndefined => nan
  | VNull => 0
  | VBool b => if b then 1 else 0
  | VNumber n => n
  | VString s => ofString s
  | VArray _ | VObject _ => nan
  end.
End NumberOfDecimal.

(** *** utils/spreadCalculator.ts: spread quality *)

Inductive SpreadQuality := tight | normal | wide | very_wide | unknown.

Section SpreadQualityClassifier.
Local Open Scope float_scope.

Definition classifySpreadQuality (spread : nullish number) : SpreadQuality :=
  match spread with
  | Defined spread =>
      if negb (isFinite spread) then unknown
      else if spread <? 0.5 then tight
      else if spread <? 2.0 then normal
      else if spread <? 5.0 then wide
      else very_wide
  | _ => unknown
  end.
End SpreadQualityClassifier.

(** *** api/validators.ts: market pairs and market depth *)

Definition MarketPairSchema (data : JSValue) : option MarketPair :=
  match data with
  | VObject props =>
      ticker_id ← zStringMin1 (getProp "ticker_id" props);
      base ← zStringMin1 (getProp "base" props);
      target ← zStringMin1 (getProp "target" props);
      Some {| mp_ticker_id := ticker_id; mp_base := base; mp_target := target |}
  | _ => None
  end.

(** [validateMarketPairs] throws an [Error] when [MarketPairSchema.array()]
    reports issues. *)
Definition validateMarketPairs (data : JSValue) : outcome (list MarketPair) :=
  match zArray MarketPairSchema data with
  | Some pairs => Returns pairs
  | None => Throws
  end.

(** [safeValidateMarketPairs] reads the result of [safeParse]. *)
Definition safeValidateMarketPairs (data : JSValue) : option (list MarketPair) :=
  zArray MarketPairSchema data.

(** The output type of [RawMarketDepthResponseSchema]. *)
Record RawMarketDepthResponse := {
  raw_timestamp : string;
  raw_bids : list OrderBookEntry;
  raw_asks : list OrderBookEntry
}.

Section DepthValidators.
Local Open Scope float_scope.

Variable Number : JSValue -> number.

(** [new Date(s).getTime()], which depends on the host's date parser. *)
Variable dateGetTime : string -> number.

(** [.positive()] rejects a number that is at most 0. *)
Definition zPositive (n : number) : option number :=
  if n <=? 0 then None else Some n.

Definition zCoerceNumberPositive (data : JSValue) : option number :=
  zCoerceNumber Number data ≫= zPositive.

Definition RawOrderBookEntrySchema (data : JSValue) : option OrderBookEntry :=
  match data with
  | VObject props =>
      price ← zCoerceNumberPositive (getProp "price" props);
      quantity ← zCoerceNumberPositive (getProp "quantity" props);
      Some {| price := price; quantity := quantity |}
  | _ => None
  end.

Definition RawMarketDepthResponseSchema (data : JSValue)
  : option RawMarketDepthResponse :=
  match data with
  | VObject props =>
      timestamp ← zString (getProp "timestamp" props);
      bids ← zArray RawOrderBookEntrySchema (getProp "bids" props);
      asks ← zArray RawOrderBookEntrySchema (getProp "asks" props);
      Some {| raw_timestamp := timestamp; raw_bids := bids; raw_asks := asks |}
  | _ => None
  end.

Definition validateMarketDepth (data : JSValue) (marketId : string)
  : outcome ValidatedMarketDepth :=
  match RawMarketDepthResponseSchema data with
  | Some rawResponse =>
      let timestamp := dateGetTime (raw_timestamp rawResponse) in
      Returns {| depth_ticker_id := marketId;
                 depth_timestamp := timestamp;
                 bids := raw_bids rawResponse;
                 asks := raw_asks rawResponse |}
  | None => Throws
  end.

Definition safeValidateMarketDepth (data : JSValue) (marketId : string)
  : option ValidatedMarketDepth :=
  match validateMarketDepth data marketId with
  | Returns depth => Some depth
  | Throws => None
  end.
End DepthValidators.

(** *** hooks/useMarketFiltering.ts, hooks/useFilteredAndSortedMarkets.ts *)

Module JSSearch.
(** [s.startsWith(searchString)] and [s.includes(searchString)]. *)
Fixpoint startsWith (searchString s : string) : bool :=
  match searchString, s with
  | EmptyString, _ => true
  | String c rest, String c' rest' => Ascii.eqb c c' && startsWith rest rest'
  | String _ _, EmptyString => false
  end.

Fixpoint includes (searchString s : string) : bool :=
  startsWith searchString s ||
  match s with
  | EmptyString => false
  | String _ rest => includes searchString rest
  end.
End JSSearch.

Inductive MarketSearchField :=
  | search_market | search_tickerId | search_baseSymbol | search_targetSymbol.

(** [market[field]] for a search field. *)
Definition searchValue (m : MarketData) (f : MarketSearchField) : string :=
  match f with
  | search_market => market m
  | search_tickerId => tickerId m
  | search_baseSymbol => baseSymbol m
  | search_targetSymbol => targetSymbol m
  end.

Definition defaultSearchFields : list MarketSearchField :=
  [search_market; search_tickerId; search_baseSymbol; search_targetSymbol].

Section UseMarketFiltering.
(** [String.prototype.toLowerCase] and [String.prototype.trim] follow the
    Unicode tables of the host. *)
Variable toLowerCase : string -> string.
Variable trim : string -> string.
Variable searchFields : list MarketSearchField.

Definition matchesSearch (searchTerm : string) (m : MarketData) : bool :=
  existsb
    (fun f =>
       let value := searchValue m f in
       match value with
       | EmptyString => false
       | _ => JSSearch.includes searchTerm (toLowerCase value)
       end)
    searchFields.

Definition filterMarkets (markets : list MarketData) (query : string)
  : list MarketData :=
  match trim query with
  | EmptyString => markets
  | _ =>
      let searchTerm := trim (toLowerCase query) in
      List.filter (matchesSearch searchTerm) markets
  end.

(** The list that [useFilteredAndSortedMarkets] returns for the current
    sort chain. *)
Variable localeCompare : string -> string -> number.

Definition filteredMarkets (sortConfigs : list SortConfig)
    (markets : list MarketData) (searchQuery : string) : list MarketData :=
  let filtered := filterMarkets markets searchQuery in
  let sorted := sortMarkets localeCompare sortConfigs filtered in
  sorted.
End UseMarketFiltering.

(** *** components/SortControls.tsx *)

(** The properties that [SortControls] passes to the button of a field. *)
Record SortButtonProps := {
  isActive : bool;
  priority : option nat;       (* [None] is [null] *)
  sortOrder : option SortOrder (* [None] is [null] *)
}.

Definition sortButtonProps (sortConfigs : list SortConfig)
    (availableFields : list SortField) (f : SortField) : SortButtonProps :=
  let configIndex :=
    JSArray.findIndex (fun c => SortField_eqb (field c) f) sortConfigs in
  let sortConfig := configIndex ≫= fun i => sortConfigs !! i in
  let visibleSorts :=
    List.filter (fun c => existsb (SortField_eqb (field c)) availableFields)
      sortConfigs in
  let visibleIndex :=
    JSArray.findIndex (fun c => SortField_eqb (field c) f) visibleSorts in
  {| isActive := bool_decide (is_Some configIndex);
     priority := S <$> visibleIndex;
     sortOrder := order <$> sortConfig |}.

(** *** utils/formatters.ts: truncate *)

(** A JavaScript string is a sequence of UTF-16 code units: [length]
    counts the units and [substring] cuts between units, also between the
    two units of a surrogate pair. *)
Definition codeUnit := N.
Definition JSText := list codeUnit.

(** The template's three full stops, U+002E each. *)
Definition ellipsis : JSText := [46; 46; 46]%N.

(** [text.substring(0, finish)] for an integer [finish]: a negative
    [finish] is read as 0 and one above the length as the length. *)
Definition substring0 (text : JSText) (finish : Z) : JSText :=
  take (Z.to_nat finish) text.

(** [truncate(text, maxLength)] for an integer [maxLength]. *)
Definition truncate (text : JSText) (maxLength : Z) : JSText :=
  if (Z.of_nat (length text) <=? maxLength)%Z then text
  else substring0 text maxLength ++ ellipsis.

(** *** api/client/kangaApi.ts: the retry policy *)

(** What one attempt of a request yields: a response with a success
    status, or an error, with the status of the error response when there
    is one ([error.response?.status]). *)
Inductive AttemptResult :=
  | Responds
  | Fails (response : option Z).

(** How a request ends: resolved, rejected with the error of its last
    attempt, or still waiting for the transport. *)
Inductive RequestOutcome :=
  | Resolved
  | Rejected (response : option Z)
  | Pending.

Inductive RetryDecision :=
  | RetryWith (retryCount : Z)
  | RejectError.

Section RetryPolicy.
(** [config.API_RETRY_ATTEMPTS], an integer. *)
Variable MAX_RETRY_ATTEMPTS : Z.

Definition shouldRetry (response : option Z) (retryCount : Z) : bool :=
  if (MAX_RETRY_ATTEMPTS <=? retryCount)%Z then false
  else
    match response with
    | None => true
    | Some status =>
        if (500 <=? status)%Z && (status <? 600)%Z then true
        else if (status =? 429)%Z then true
        else false
    end.

(** The decision of [handleResponseError] for an error whose config has
    the given [retryCount] ([None] is [undefined]). *)
Definition handleResponseError (response : option Z) (retryCount : option Z)
  : RetryDecision :=
  let retryCount := default 0%Z retryCount in
  if shouldRetry response retryCount then RetryWith (retryCount + 1)
  else RejectError.

(** A request through the response interceptor, given what the transport
    yields attempt by attempt: the number of attempts made and the
    outcome. A retry sends the request again with the config of the failed
    attempt, which carries [retryCount]. Every error here has a config; an
    error without one is rejected without a retry. *)
Fixpoint sendRequest (results : list AttemptResult) (retryCount : option Z)
  : nat * RequestOutcome :=
  match results with
  | [] => (0, Pending)
  | Responds :: _ => (1, Resolved)
  | Fails response :: rest =>
      match handleResponseError response retryCount with
      | RetryWith n =>
          let '(attempts, outcome) := sendRequest rest (Some n) in
          (S attempts, outcome)
      | RejectError => (1, Rejected response)
      end
  end.
End RetryPolicy.

(** *** scripts/testApiStandalone.ts: the script's own spread and rating *)

Module Script.
Section Utilities.
Local Open Scope float_scope.

Definition calculateSpread (bid ask : option number) : option number :=
  match bid, ask with
  | Some bid, Some ask =>
      if bid =? 0 then None
      else
        let midPrice := (bid + ask) / 2 in
        Some (((ask - bid) / midPrice) * 100)
  | _, _ => None
  end.

Definition classifyRAG (spread : option number) : RAGStatus :=
  match spread with
  | None => red
  | Some spread =>
      if spread <=? 2 then green
      else if spread <=? 5 then amber
      else red
  end.
End Utilities.
End Script.

(** ** Part II: properties *)

Module NumberFacts.
Local Open Scope float_scope.

Lemma lex_cmp_spec p q :
  CompareSpec (p = q) (lex_lt p q) (lex_lt q p) (lex_cmp p q).
Proof.
  destruct p as [[a b] c], q as [[a' b'] c']. unfold lex_cmp, lex_lt.
  destruct (Z.compare_spec a a'); [|constructor; lia..].
  destruct (Z.compare_spec b b'); [|constructor; lia..].
  destruct (Z.compare_spec c c'); constructor; [congruence|lia..].
Qed.

Lemma SFcompare_rank x y :
  x <> S754_nan -> y <> S754_nan ->
  SFcompare x y = Some (lex_cmp (rank x) (rank y)).
Proof.
  intros Hx Hy.
  destruct x as [sx|sx| |sx mx ex], y as [sy|sy| |sy my ey]; try congruence;
    try (destruct sx); try (destruct sy); try reflexivity;
    unfold SFcompare, rank; f_equal;
    rewrite Pos.compare_cont_spec; unfold Pos.switch_Eq;
    (match goal with |- _ = lex_cmp ?p ?q =>
       destruct (lex_cmp_spec p q) as [E|L|L] end);
    [injection E as E1 E2|unfold lex_lt in L..];
    destruct (Z.compare_spec ex ey); try lia;
    destruct (Pos.compare_spec mx my); simpl; try reflexivity; lia.
Qed.

Lemma isNaN_true x : isNaN x = true <-> Prim2SF x = S754_nan.
Proof.
  unfold isNaN, is_nan. rewrite FloatAxioms.eqb_spec. unfold SFeqb.
  destruct (Prim2SF x) as [s|s| |s m e] eqn:E; [| |done|];
    (rewrite SFcompare_rank by done;
     split; [|done]);
    (match goal with |- context [lex_cmp ?p ?q] =>
       destruct (lex_cmp_spec p q) as [_|L|L] end;
     [done|unfold lex_lt in L; simpl in L; destruct s; lia..]).
Qed.

Lemma isNaN_false x : isNaN x = false <-> Prim2SF x <> S754_nan.
Proof. rewrite <- isNaN_true. by destruct (isNaN x). Qed.

(** What [SFcompare] returns on two numbers: nothing when either is NaN,
    and the comparison of their ranks otherwise. *)
Variant compare_view (x y : number) : option comparison -> Prop :=
  | compare_nan :
      isNaN x = true \/ isNaN y = true -> compare_view x y None
  | compare_num :
      isNaN x = false -> isNaN y = false ->
      compare_view x y (Some (lex_cmp (rk x) (rk y))).

Lemma SFcompare_view x y : compare_view x y (SFcompare (Prim2SF x) (Prim2SF y)).
Proof.
  destruct (isNaN x) eqn:Hx; [|destruct (isNaN y) eqn:Hy].
  - pose proof Hx as E. apply isNaN_true in E. rewrite E.
    constructor 1. by left.
  - pose proof Hy as E. apply isNaN_true in E. rewrite E.
    replace (SFcompare (Prim2SF x) S754_nan) with (@None comparison)
      by (by destruct (Prim2SF x)).
    constructor 1. by right.
  - rewrite SFcompare_rank by (by apply isNaN_false). by constructor 2.
Qed.

Lemma ltb_rk x y :
  (x <? y) = true <-> isNaN x = false /\ isNaN y = false /\ lex_lt (rk x) (rk y).
Proof.
  rewrite FloatAxioms.ltb_spec. unfold SFltb.
  destruct (SFcompare_view x y) as [[H|H]|Hx Hy]; [rewrite H; naive_solver..|].
  destruct (lex_cmp_spec (rk x) (rk y)) as [E|L|L];
    [rewrite E|..]; unfold lex_lt in *; destruct (rk x) as [[??]?];
    destruct (rk y) as [[??]?]; (split; [done || lia|intros (_&_&?); done || lia]).
Qed.

Lemma leb_rk x y :
  (x <=? y) = true <->
  isNaN x = false /\ isNaN y = false /\ (lex_lt (rk x) (rk y) \/ rk x = rk y).
Proof.
  rewrite FloatAxioms.leb_spec. unfold SFleb.
  destruct (SFcompare_view x y) as [[H|H]|Hx Hy]; [rewrite H; naive_solver..|].
  destruct (lex_cmp_spec (rk x) (rk y)) as [E|L|L]; [naive_solver..|].
  split; [done|]. intros (_&_&[L'|E]); [|rewrite E in L];
    unfold lex_lt in *; destruct (rk x) as [[??]?];
    destruct (rk y) as [[??]?]; lia.
Qed.

Lemma eqb_rk x y :
  (x =? y) = true <-> isNaN x = false /\ isNaN y = false /\ rk x = rk y.
Proof.
  rewrite FloatAxioms.eqb_spec. unfold SFeqb.
  destruct (SFcompare_view x y) as [[H|H]|Hx Hy]; [rewrite H; naive_solver..|].
  destruct (lex_cmp_spec (rk x) (rk y)) as [E|L|L]; [naive_solver|..];
    (split; [done|]); intros (_&_&E); rewrite E in L;
    unfold lex_lt in L; destruct (rk y) as [[??]?]; lia.
Qed.

Lemma isFinite_not_NaN x : isFinite x = true -> isNaN x = false.
Proof.
  unfold isFinite, is_finite, isNaN. by destruct (is_nan x).
Qed.

(** Comparisons between two numbers, none of them NaN, are those of a
    total order. *)
Lemma leb_false_ltb x y :
  isNaN x = false -> isNaN y = false -> (x <=? y) = false -> (y <? x) = true.
Proof.
  intros Hx Hy H. apply ltb_rk. do 2 (split; [done|]).
  apply not_true_iff_false in H. rewrite leb_rk in H.
  destruct (lex_cmp_spec (rk x) (rk y)); naive_solver.
Qed.

Lemma ltb_true_leb_false x y : (x <? y) = true -> (y <=? x) = false.
Proof.
  rewrite ltb_rk. intros (Hx & Hy & L). apply not_true_iff_false.
  rewrite leb_rk. intros (_ & _ & [L'|E]); [|rewrite E in L];
    unfold lex_lt in *; destruct (rk x) as [[??]?];
    destruct (rk y) as [[??]?]; lia.
Qed.

Lemma leb_true_ltb_false x y : (x <=? y) = true -> (y <? x) = false.
Proof.
  intros H. destruct (y <? x) eqn:E; [|done].
  apply ltb_true_leb_false in E. congruence.
Qed.

Lemma ltb_false_leb x y :
  isNaN x = false -> isNaN y = false -> (x <? y) = false -> (y <=? x) = true.
Proof.
  intros Hx Hy H. destruct (y <=? x) eqn:E; [done|].
  apply leb_false_ltb in E; [congruence|done..].
Qed.

Lemma leb_refl x : isNaN x = false -> (x <=? x) = true.
Proof. intros. apply leb_rk. naive_solver. Qed.

Lemma leb_trans x y z :
  (x <=? y) = true -> (y <=? z) = true -> (x <=? z) = true.
Proof.
  rewrite !leb_rk. intros (Hx & Hy & H1) (_ & Hz & H2).
  do 2 (split; [done|]).
  destruct H1 as [H1|E1]; [|rewrite E1]; (destruct H2 as [H2|E2]; [|rewrite <- E2]); auto. left.
  unfold lex_lt in *; destruct (rk x) as [[??]?];
    destruct (rk y) as [[??]?]; destruct (rk z) as [[??]?]; lia.
Qed.

Lemma ltb_leb x y : (x <? y) = true -> (x <=? y) = true.
Proof. rewrite ltb_rk, leb_rk. naive_solver. Qed.

Lemma leb_total x y :
  isNaN x = false -> isNaN y = false -> (x <=? y) = true \/ (y <=? x) = true.
Proof.
  intros Hx Hy. rewrite !leb_rk.
  destruct (lex_cmp_spec (rk x) (rk y)); naive_solver.
Qed.
End NumberFacts.

Module SpreadFacts.
Import NumberFacts.
Local Open Scope float_scope.

(** The inputs on which neither spread function takes an early [null]
    exit for a missing, non-finite or non-positive side. *)
Definition priced (bid ask : nullish number) (b a : number) : Prop :=
  bid = Defined b /\ ask = Defined a /\
  isFinite b = true /\ isFinite a = true /\
  (b <=? 0) = false /\ (a <=? 0) = false.

Lemma calculateAbsoluteSpread_priced bid ask b a :
  priced bid ask b a -> calculateAbsoluteSpread bid ask = Some (a - b).
Proof.
  intros (-> & -> & Hb & Ha & Pb & Pa). unfold calculateAbsoluteSpread.
  by rewrite Hb, Ha, Pb, Pa.
Qed.

Lemma calculateAbsoluteSpread_None bid ask :
  calculateAbsoluteSpread bid ask = None <-> ~ exists b a, priced bid ask b a.
Proof.
  split.
  - intros H (b & a & Hp).
    rewrite (calculateAbsoluteSpread_priced _ _ _ _ Hp) in H. discriminate.
  - intros H. destruct bid as [| |b], ask as [| |a]; try reflexivity.
    unfold calculateAbsoluteSpread.
    destruct (isFinite b) eqn:Hb, (isFinite a) eqn:Ha; try reflexivity.
    destruct (b <=? 0) eqn:Pb, (a <=? 0) eqn:Pa; try reflexivity.
    exfalso. apply H. exists b, a. by repeat split.
Qed.

Lemma calculateSpread_None bid ask :
  calculateSpread bid ask = None <->
  calculateAbsoluteSpread bid ask = None \/
  exists b a, bid = Defined b /\ ask = Defined a /\ (a <? b) = true.
Proof.
  destruct bid as [| |b], ask as [| |a]; try (split; [by left|done]).
  unfold calculateSpread, calculateAbsoluteSpread.
  destruct (negb (isFinite b) || negb (isFinite a)); [split; [by left|done]|].
  destruct ((b <=? 0) || (a <=? 0)); [split; [by left|done]|].
  destruct (a <? b) eqn:Hlt.
  - split; [|done]. right. by exists b, a.
  - destruct (b =? a); (split; [done|]); intros [?|(?&?&?&?&?)];
      simplify_eq; congruence.
Qed.
End SpreadFacts.

(** C3. [classifyRAG] returns green exactly on a finite spread at most 2.0,
    red exactly on a null or non-finite spread, and amber exactly on a
    finite spread above 2.0. *)
Theorem classifyRAG_spec (spread : option number) :
  (classifyRAG spread = green <->
     exists x, spread = Some x /\ isFinite x = true /\ (x <=? 2.0)%float = true) /\
  (classifyRAG spread = red <->
     spread = None \/ exists x, spread = Some x /\ isFinite x = false) /\
  (classifyRAG spread = amber <->
     exists x, spread = Some x /\ isFinite x = true /\ (2.0 <? x)%float = true).
Proof.
  destruct spread as [x|]; simpl.
  2: { repeat split; try done; try (intros (?&?&?); done). by left. }
  unfold GREEN_MAX. destruct (isFinite x) eqn:Hf; simpl.
  - destruct (x <=? 2)%float eqn:Hle.
    + repeat split; try done.
      * by exists x.
      * intros [?|(?&?&?)]; simplify_eq. congruence.
      * intros (?&?&?&Hlt); simplify_eq.
        apply NumberFacts.ltb_true_leb_false in Hlt. congruence.
    + repeat split; try done.
      * intros (?&?&?&?); simplify_eq. congruence.
      * intros [?|(?&?&?)]; simplify_eq. congruence.
      * intros _. exists x. repeat split; try done.
        apply NumberFacts.leb_false_ltb; try done.
        by apply NumberFacts.isFinite_not_NaN.
  - repeat split; try done.
    + intros (?&?&?&?); simplify_eq. congruence.
    + intros _. right. by exists x.
    + intros (?&?&?&?); simplify_eq. congruence.
Qed.

(** C6 (as stated, refuted). On the crossed book bid = 100, ask = 90 the
    absolute spread is the number -10 while the percentage spread is null. *)
Lemma calculateAbsoluteSpread_crossed_book :
  calculateAbsoluteSpread (Defined 100%float) (Defined 90%float) = Some (-10)%float /\
  calculateSpread (Defined 100%float) (Defined 90%float) = None /\
  ~ (calculateAbsoluteSpread (Defined 100%float) (Defined 90%float) = None <->
     calculateSpread (Defined 100%float) (Defined 90%float) = None).
Proof.
  assert (A : calculateAbsoluteSpread (Defined 100%float) (Defined 90%float)
              = Some (-10)%float) by reflexivity.
  assert (B : calculateSpread (Defined 100%float) (Defined 90%float) = None)
    by reflexivity.
  repeat split; try done. rewrite A, B. intros [_ H]. by specialize (H eq_refl).
Qed.

(** C6 (amended). [calculateAbsoluteSpread] is null exactly when a side is
    null or undefined, non-finite, or at most 0, and is [ask - bid]
    otherwise, also on a crossed book; [calculateSpread] is null exactly
    when [calculateAbsoluteSpread] is null or [ask < bid]. *)
Theorem calculateAbsoluteSpread_null_rules (bid ask : nullish number) :
  (calculateAbsoluteSpread bid ask = None <->
     ~ exists b a, bid = Defined b /\ ask = Defined a /\
         isFinite b = true /\ isFinite a = true /\
         (b <=? 0)%float = false /\ (a <=? 0)%float = false) /\
  (forall b a, bid = Defined b -> ask = Defined a ->
     calculateAbsoluteSpread bid ask <> None ->
     calculateAbsoluteSpread bid ask = Some (a - b)%float) /\
  (calculateSpread bid ask = None <->
     calculateAbsoluteSpread bid ask = None \/
     exists b a, bid = Defined b /\ ask = Defined a /\ (a <? b)%float = true).
Proof.
  split; [apply SpreadFacts.calculateAbsoluteSpread_None|].
  split; [|apply SpreadFacts.calculateSpread_None].
  intros b a -> ->. unfold calculateAbsoluteSpread.
  destruct (negb (isFinite b) || negb (isFinite a)); [done|].
  by destruct ((b <=? 0)%float || (a <=? 0)%float).
Qed.

Module SortFacts.
Import JSArray.

Section InsertionSort.
Context {A : Type} (comparefn : A -> A -> number).

Lemma insert_Permutation x l : insert comparefn x l ≡ₚ x :: l.
Proof.
  induction l as [|y l IH]; simpl; [done|].
  destruct (sortsAfter comparefn x y); [|done].
  rewrite IH. apply Permutation_swap.
Qed.

Lemma sort_Permutation l : sort comparefn l ≡ₚ l.
Proof.
  induction l as [|x l IH]; simpl; [done|].
  unfold sort in IH. by rewrite insert_Permutation, IH.
Qed.

Lemma sort_length l : length (sort comparefn l) = length l.
Proof. by rewrite sort_Permutation. Qed.

(** A key that the comparator respects is non-decreasing along the
    sorted array. *)
Section Keyed.
Variable key : A -> nat.
Hypothesis key_lt_stays :
  forall x y, key x < key y -> sortsAfter comparefn x y = false.
Hypothesis key_gt_moves :
  forall x y, key y < key x -> sortsAfter comparefn x y = true.

Let le_key (x y : A) : Prop := key x <= key y.

Lemma insert_sorted x l :
  StronglySorted le_key l -> StronglySorted le_key (insert comparefn x l).
Proof using key_lt_stays key_gt_moves.
  induction 1 as [|y l Hl IH Hy]; simpl.
  - repeat constructor.
  - destruct (sortsAfter comparefn x y) eqn:E.
    + constructor; [done|].
      rewrite insert_Permutation. constructor; [|done].
      unfold le_key. destruct (decide (key y <= key x)); [done|].
      rewrite key_lt_stays in E by lia. done.
    + assert (key x <= key y) as Hxy.
      { destruct (decide (key x <= key y)); [done|].
        rewrite key_gt_moves in E by lia. done. }
      constructor; [by constructor|].
      constructor; [done|].
      eapply Forall_impl; [exact Hy|]. unfold le_key. simpl. lia.
Qed.

Lemma sort_sorted l : StronglySorted le_key (sort comparefn l).
Proof using key_lt_stays key_gt_moves.
  induction l as [|x l IH]; simpl; [constructor|].
  by apply insert_sorted.
Qed.

(** In the sorted array an element of smaller key stands at a smaller
    index than any element of larger key. *)
Lemma sort_key_index l i j a b :
  sort comparefn l !! i = Some a -> sort comparefn l !! j = Some b ->
  key a < key b -> i < j.
Proof using key_lt_stays key_gt_moves.
  pose proof (sort_sorted l) as Hs. revert Hs.
  generalize (sort comparefn l). clear l. intros l Hs. revert i j.
  induction Hs as [|y l Hl IH Hy]; intros i j Hi Hj Hk; [done|].
  destruct i as [|i], j as [|j]; simpl in *; simplify_eq; try lia.
  - rewrite Forall_forall in Hy.
    apply list_elem_of_lookup_2, Hy in Hi. unfold le_key in Hi. lia.
  - specialize (IH _ _ Hi Hj Hk). lia.
Qed.
End Keyed.
End InsertionSort.
End SortFacts.

(** Every record satisfying [P] stands before every record satisfying [Q]. *)
Definition allBefore (P Q : MarketData -> Prop) (l : list MarketData) : Prop :=
  forall i j a b, l !! i = Some a -> l !! j = Some b -> P a -> Q b -> i < j.

Definition hasSpread (m : MarketData) : Prop := spread m <> None.
Definition nullSpread (m : MarketData) : Prop := spread m = None.
Definition rated (s : RAGStatus) (m : MarketData) : Prop := ragStatus m = s.

Module ChainFacts.
Import JSArray SortFacts.
Local Open Scope float_scope.

Section WithLocale.
Variable localeCompare : string -> string -> number.

Definition spreadChain (d : SortOrder) : list SortConfig :=
  [{| field := spread_f; order := d |}].
Definition ragChain (d : SortOrder) : list SortConfig :=
  [{| field := ragStatus_f; order := d |}].

(** 0 for a record with a spread, 1 for a record without. *)
Definition nullKey (m : MarketData) : nat :=
  match spread m with Some _ => 0 | None => 1 end.

Definition ragKey (m : MarketData) : nat :=
  match ragStatus m with green => 0 | amber => 1 | red => 2 end.

Lemma spread_asc_stays x y :
  nullKey x < nullKey y ->
  sortsAfter (compareByChain localeCompare (spreadChain asc)) x y = false.
Proof.
  unfold nullKey, sortsAfter, compareByChain, spreadChain, compareByField,
    compareBySpread; simpl.
  destruct (spread x), (spread y); try lia. intros _. reflexivity.
Qed.

Lemma spread_asc_moves x y :
  nullKey y < nullKey x ->
  sortsAfter (compareByChain localeCompare (spreadChain asc)) x y = true.
Proof.
  unfold nullKey, sortsAfter, compareByChain, spreadChain, compareByField,
    compareBySpread; simpl.
  destruct (spread x), (spread y); try lia. intros _. reflexivity.
Qed.

Lemma spread_desc_stays x y :
  nullKey y < nullKey x ->
  sortsAfter (compareByChain localeCompare (spreadChain desc)) x y = false.
Proof.
  unfold nullKey, sortsAfter, compareByChain, spreadChain, compareByField,
    compareBySpread; simpl.
  destruct (spread x), (spread y); try lia. intros _. reflexivity.
Qed.

Lemma spread_desc_moves x y :
  nullKey x < nullKey y ->
  sortsAfter (compareByChain localeCompare (spreadChain desc)) x y = true.
Proof.
  unfold nullKey, sortsAfter, compareByChain, spreadChain, compareByField,
    compareBySpread; simpl.
  destruct (spread x), (spread y); try lia. intros _. reflexivity.
Qed.

(** Under the ascending spread chain, records without a spread come last. *)
Lemma spread_asc_nulls_last markets :
  allBefore hasSpread nullSpread
    (sortMarkets localeCompare (spreadChain asc) markets).
Proof.
  intros i j a b Hi Hj Ha Hb. unfold sortMarkets in *.
  eapply (sort_key_index _ nullKey spread_asc_stays spread_asc_moves); eauto.
  unfold nullKey, hasSpread, nullSpread in *. rewrite Hb.
  destruct (spread a); [lia|done].
Qed.

(** Under the descending spread chain, records without a spread come first. *)
Lemma spread_desc_nulls_first markets :
  allBefore nullSpread hasSpread
    (sortMarkets localeCompare (spreadChain desc) markets).
Proof.
  intros i j a b Hi Hj Ha Hb. unfold sortMarkets in *.
  eapply (sort_key_index _ (fun m => (1 - nullKey m)%nat)); eauto.
  - intros x y ?. apply spread_desc_stays.
    unfold nullKey in *. destruct (spread x), (spread y); simpl in *; lia.
  - intros x y ?. apply spread_desc_moves.
    unfold nullKey in *. destruct (spread x), (spread y); simpl in *; lia.
  - unfold nullKey, hasSpread, nullSpread in *. rewrite Ha.
    destruct (spread b); [simpl; lia|done].
Qed.

Lemma rag_asc_stays x y :
  ragKey x < ragKey y ->
  sortsAfter (compareByChain localeCompare (ragChain asc)) x y = false.
Proof.
  unfold ragKey, sortsAfter, compareByChain, ragChain, compareByField,
    compareByRAGStatus; simpl.
  destruct (ragStatus x), (ragStatus y); try lia; intros _; reflexivity.
Qed.

Lemma rag_asc_moves x y :
  ragKey y < ragKey x ->
  sortsAfter (compareByChain localeCompare (ragChain asc)) x y = true.
Proof.
  unfold ragKey, sortsAfter, compareByChain, ragChain, compareByField,
    compareByRAGStatus; simpl.
  destruct (ragStatus x), (ragStatus y); try lia; intros _; reflexivity.
Qed.

Lemma rag_desc_stays x y :
  ragKey y < ragKey x ->
  sortsAfter (compareByChain localeCompare (ragChain desc)) x y = false.
Proof.
  unfold ragKey, sortsAfter, compareByChain, ragChain, compareByField,
    compareByRAGStatus; simpl.
  destruct (ragStatus x), (ragStatus y); try lia; intros _; reflexivity.
Qed.

Lemma rag_desc_moves x y :
  ragKey x < ragKey y ->
  sortsAfter (compareByChain localeCompare (ragChain desc)) x y = true.
Proof.
  unfold ragKey, sortsAfter, compareByChain, ragChain, compareByField,
    compareByRAGStatus; simpl.
  destruct (ragStatus x), (ragStatus y); try lia; intros _; reflexivity.
Qed.

Lemma sortMarkets_rag_asc markets i j a b :
  sortMarkets localeCompare (ragChain asc) markets !! i = Some a ->
  sortMarkets localeCompare (ragChain asc) markets !! j = Some b ->
  ragKey a < ragKey b -> i < j.
Proof.
  unfold sortMarkets.
  apply (sort_key_index _ ragKey rag_asc_stays rag_asc_moves).
Qed.

Lemma sortMarkets_rag_desc markets i j a b :
  sortMarkets localeCompare (ragChain desc) markets !! i = Some a ->
  sortMarkets localeCompare (ragChain desc) markets !! j = Some b ->
  ragKey b < ragKey a -> i < j.
Proof.
  unfold sortMarkets. intros Hi Hj Hk.
  eapply (sort_key_index _ (fun m => (2 - ragKey m)%nat)); eauto.
  - intros x y ?. apply rag_desc_stays.
    unfold ragKey in *. destruct (ragStatus x), (ragStatus y); simpl in *; lia.
  - intros x y ?. apply rag_desc_moves.
    unfold ragKey in *. destruct (ragStatus x), (ragStatus y); simpl in *; lia.
  - unfold ragKey in *. destruct (ragStatus a), (ragStatus b); simpl in *; lia.
Qed.
End WithLocale.
End ChainFacts.

Module ToggleFacts.
Import JSArray.

Lemma SortField_eqb_eq f g : SortField_eqb f g = true <-> f = g.
Proof. by destruct f, g. Qed.

Section Arrays.
Context {A : Type}.
Implicit Types (p : A -> bool) (l : list A).

Lemma findIndex_absent p l :
  Forall (fun x => p x = false) l -> findIndex p l = None.
Proof.
  induction 1 as [|x l Hx _ IH]; simpl; [done|]. by rewrite Hx, IH.
Qed.

Lemma findIndex_last p l x :
  Forall (fun y => p y = false) l -> p x = true ->
  findIndex p (l ++ [x]) = Some (length l).
Proof.
  intros Hl Hx. induction Hl as [|y l Hy _ IH]; simpl.
  - by rewrite Hx.
  - by rewrite Hy, IH.
Qed.

Lemma findIndex_lt p l i : findIndex p l = Some i -> i < length l.
Proof.
  revert i. induction l as [|x l IH]; intros i; simpl; [done|].
  destruct (p x); [intros [= <-]; lia|].
  destruct (findIndex p l) as [k|]; [|done].
  intros [= <-]. specialize (IH k eq_refl). lia.
Qed.

Lemma filterFrom_length i0 (q : A -> nat -> bool) l :
  length (filterFrom i0 q l) <= length l.
Proof.
  revert i0. induction l as [|x l IH]; intros i0; simpl; [done|].
  destruct (q x i0); simpl; specialize (IH (S i0)); lia.
Qed.

Lemma filterFrom_drop_last i0 k l x :
  k = i0 + length l ->
  filterFrom i0 (fun _ i => negb (Nat.eqb i k)) (l ++ [x]) = l.
Proof.
  revert i0. induction l as [|y l IH]; intros i0 Hk; simpl in *.
  - replace (i0 =? k) with true by (symmetry; apply Nat.eqb_eq; lia). done.
  - replace (i0 =? k) with false by (symmetry; apply Nat.eqb_neq; lia).
    simpl. f_equal. apply IH. lia.
Qed.
End Arrays.

Section Toggle.
Variable defaultSort : SortConfig.
Variable maxSorts : Z.

Notation toggle := (toggleSort defaultSort maxSorts).

Definition absent (f : SortField) (chain : list SortConfig) : Prop :=
  Forall (fun c => field c <> f) chain.

Lemma absent_findIndex f chain :
  absent f chain ->
  Forall (fun c => SortField_eqb (field c) f = false) chain.
Proof.
  intros H. eapply Forall_impl; [exact H|]. intros c Hc. simpl in *.
  destruct (SortField_eqb (field c) f) eqn:E; [|done].
  by apply SortField_eqb_eq in E.
Qed.

(** The entries kept when a field that is not in the chain is added. *)
Definition kept (current : list SortConfig) : list SortConfig :=
  if (maxSorts <=? Z.of_nat (length current))%Z then slice1 current else current.

Lemma absent_kept f current : absent f current -> absent f (kept current).
Proof.
  unfold kept, slice1, absent. destruct (_ <=? _)%Z; [|done].
  destruct current; [done|]. simpl. by inversion 1.
Qed.

Lemma toggle_absent f current :
  absent f current ->
  toggle f current = kept current ++ [{| field := f; order := desc |}].
Proof.
  intros H. unfold toggleSort, kept.
  rewrite (findIndex_absent _ _ (absent_findIndex _ _ H)).
  by destruct (_ <=? _)%Z.
Qed.

Lemma toggle_desc_last f rest :
  absent f rest ->
  toggle f (rest ++ [{| field := f; order := desc |}]) =
  rest ++ [{| field := f; order := asc |}].
Proof.
  intros H. unfold toggleSort.
  rewrite (findIndex_last _ _ _ (absent_findIndex _ _ H))
    by (by apply SortField_eqb_eq).
  rewrite list_lookup_middle by done. simpl.
  by rewrite insert_app_r_alt, Nat.sub_diag by done.
Qed.

Lemma toggle_asc_last f rest :
  absent f rest ->
  toggle f (rest ++ [{| field := f; order := asc |}]) =
  match rest with [] => [defaultSort] | _ => rest end.
Proof.
  intros H. unfold toggleSort.
  rewrite (findIndex_last _ _ _ (absent_findIndex _ _ H))
    by (by apply SortField_eqb_eq).
  rewrite list_lookup_middle by done. simpl.
  unfold filteri. rewrite filterFrom_drop_last by done.
  by destruct rest.
Qed.

Lemma toggle_length f current :
  (1 <= maxSorts)%Z ->
  (Z.of_nat (length current) <= maxSorts)%Z ->
  (Z.of_nat (length (toggle f current)) <= maxSorts)%Z.
Proof.
  intros Hcap Hlen. unfold toggleSort.
  destruct (findIndex _ current) as [i|] eqn:Hi.
  - destruct (current !! i) as [existing|]; [|done].
    destruct (order existing).
    + pose proof (filterFrom_length 0
        (fun (_ : SortConfig) k => negb (Nat.eqb k i)) current) as Hf.
      unfold filteri. destruct (Nat.eqb _ 0); simpl; lia.
    + by rewrite length_insert.
  - destruct (Z.leb_spec maxSorts (Z.of_nat (length current))).
    + rewrite length_app. unfold slice1. destruct current; simpl in *; lia.
    + rewrite length_app. simpl. lia.
Qed.

Lemma toggleAll_length fields current :
  (1 <= maxSorts)%Z ->
  (Z.of_nat (length current) <= maxSorts)%Z ->
  (Z.of_nat (length (toggleAll defaultSort maxSorts fields current)) <= maxSorts)%Z.
Proof.
  intros Hcap. revert current.
  induction fields as [|f fields IH]; intros current Hlen; simpl; [done|].
  apply IH. by apply toggle_length.
Qed.
End Toggle.
End ToggleFacts.

(** A record in the shape of the test suites' [createMockMarket], with the
    spread and the rating given. *)
Definition mockMarket (s : option number) (r : RAGStatus) : MarketData :=
  {| tickerId := "TEST_USDT"; market := "TEST/USDT";
     baseSymbol := "TEST"; targetSymbol := "USDT";
     highestBid := Some 100%float; lowestAsk := Some 102%float;
     spread := s; spreadPercentage := s; ragStatus := r;
     lastPrice := 101%float; volume24h := 1000%float;
     high24h := None; low24h := None |}.

(** C1 (the code at the failing input). Under the descending spread chain
    [sortMarkets] puts the record without a spread first: on the input
    [{spread: 0.5}, {spread: null}] it returns [{spread: null}, {spread: 0.5}],
    so the record with a null spread is not after the record with a spread.
    This holds for every list: under the descending chain every null-spread
    record precedes every record with a spread. *)
Theorem sortMarkets_spread_desc_nulls_first
    (localeCompare : string -> string -> number) :
  sortMarkets localeCompare [{| field := spread_f; order := desc |}]
    [mockMarket (Some 0.5%float) green; mockMarket None red]
  = [mockMarket None red; mockMarket (Some 0.5%float) green] /\
  ~ allBefore hasSpread nullSpread
      (sortMarkets localeCompare [{| field := spread_f; order := desc |}]
         [mockMarket (Some 0.5%float) green; mockMarket None red]) /\
  forall markets,
    allBefore nullSpread hasSpread
      (sortMarkets localeCompare [{| field := spread_f; order := desc |}] markets).
Proof.
  assert (E : sortMarkets localeCompare [{| field := spread_f; order := desc |}]
                [mockMarket (Some 0.5%float) green; mockMarket None red]
              = [mockMarket None red; mockMarket (Some 0.5%float) green])
    by reflexivity.
  split; [exact E|]. split.
  - rewrite E. intros H.
    specialize (H 1 0 (mockMarket (Some 0.5%float) green) (mockMarket None red)
                  eq_refl eq_refl).
    unfold hasSpread, nullSpread in H. simpl in H.
    assert (1 < 0) by (by apply H). lia.
  - apply ChainFacts.spread_desc_nulls_first.
Qed.

(** C5 (as stated, refuted). Under the descending liquidity-rating chain the
    red record is put before the green one. *)
Lemma sortMarkets_rag_desc_red_first :
  sortMarkets (fun _ _ => 0%float) [{| field := ragStatus_f; order := desc |}]
    [mockMarket (Some 0.5%float) green; mockMarket None red]
  = [mockMarket None red; mockMarket (Some 0.5%float) green] /\
  ~ allBefore (rated green) (rated red)
      (sortMarkets (fun _ _ => 0%float) [{| field := ragStatus_f; order := desc |}]
         [mockMarket (Some 0.5%float) green; mockMarket None red]).
Proof.
  assert (E : sortMarkets (fun _ _ => 0%float)
                [{| field := ragStatus_f; order := desc |}]
                [mockMarket (Some 0.5%float) green; mockMarket None red]
              = [mockMarket None red; mockMarket (Some 0.5%float) green])
    by reflexivity.
  split; [exact E|]. rewrite E. intros H.
  specialize (H 1 0 (mockMarket (Some 0.5%float) green) (mockMarket None red)
                eq_refl eq_refl eq_refl eq_refl). lia.
Qed.

(** C5 (amended). [sortMarkets] compares ratings by the comparator's table
    green < amber < red: under the ascending liquidity-rating chain every
    green record precedes every amber record and every amber record
    precedes every red record; under the descending chain the order is the
    reverse, red before amber before green. *)
Theorem sortMarkets_rag_order
    (localeCompare : string -> string -> number) (markets : list MarketData) :
  let up := sortMarkets localeCompare [{| field := ragStatus_f; order := asc |}] markets in
  let down := sortMarkets localeCompare [{| field := ragStatus_f; order := desc |}] markets in
  (allBefore (rated green) (rated amber) up /\
   allBefore (rated amber) (rated red) up /\
   allBefore (rated green) (rated red) up) /\
  (allBefore (rated red) (rated amber) down /\
   allBefore (rated amber) (rated green) down /\
   allBefore (rated red) (rated green) down).
Proof.
  simpl. split; repeat split; intros i j a b Hi Hj Ha Hb;
    unfold rated in Ha, Hb.
  1-3: apply (ChainFacts.sortMarkets_rag_asc _ _ _ _ _ _ Hi Hj).
  4-6: apply (ChainFacts.sortMarkets_rag_desc _ _ _ _ _ _ Hi Hj).
  all: unfold ChainFacts.ragKey; rewrite Ha, Hb; lia.
Qed.

(** C7. For a field F that is not in the chain, [toggleSort(F)] appends F
    with direction desc (after dropping the oldest entry when the chain is
    at the cap); a second [toggleSort(F)] turns that entry into asc at the
    same position; a third removes it, leaving the other entries, or the
    default chain when no other entry is left. *)
Theorem toggleSort_ring (defaultSort : SortConfig) (maxSorts : Z)
    (F : SortField) (current : list SortConfig) :
  Forall (fun c => field c <> F) current ->
  let toggle := toggleSort defaultSort maxSorts F in
  let rest :=
    if (maxSorts <=? Z.of_nat (length current))%Z
    then JSArray.slice1 current else current in
  toggle current = rest ++ [{| field := F; order := desc |}] /\
  toggle (toggle current) = rest ++ [{| field := F; order := asc |}] /\
  toggle (toggle (toggle current)) =
    match rest with [] => [defaultSort] | _ => rest end /\
  Forall (fun c => field c <> F) rest.
Proof.
  intros H toggle rest.
  pose proof (ToggleFacts.absent_kept maxSorts F current H) as Hrest.
  fold rest in Hrest. change (ToggleFacts.kept maxSorts current) with rest in Hrest.
  assert (E1 : toggle current = rest ++ [{| field := F; order := desc |}])
    by (by apply ToggleFacts.toggle_absent).
  assert (E2 : toggle (toggle current) = rest ++ [{| field := F; order := asc |}])
    by (rewrite E1; by apply ToggleFacts.toggle_desc_last).
  repeat split; try done.
  rewrite E2. by apply ToggleFacts.toggle_asc_last.
Qed.

Lemma toggleSort_ring_witness :
  Forall (fun c => field c <> spread_f) [{| field := volume_f; order := desc |}] /\
  toggleSort {| field := volume_f; order := desc |} 2 spread_f
    [{| field := volume_f; order := desc |}]
  = [{| field := volume_f; order := desc |}; {| field := spread_f; order := desc |}] /\
  toggleSort {| field := volume_f; order := desc |} 2 spread_f
    (toggleSort {| field := volume_f; order := desc |} 2 spread_f
       (toggleSort {| field := volume_f; order := desc |} 2 spread_f
          [{| field := volume_f; order := desc |}]))
  = [{| field := volume_f; order := desc |}].
Proof.
  assert (H : Forall (fun c => field c <> spread_f)
                [{| field := volume_f; order := desc |}])
    by (repeat constructor; discriminate).
  split; [exact H|].
  pose proof (toggleSort_ring {| field := volume_f; order := desc |} 2 spread_f
                [{| field := volume_f; order := desc |}] H) as T.
  simpl in T. destruct T as (T1 & _ & T3 & _). split; [exact T1|exact T3].
Defined.

(** C8. With a cap of at least 1, the chain never has more than [maxSorts]
    entries after any number of [toggleSort] calls made from the initial
    chain; toggling a field that is not in a chain at the cap drops the
    oldest entry and appends the new one. *)
Theorem toggleSort_capped (defaultSort : SortConfig) (maxSorts : Z)
    (fields : list SortField) :
  (1 <= maxSorts)%Z ->
  (forall n,
     (Z.of_nat (length (toggleAll defaultSort maxSorts (take n fields)
                          (initialSortConfigs defaultSort))) <= maxSorts)%Z) /\
  (forall F current,
     Forall (fun c => field c <> F) current ->
     (maxSorts <= Z.of_nat (length current))%Z ->
     toggleSort defaultSort maxSorts F current
     = JSArray.slice1 current ++ [{| field := F; order := desc |}]).
Proof.
  intros Hcap. split.
  - intros n. apply ToggleFacts.toggleAll_length; [done|]. simpl. lia.
  - intros F current H Hlen.
    rewrite (ToggleFacts.toggle_absent _ _ _ _ H). unfold ToggleFacts.kept.
    by destruct (Z.leb_spec maxSorts (Z.of_nat (length current))); [|lia].
Qed.

Lemma toggleSort_capped_witness :
  (1 <= 2)%Z /\
  (Z.of_nat (length (toggleAll {| field := volume_f; order := desc |} 2
                       [market_f; spread_f; price_f]
                       [{| field := volume_f; order := desc |}])) <= 2)%Z.
Proof.
  split; [lia|].
  exact (proj1 (toggleSort_capped {| field := volume_f; order := desc |} 2
                  [market_f; spread_f; price_f] ltac:(lia)) 3).
Defined.

Module AssemblerFacts.
Import SortFacts.

(** The summary that the lookup map holds for a ticker: the last one in
    the array with that [ticker_id]. *)
Lemma summaryMap_from_lookup (m : gmap string MarketSummary) summaries k :
  foldl (fun m s => <[ticker_id s := s]> m) m summaries !! k =
  match last (filter (fun s => ticker_id s = k) summaries) with
  | Some s => Some s
  | None => m !! k
  end.
Proof.
  revert m. induction summaries as [|s summaries IH] using rev_ind; intros m.
  - done.
  - rewrite foldl_app, filter_app. simpl.
    rewrite filter_cons, filter_nil.
    destruct (decide (ticker_id s = k)) as [<-|Hne].
    + by rewrite last_snoc, lookup_insert_eq.
    + rewrite app_nil_r, lookup_insert_ne by done. apply IH.
Qed.

Lemma summaryMap_lookup summaries k :
  summaryMap summaries !! k = last (filter (fun s => ticker_id s = k) summaries).
Proof.
  unfold summaryMap. rewrite summaryMap_from_lookup, lookup_empty.
  by destruct (last _).
Qed.

Lemma summaryMap_lookup_None summaries k :
  summaryMap summaries !! k = None <->
  forall s, s ∈ summaries -> ticker_id s <> k.
Proof.
  rewrite summaryMap_lookup, last_None. split.
  - intros H s Hs E.
    assert (s ∈ filter (fun s => ticker_id s = k) summaries) as Hin
      by (by apply list_elem_of_filter).
    rewrite H in Hin. by apply elem_of_nil in Hin.
  - intros H. induction summaries as [|s summaries IH]; [done|].
    rewrite filter_cons. destruct (decide (ticker_id s = k)) as [E|_].
    + exfalso. eapply H; [|exact E]. by left.
    + apply IH. intros s' Hs'. apply H. by right.
Qed.

Lemma summaryMap_lookup_Some summaries k s :
  summaryMap summaries !! k = Some s -> s ∈ summaries /\ ticker_id s = k.
Proof.
  rewrite summaryMap_lookup. intros H.
  apply last_Some_elem_of in H. by apply list_elem_of_filter in H as [? ?].
Qed.
End AssemblerFacts.

(** The summaries that a pair is joined to: those with the pair's ticker,
    in the order of the array. *)
Definition matching (summaries : list MarketSummary) (pair : MarketPair)
  : list MarketSummary :=
  filter (fun s => ticker_id s = mp_ticker_id pair) summaries.

(** C2. The assembler returns exactly one record per trading pair, joined
    to the summaries by ticker and not by position: its result is a
    rearrangement of the records built pair by pair. A pair for which the
    array holds a summary with its ticker gets the record of such a
    summary, of the only one when there is only one and of the last one in
    the array otherwise: bid, ask, last price, volume, high and low are
    that summary's, the spread is the one calculated from its bid and ask,
    and the rating is that of the spread. The record of a pair without a
    matching summary has null bid, ask and spread, rating red and 0 as
    last price and volume. *)
Theorem fetchMarkets_one_record_per_pair
    (pairs : list MarketPair) (summaries : list MarketSummary) :
  let record := processPair (summaryMap summaries) in
  fetchMarkets pairs summaries ≡ₚ record <$> pairs /\
  length (fetchMarkets pairs summaries) = length pairs /\
  (forall pair,
     tickerId (record pair) = mp_ticker_id pair /\
     market (record pair) = mp_base pair +:+ "/" +:+ mp_target pair /\
     baseSymbol (record pair) = mp_base pair /\
     targetSymbol (record pair) = mp_target pair) /\
  (forall pair s,
     s ∈ summaries -> ticker_id s = mp_ticker_id pair ->
     exists joined,
       last (matching summaries pair) = Some joined /\
       joined ∈ summaries /\ ticker_id joined = mp_ticker_id pair /\
       ((forall s', s' ∈ summaries -> ticker_id s' = mp_ticker_id pair -> s' = s) ->
        joined = s)) /\
  (forall pair joined,
     last (matching summaries pair) = Some joined ->
     highestBid (record pair) = bid joined /\
     lowestAsk (record pair) = ask joined /\
     spread (record pair) =
       calculateSpread (ofNullable (bid joined)) (ofNullable (ask joined)) /\
     spreadPercentage (record pair) = spread (record pair) /\
     ragStatus (record pair) = classifyRAG (spread (record pair)) /\
     lastPrice (record pair) = last_price joined /\
     volume24h (record pair) = base_volume joined /\
     high24h (record pair) = Some (high joined) /\
     low24h (record pair) = Some (low joined)) /\
  (forall pair,
     (forall s, s ∈ summaries -> ticker_id s <> mp_ticker_id pair) ->
     record pair =
     {| tickerId := mp_ticker_id pair;
        market := mp_base pair +:+ "/" +:+ mp_target pair;
        baseSymbol := mp_base pair;
        targetSymbol := mp_target pair;
        highestBid := None;
        lowestAsk := None;
        spread := None;
        spreadPercentage := None;
        ragStatus := red;
        lastPrice := 0%float;
        volume24h := 0%float;
        high24h := None;
        low24h := None |}).
Proof.
  cbv zeta.
  assert (P : fetchMarkets pairs summaries ≡ₚ processPair (summaryMap summaries) <$> pairs)
    by apply SortFacts.sort_Permutation.
  split; [exact P|]. split; [by rewrite P, length_fmap|]. split; [done|].
  split; [|split].
  - intros pair s Hin Ht. unfold matching.
    assert (s ∈ filter (fun s => ticker_id s = mp_ticker_id pair) summaries) as Hs
      by (by apply list_elem_of_filter).
    destruct (last (filter (fun s => ticker_id s = mp_ticker_id pair) summaries))
      as [joined|] eqn:E.
    + exists joined. split; [done|].
      apply last_Some_elem_of, list_elem_of_filter in E as [Hj1 Hj2].
      repeat split; try done. intros Hu. by apply Hu.
    + apply last_None in E. rewrite E in Hs. by apply elem_of_nil in Hs.
  - intros pair joined Hj. unfold matching in Hj.
    rewrite <- AssemblerFacts.summaryMap_lookup in Hj.
    unfold processPair. rewrite Hj. simpl. done.
  - intros pair Hp. apply AssemblerFacts.summaryMap_lookup_None in Hp.
    unfold processPair. rewrite Hp. reflexivity.
Qed.

(** The join on two pairs and three summaries, given out of order and with
    a ticker that no pair has: each pair gets the summary with its own
    ticker. *)
Example fetchMarkets_joins_by_ticker :
  let pairs :=
    [ {| mp_ticker_id := "BTC_USDT"; mp_base := "BTC"; mp_target := "USDT" |};
      {| mp_ticker_id := "ETH_USDT"; mp_base := "ETH"; mp_target := "USDT" |} ] in
  let summary (t : string) (p v : number) :=
    {| ticker_id := t; base_currency := "X"; target_currency := "USDT";
       last_price := p; base_volume := v; target_volume := 1%float;
       bid := None; ask := None; high := p; low := p |} in
  let summaries :=
    [ summary "ETH_USDT" 1200 340; summary "XRP_USDT" 1 5;
      summary "BTC_USDT" 16605 12 ]%float%string in
  (fun m => (tickerId m, lastPrice m, volume24h m)) <$> fetchMarkets pairs summaries
  = [ ("ETH_USDT", 1200, 340); ("BTC_USDT", 16605, 12) ]%float%string.
Proof. reflexivity. Qed.

Module MathFacts.
Import NumberFacts JSMath.
Local Open Scope float_scope.

Definition notNaN (x : number) : Prop := isNaN x = false.
Definition le (x y : number) : Prop := (x <=? y) = true.

Lemma isNegZero_rk x : isNegZero x = true -> rk x = (0, 0, 0)%Z.
Proof.
  unfold isNegZero, rk. rewrite classify_spec.
  unfold SF64classify, SFclassify.
  destruct (Prim2SF x) as [[]|[]| |[] m e]; try done;
    by destruct (Z.pos (digits2_pos m) =? prec)%Z.
Qed.

Lemma isPosZero_rk x : isPosZero x = true -> rk x = (0, 0, 0)%Z.
Proof.
  unfold isPosZero, rk. rewrite classify_spec.
  unfold SF64classify, SFclassify.
  destruct (Prim2SF x) as [[]|[]| |[] m e]; try done;
    by destruct (Z.pos (digits2_pos m) =? prec)%Z.
Qed.

Lemma rk_bounds x : let '(a, b, c) := rk x in
  (-2 <= a <= 2 /\ (a = 2 \/ a = -2 -> b = 0 /\ c = 0))%Z.
Proof.
  unfold rk. destruct (Prim2SF x) as [[]|[]| |[] m e]; simpl; lia.
Qed.

Lemma infinity_le x : le infinity x -> x = infinity.
Proof.
  unfold le. rewrite leb_rk. intros (_ & _ & H).
  apply Prim2SF_inj. change (Prim2SF infinity) with (S754_infinity false).
  unfold rk in H. change (Prim2SF infinity) with (S754_infinity false) in H.
  destruct (Prim2SF x) as [[]|[]| |[] m e]; simpl in H; try done;
    destruct H as [H|H]; try discriminate; lia.
Qed.

Lemma le_neg_infinity x : le x neg_infinity -> x = neg_infinity.
Proof.
  unfold le. rewrite leb_rk. intros (_ & _ & H).
  apply Prim2SF_inj. change (Prim2SF neg_infinity) with (S754_infinity true).
  unfold rk in H. change (Prim2SF neg_infinity) with (S754_infinity true) in H.
  destruct (Prim2SF x) as [[]|[]| |[] m e]; simpl in H; try done;
    destruct H as [H|H]; try discriminate; lia.
Qed.

Lemma minFrom_spec lowest l :
  notNaN lowest -> Forall notNaN l ->
  notNaN (minFrom lowest l) /\
  (minFrom lowest l = lowest \/ minFrom lowest l ∈ l) /\
  le (minFrom lowest l) lowest /\
  Forall (le (minFrom lowest l)) l.
Proof.
  intros Hlow Hl. revert lowest Hlow.
  induction Hl as [|x l Hx Hl IH]; intros lowest Hlow; simpl.
  - repeat split; auto. by apply leb_refl.
  - unfold notNaN in Hx. rewrite Hx.
    set (lowest' := if isNegZero x && isPosZero lowest then x
                    else if x <? lowest then x else lowest).
    assert (notNaN lowest' /\ (lowest' = lowest \/ lowest' = x) /\
            le lowest' lowest /\ le lowest' x) as (N & M & L1 & L2).
    { unfold lowest'.
      destruct (isNegZero x && isPosZero lowest) eqn:Z.
      - apply andb_true_iff in Z as [Zx Zl].
        repeat split; auto; [|by apply leb_refl].
        apply leb_rk. repeat split; auto. right.
        by rewrite (isNegZero_rk _ Zx), (isPosZero_rk _ Zl).
      - destruct (x <? lowest) eqn:Lt.
        + repeat split; auto; [by apply ltb_leb|by apply leb_refl].
        + repeat split; auto; [by apply leb_refl|by apply ltb_false_leb]. }
    destruct (IH lowest' N) as (N' & M' & L1' & L2').
    repeat split; auto.
    + destruct M' as [->|?]; [|right; by right].
      destruct M as [->| ->]; [by left|right; by left].
    + unfold le in *. eauto using leb_trans.
    + constructor; [|done]. unfold le in *. eauto using leb_trans.
Qed.

Lemma maxFrom_spec highest l :
  notNaN highest -> Forall notNaN l ->
  notNaN (maxFrom highest l) /\
  (maxFrom highest l = highest \/ maxFrom highest l ∈ l) /\
  le highest (maxFrom highest l) /\
  Forall (fun x => le x (maxFrom highest l)) l.
Proof.
  intros Hhigh Hl. revert highest Hhigh.
  induction Hl as [|x l Hx Hl IH]; intros highest Hhigh; simpl.
  - repeat split; auto. by apply leb_refl.
  - unfold notNaN in Hx. rewrite Hx.
    set (highest' := if isPosZero x && isNegZero highest then x
                     else if highest <? x then x else highest).
    assert (notNaN highest' /\ (highest' = highest \/ highest' = x) /\
            le highest highest' /\ le x highest') as (N & M & L1 & L2).
    { unfold highest'.
      destruct (isPosZero x && isNegZero highest) eqn:Z.
      - apply andb_true_iff in Z as [Zx Zl].
        repeat split; auto; [|by apply leb_refl].
        apply leb_rk. repeat split; auto. right.
        by rewrite (isPosZero_rk _ Zx), (isNegZero_rk _ Zl).
      - destruct (highest <? x) eqn:Lt.
        + repeat split; auto; [by apply ltb_leb|by apply leb_refl].
        + repeat split; auto; [by apply leb_refl|by apply ltb_false_leb]. }
    destruct (IH highest' N) as (N' & M' & L1' & L2').
    repeat split; auto.
    + destruct M' as [->|?]; [|right; by right].
      destruct M as [->| ->]; [by left|right; by left].
    + unfold le in *. eauto using leb_trans.
    + constructor; [|done]. unfold le in *. eauto using leb_trans.
Qed.

(** On a non-empty list without NaN, [Math.min] returns one of the
    elements, and no element is below it. *)
Lemma min_spec l :
  l <> [] -> Forall notNaN l ->
  JSMath.min l ∈ l /\ Forall (le (JSMath.min l)) l.
Proof.
  intros Hne Hl. unfold JSMath.min.
  destruct (minFrom_spec infinity l eq_refl Hl) as (_ & M & _ & L).
  split; [|done]. destruct M as [E|M]; [|done].
  destruct l as [|x l]; [done|]. rewrite E in L |- *.
  apply Forall_cons in L as [Lx _]. apply infinity_le in Lx. subst x. by left.
Qed.

Lemma max_spec l :
  l <> [] -> Forall notNaN l ->
  JSMath.max l ∈ l /\ Forall (fun x => le x (JSMath.max l)) l.
Proof.
  intros Hne Hl. unfold JSMath.max.
  destruct (maxFrom_spec neg_infinity l eq_refl Hl) as (_ & M & _ & L).
  split; [|done]. destruct M as [E|M]; [|done].
  destruct l as [|x l]; [done|]. rewrite E in L |- *.
  apply Forall_cons in L as [Lx _]. apply le_neg_infinity in Lx. subst x. by left.
Qed.
End MathFacts.

(** The double-precision sum of a list of numbers, added left to right
    starting from 0, as [reduce((sum, x) => sum + x, 0)] computes it. *)
Definition sumOf (l : list number) : number := foldl add 0%float l.

(** A side of the book that the engine can spread into a call: it has no
    more entries than the engine accepts as arguments (an empty side is
    never spread). *)
Definition spreads (acceptsArguments : nat -> bool)
    (entries : list OrderBookEntry) : Prop :=
  entries = [] \/ acceptsArguments (length entries) = true.

Module DepthFacts.
Import MathFacts.

Section WithEngine.
Variable acceptsArguments : nat -> bool.

Lemma rangeOf_Returns (entries : list OrderBookEntry) :
  spreads acceptsArguments entries ->
  rangeOf acceptsArguments (price <$> entries) =
  Returns
    (if Nat.ltb 0 (length (price <$> entries))
     then Some {| range_min := JSMath.min (price <$> entries);
                  range_max := JSMath.max (price <$> entries) |}
     else None).
Proof.
  unfold rangeOf, spreadMin, spreadMax. rewrite length_fmap.
  intros [-> | ->]; [done|]. by destruct (Nat.ltb 0 (length entries)).
Qed.

Lemma rangeOf_Throws (entries : list OrderBookEntry) :
  ~ spreads acceptsArguments entries ->
  rangeOf acceptsArguments (price <$> entries) = Throws.
Proof.
  unfold rangeOf, spreadMin, spreadMax, spreads. rewrite length_fmap.
  intros H. destruct entries as [|e entries]; [by destruct H; left|].
  destruct (acceptsArguments (length (e :: entries))) eqn:E; [|done].
  destruct H. by right.
Qed.

Lemma spreads_dec (entries : list OrderBookEntry) :
  spreads acceptsArguments entries \/ ~ spreads acceptsArguments entries.
Proof.
  unfold spreads. destruct entries as [|e entries]; [by left; left|].
  destruct (acceptsArguments (length (e :: entries))); [by left; right|].
  right. by intros [?|?].
Qed.
End WithEngine.

Lemma foldl_quantity (entries : list OrderBookEntry) (z : number) :
  foldl (fun sum e => (sum + quantity e)%float) z entries =
  foldl add z (quantity <$> entries).
Proof.
  revert z. induction entries as [|e entries IH]; intros z; simpl; [done|].
  apply IH.
Qed.

(** The range of a side without NaN holds its smallest and its largest
    price. *)
Lemma range_bounds (entries : list OrderBookEntry) r :
  (if Nat.ltb 0 (length (price <$> entries))
   then Some {| range_min := JSMath.min (price <$> entries);
                range_max := JSMath.max (price <$> entries) |}
   else None) = Some r ->
  Forall (fun p => isNaN p = false) (price <$> entries) ->
  (range_min r ∈ price <$> entries /\
   Forall (fun p => (range_min r <=? p)%float = true) (price <$> entries)) /\
  (range_max r ∈ price <$> entries /\
   Forall (fun p => (p <=? range_max r)%float = true) (price <$> entries)).
Proof.
  intros Hr Hn.
  assert (price <$> entries <> []) as Hne by (by destruct entries).
  destruct (price <$> entries) as [|p ps] eqn:E; [done|].
  simpl in Hr. injection Hr as <-. simpl. split.
  - by apply MathFacts.min_spec.
  - by apply MathFacts.max_spec.
Qed.
End DepthFacts.

(** C9. On a snapshot whose sides the engine can spread into a call, the
    depth analysis returns: the sums of the bid and of the ask quantities;
    the number of entries on each side; for each side a price range that
    is null exactly when the side is empty and that otherwise holds the
    smallest and the largest price of the side; and a spread at depth that
    is null exactly when a side is empty and is otherwise
    ((bestAsk - bestBid) / midpoint) * 100 for bestBid the largest bid
    price, bestAsk the smallest ask price and midpoint
    0.5 * (bestAsk + bestBid). On a snapshot with a side of more entries
    than the engine accepts as arguments it returns nothing: the spread
    call throws, where the sums, computed with [reduce], have no such
    limit. So it is for 200000 bids on an engine that does not accept
    200000 arguments. *)
Theorem analyzeOrderBook_spec (acceptsArguments : nat -> bool)
    (depthData : ValidatedMarketDepth) :
  let bidPrices := price <$> bids depthData in
  let askPrices := price <$> asks depthData in
  let smallestOf (prices : list number) (x : number) :=
    x ∈ prices /\ Forall (fun p => (x <=? p)%float = true) prices in
  let largestOf (prices : list number) (x : number) :=
    x ∈ prices /\ Forall (fun p => (p <=? x)%float = true) prices in
  (spreads acceptsArguments (bids depthData) ->
   spreads acceptsArguments (asks depthData) ->
   exists analysis,
     analyzeOrderBook acceptsArguments depthData = Returns analysis /\
     totalBidQuantity analysis = sumOf (quantity <$> bids depthData) /\
     totalAskQuantity analysis = sumOf (quantity <$> asks depthData) /\
     bidDepth analysis = length (bids depthData) /\
     askDepth analysis = length (asks depthData) /\
     (bidPriceRange analysis = None <-> bids depthData = []) /\
     (askPriceRange analysis = None <-> asks depthData = []) /\
     (forall r, bidPriceRange analysis = Some r ->
        Forall (fun p => isNaN p = false) bidPrices ->
        smallestOf bidPrices (range_min r) /\ largestOf bidPrices (range_max r)) /\
     (forall r, askPriceRange analysis = Some r ->
        Forall (fun p => isNaN p = false) askPrices ->
        smallestOf askPrices (range_min r) /\ largestOf askPrices (range_max r)) /\
     (spreadAtDepth analysis = None <-> bids depthData = [] \/ asks depthData = []) /\
     (forall rb ra,
        bidPriceRange analysis = Some rb -> askPriceRange analysis = Some ra ->
        let bestBid := range_max rb in
        let bestAsk := range_min ra in
        let midpoint := (0.5 * (bestAsk + bestBid))%float in
        spreadAtDepth analysis = Some (((bestAsk - bestBid) / midpoint) * 100)%float) /\
     analysis_tickerId analysis = depth_ticker_id depthData /\
     analysis_timestamp analysis = depth_timestamp depthData) /\
  (~ (spreads acceptsArguments (bids depthData) /\
      spreads acceptsArguments (asks depthData)) ->
   analyzeOrderBook acceptsArguments depthData = Throws) /\
  (acceptsArguments 200000 = false ->
   forall entry,
     analyzeOrderBook acceptsArguments
       {| depth_ticker_id := depth_ticker_id depthData;
          depth_timestamp := depth_timestamp depthData;
          bids := replicate 200000 entry;
          asks := asks depthData |} = Throws).
Proof.
  assert (T : forall d,
             ~ (spreads acceptsArguments (bids d) /\
                spreads acceptsArguments (asks d)) ->
             analyzeOrderBook acceptsArguments d = Throws).
  { intros d H. unfold analyzeOrderBook.
    destruct (DepthFacts.spreads_dec acceptsArguments (bids d)) as [Hb|Hb].
    - rewrite (DepthFacts.rangeOf_Returns _ _ Hb).
      rewrite DepthFacts.rangeOf_Throws; [done|]. intros Ha. by apply H.
    - by rewrite DepthFacts.rangeOf_Throws. }
  cbv zeta. split; [|split; [apply T|]].
  - intros Hb Ha. unfold analyzeOrderBook.
    rewrite (DepthFacts.rangeOf_Returns _ _ Hb),
      (DepthFacts.rangeOf_Returns _ _ Ha).
    eexists. split; [reflexivity|].
    destruct depthData as [tid ts bs as_]. simpl. clear Hb Ha.
    split; [apply DepthFacts.foldl_quantity|].
    split; [apply DepthFacts.foldl_quantity|].
    do 2 (split; [done|]).
    split; [by destruct bs|]. split; [by destruct as_|].
    split; [apply DepthFacts.range_bounds|].
    split; [apply DepthFacts.range_bounds|].
    split.
    + destruct bs, as_; simpl; split; try done; try (by left); try (by right).
      by intros [?|?].
    + split; [|done]. intros rb ra Hb Ha.
      destruct bs; [done|]. destruct as_; [done|]. simpl in *.
      by injection Hb as <-; injection Ha as <-.
  - intros H entry. apply T. cbn [bids]. intros [[E|E] _].
    + apply (f_equal (fun l => Nat.leb 1 (length l))) in E.
      rewrite length_replicate in E. vm_compute in E. discriminate.
    + rewrite length_replicate in E. congruence.
Qed.

(** An engine that accepts up to 100000 arguments. *)
Definition exampleEngine (n : nat) : bool := Nat.leb n 100000.

(** The scenario of the depth analysis: three bids and three asks. *)
Example analyzeOrderBook_scenario :
  let depthData :=
    {| depth_ticker_id := "BTC_USDT"; depth_timestamp := 1700000000000%float;
       bids := [ {| price := 16600; quantity := 0.5 |};
                 {| price := 16590; quantity := 1.2 |};
                 {| price := 16580; quantity := 0.8 |} ]%float;
       asks := [ {| price := 16610; quantity := 0.6 |};
                 {| price := 16620; quantity := 1.0 |};
                 {| price := 16630; quantity := 0.4 |} ]%float |} in
  exists analysis,
    analyzeOrderBook exampleEngine depthData = Returns analysis /\
    totalBidQuantity analysis = 2.5%float /\
    totalAskQuantity analysis = 2.0%float /\
    bidPriceRange analysis = Some {| range_min := 16580; range_max := 16600 |}%float /\
    askPriceRange analysis = Some {| range_min := 16610; range_max := 16630 |}%float /\
    spreadAtDepth analysis = Some 0.060222824450466728%float.
Proof. eexists. split; [vm_compute; reflexivity|]. vm_compute. repeat split; reflexivity. Qed.

Module ValidatorFacts.
Local Open Scope float_scope.

Section WithNumber.
Variable Number : JSValue -> number.

(** The value [val] is present, not the empty string, and [Number(val)]
    is a number. *)
Definition numeric (val : JSValue) : Prop :=
  val <> VUndefined /\ val <> VNull /\ val <> VString EmptyString /\
  isNaN (Number val) = false.

Lemma optionalNumberPreprocess_numeric val :
  numeric val -> optionalNumberPreprocess Number val = VNumber (Number val).
Proof.
  intros (U & N & E & Hn). unfold optionalNumberPreprocess. rewrite Hn.
  destruct val as [| | | |s| |]; try done. by destruct s.
Qed.

Lemma optionalNumberPreprocess_null val :
  ~ numeric val -> optionalNumberPreprocess Number val = VNull.
Proof.
  intros H. unfold optionalNumberPreprocess.
  destruct (isNaN (Number val)) eqn:Hn.
  - destruct val as [| | | |s| |]; try done. by destruct s.
  - destruct val as [| | | |s| |]; try done;
      try (exfalso; apply H; by repeat split).
    destruct s; [done|]. exfalso; apply H; by repeat split.
Qed.

Lemma optionalNumber_numeric val :
  numeric val ->
  optionalNumber Number val =
  if Number val <? 0 then None else Some (Some (Number val)).
Proof.
  intros H. unfold optionalNumber.
  rewrite (optionalNumberPreprocess_numeric _ H).
  destruct H as (_ & _ & _ & Hn). simpl. rewrite Hn. simpl.
  unfold nonnegative. by destruct (Number val <? 0).
Qed.

Lemma optionalNumber_null val :
  ~ numeric val -> optionalNumber Number val = Some None.
Proof.
  intros H. unfold optionalNumber.
  by rewrite (optionalNumberPreprocess_null _ H).
Qed.

Lemma negative_numeric val :
  val <> VUndefined -> val <> VNull -> val <> VString EmptyString ->
  (Number val <? 0) = true -> numeric val.
Proof.
  intros U N E Hneg. repeat split; try done.
  by apply NumberFacts.ltb_rk in Hneg as (? & _).
Qed.

Lemma item_fails_on (key : string) props :
  key = "highest_bid"%string \/ key = "lowest_ask"%string ->
  optionalNumber Number (getProp key props) = None ->
  RawMarketSummaryItemSchema Number (VObject props) = None.
Proof.
  intros Hkey Hfail. unfold RawMarketSummaryItemSchema.
  destruct (zStringMin1 _); simpl; [|done].
  destruct (zCoerceNumberNonnegative Number (getProp "lowest_price_24h" props));
    simpl; [|done].
  destruct (zCoerceNumberNonnegative Number (getProp "highest_price_24h" props));
    simpl; [|done].
  destruct Hkey as [-> | ->].
  - by rewrite Hfail.
  - destruct (optionalNumber Number (getProp "highest_bid" props)); simpl; [|done].
    by rewrite Hfail.
Qed.

Lemma response_fails_on props items item :
  getProp "summary" props = VArray items ->
  item ∈ items ->
  RawMarketSummaryItemSchema Number item = None ->
  RawMarketSummaryResponseSchema Number (VObject props) = None.
Proof.
  intros Hs Hin Hfail. unfold RawMarketSummaryResponseSchema.
  destruct (zString _); simpl; [|done].
  rewrite Hs. unfold zArray.
  replace (mapM (RawMarketSummaryItemSchema Number) items) with
    (@None (list Raw.MarketSummaryItem)); [done|].
  symmetry. apply mapM_None. apply Exists_exists. eauto.
Qed.
End WithNumber.
End ValidatorFacts.

(** C10. A summary item whose [highest_bid] or [lowest_ask] is present, is
    not the empty string and converts to a negative number makes the
    validation of the whole payload fail: [validateMarketSummary] throws
    and [safeValidateMarketSummary] returns null. The field is turned into
    null only when it is undefined, null, the empty string, or converts to
    NaN. *)
Theorem negative_bid_ask_fails_validation
    (Number : JSValue -> number)
    (props : list (string * JSValue)) (items : list JSValue)
    (itemProps : list (string * JSValue)) (key : string) :
  getProp "summary" props = VArray items ->
  VObject itemProps ∈ items ->
  key = "highest_bid"%string \/ key = "lowest_ask"%string ->
  getProp key itemProps <> VUndefined ->
  getProp key itemProps <> VNull ->
  getProp key itemProps <> VString EmptyString ->
  (Number (getProp key itemProps) <? 0)%float = true ->
  optionalNumber Number (getProp key itemProps) = None /\
  validateMarketSummary Number (VObject props) = Throws /\
  safeValidateMarketSummary Number (VObject props) = None /\
  (forall val,
     optionalNumber Number val = Some None <->
     val = VUndefined \/ val = VNull \/ val = VString EmptyString \/
     isNaN (Number val) = true).
Proof.
  intros Hs Hin Hkey U N E Hneg.
  pose proof (ValidatorFacts.negative_numeric Number _ U N E Hneg) as Hnum.
  assert (F : optionalNumber Number (getProp key itemProps) = None)
    by (by rewrite ValidatorFacts.optionalNumber_numeric, Hneg).
  assert (T : validateMarketSummary Number (VObject props) = Throws).
  { unfold validateMarketSummary.
    by rewrite (ValidatorFacts.response_fails_on Number props items _ Hs Hin
                  (ValidatorFacts.item_fails_on Number key itemProps Hkey F)). }
  split; [exact F|]. split; [exact T|].
  split; [unfold safeValidateMarketSummary; by rewrite T|].
  intros val. split.
  - intros H.
    assert (val = VUndefined \/ val = VNull \/ val = VString EmptyString \/
            (val <> VUndefined /\ val <> VNull /\ val <> VString EmptyString))
      as [?|[?|[?|(U' & N' & E')]]]; [|by left|right; by left|do 2 right; by left|].
    { destruct val as [| | | |[|c s]| |]; auto; do 3 right; by repeat split. }
    do 3 right. destruct (isNaN (Number val)) eqn:Hn; [done|].
    rewrite ValidatorFacts.optionalNumber_numeric in H by (by repeat split).
    by destruct (Number val <? 0)%float.
  - intros H. apply ValidatorFacts.optionalNumber_null.
    intros (U' & N' & E' & Hn). destruct H as [?|[?|[?|?]]]; congruence.
Qed.

(** A summary payload with one item, whose [highest_bid] is given. *)
Definition summaryItemProps (highest_bid : JSValue) : list (string * JSValue) :=
  [ ("trading_pairs", VString "BTC-USDT");
    ("lowest_price_24h", VString "16000");
    ("highest_price_24h", VString "17000");
    ("highest_bid", highest_bid);
    ("lowest_ask", VString "16610");
    ("base_volume", VString "12");
    ("quote_volume", VString "200000");
    ("last_price", VString "16605") ]%string.

Definition summaryProps (highest_bid : JSValue) : list (string * JSValue) :=
  [ ("timestamp", VString "2024-01-01T00:00:00.000Z");
    ("summary", VArray [VObject (summaryItemProps highest_bid)]) ]%string.

Definition summaryPayload (highest_bid : JSValue) : JSValue :=
  VObject (summaryProps highest_bid).

Lemma negative_bid_ask_fails_validation_witness :
  (NumberOfDecimal.Number (VString "-5") <? 0)%float = true /\
  validateMarketSummary NumberOfDecimal.Number (summaryPayload (VString "-5")) = Throws /\
  safeValidateMarketSummary NumberOfDecimal.Number (summaryPayload (VString "-5")) = None.
Proof.
  split; [reflexivity|].
  assert (T := negative_bid_ask_fails_validation NumberOfDecimal.Number
                 (summaryProps (VString "-5"))
                 [VObject (summaryItemProps (VString "-5"))]
                 (summaryItemProps (VString "-5")) "highest_bid").
  destruct T as (_ & T1 & T2 & _).
  - reflexivity.
  - by left.
  - by left.
  - discriminate.
  - discriminate.
  - discriminate.
  - reflexivity.
  - split; [exact T1|exact T2].
Defined.

(** The same payload with a bid of 5 validates, and so does one without a
    bid, whose bid becomes null. *)
Example positive_bid_validates :
  validateMarketSummary NumberOfDecimal.Number (summaryPayload (VString "5")) =
  Returns
    [ {| ticker_id := "BTC_USDT"; base_currency := "BTC"; target_currency := "USDT";
         last_price := 16605; base_volume := 12; target_volume := 200000;
         bid := Some 5%float; ask := Some 16610%float;
         high := 17000; low := 16000 |} ]%float /\
  safeValidateMarketSummary NumberOfDecimal.Number (summaryPayload VUndefined) =
  Some
    [ {| ticker_id := "BTC_USDT"; base_currency := "BTC"; target_currency := "USDT";
         last_price := 16605; base_volume := 12; target_volume := 200000;
         bid := None; ask := Some 16610%float;
         high := 17000; low := 16000 |} ]%float.
Proof. split; reflexivity. Qed.

(** C4 (as stated, refuted). For bid = 1 and ask = 1e17 the differences and
    sums round to 1e17, and the spread is exactly 200, which is not below
    200. *)
Lemma calculateSpread_reaches_200 :
  isFinite 1%float = true /\ isFinite 1e17%float = true /\
  (0 <? 1)%float = true /\ (0 <? 1e17)%float = true /\ (1 <=? 1e17)%float = true /\
  calculateSpread (Defined 1%float) (Defined 1e17%float) = Some 200%float /\
  (200 <? 200)%float = false.
Proof. repeat split; reflexivity. Qed.

(** ** Part III: further properties of the code *)

(** *** Rounding of binary64 operations

    Bounds on the results of the operations of [SpecFloat], the
    specification that the primitive floats follow: a result never leaves
    an interval whose ends are representable numbers. Real numbers are
    used only to state and prove these bounds. *)

Module Rounding.
Local Open Scope R_scope.

Definition bpow (e : Z) : R := powerRZ 2 e.

Lemma bpow_pos e : 0 < bpow e.
Proof. apply powerRZ_lt. lra. Qed.

Lemma bpow_add a b : bpow (a + b) = bpow a * bpow b.
Proof. apply powerRZ_add. lra. Qed.

Lemma bpow_0 : bpow 0 = 1.
Proof. reflexivity. Qed.

Lemma bpow_1 : bpow 1 = 2.
Proof. unfold bpow. simpl. lra. Qed.

Lemma bpow_succ e : bpow (e + 1) = 2 * bpow e.
Proof. rewrite bpow_add, bpow_1. lra. Qed.

Lemma bpow_IZR n : (0 <= n)%Z -> bpow n = IZR (2 ^ n).
Proof.
  intros Hn. pattern n. apply natlike_ind; [reflexivity| |done].
  intros k Hk IH. rewrite Z.pow_succ_r by done. rewrite mult_IZR, <- IH.
  unfold Z.succ. rewrite bpow_succ. lra.
Qed.

Lemma bpow_le a b : (a <= b)%Z -> bpow a <= bpow b.
Proof.
  intros H. replace b with (a + (b - a))%Z by lia.
  rewrite bpow_add, (bpow_IZR (b - a)) by lia.
  assert (1 <= IZR (2 ^ (b - a))) by (apply IZR_le; pose proof (Z.pow_pos_nonneg 2 (b - a)); lia).
  pose proof (bpow_pos a). nra.
Qed.

Lemma bpow_lt a b : (a < b)%Z -> bpow a < bpow b.
Proof.
  intros H. replace b with (a + (b - a))%Z by lia.
  rewrite bpow_add, (bpow_IZR (b - a)) by lia.
  assert (2 <= IZR (2 ^ (b - a))).
  { apply IZR_le. replace (b - a)%Z with (Z.succ (b - a - 1)) by lia.
    rewrite Z.pow_succ_r by lia. pose proof (Z.pow_pos_nonneg 2 (b - a - 1)). lia. }
  pose proof (bpow_pos a). nra.
Qed.

(** The value of mantissa [m] at exponent [e]. *)
Definition F2R (m e : Z) : R := IZR m * bpow e.

Lemma F2R_shift m e n : (0 <= n)%Z -> F2R m e = F2R (m * 2 ^ n) (e - n).
Proof.
  intros Hn. unfold F2R. rewrite mult_IZR, <- bpow_IZR by done.
  replace e with ((e - n) + n)%Z at 1 by lia. rewrite bpow_add. lra.
Qed.

Lemma digits2_bounds p :
  (2 ^ (Zpos (digits2_pos p) - 1) <= Zpos p < 2 ^ Zpos (digits2_pos p))%Z.
Proof.
  induction p as [p IH|p IH|]; simpl digits2_pos.
  - rewrite Pos2Z.inj_succ. replace (Z.succ (Z.pos (digits2_pos p)) - 1)%Z
      with (Z.succ (Z.pos (digits2_pos p) - 1)) by lia.
    rewrite !Z.pow_succ_r by lia. lia.
  - rewrite Pos2Z.inj_succ. replace (Z.succ (Z.pos (digits2_pos p)) - 1)%Z
      with (Z.succ (Z.pos (digits2_pos p) - 1)) by lia.
    rewrite !Z.pow_succ_r by lia. lia.
  - simpl. lia.
Qed.


(** [x] lies in the slot of width [2^e] that starts at [m * 2^e], and the
    location says whether it is the start of the slot. *)
Definition located (x : R) (m e : Z) (l : location) : Prop :=
  (F2R m e <= x < F2R (m + 1) e) /\ (l = loc_Exact <-> x = F2R m e).

Definition located_rec (x : R) (mrs : shr_record) (e : Z) : Prop :=
  located x (shr_m mrs) e (loc_of_shr_record mrs).

Lemma loc_of_record_of_loc m l : loc_of_shr_record (shr_record_of_loc m l) = l.
Proof. by destruct l as [|[]]. Qed.

Lemma shr_m_record_of_loc m l : shr_m (shr_record_of_loc m l) = m.
Proof. by destruct l as [|[]]. Qed.

Lemma shr_1_m mrs : (0 <= shr_m mrs)%Z -> shr_m (shr_1 mrs) = (shr_m mrs / 2)%Z.
Proof.
  destruct mrs as [m r s]. simpl. intros Hm.
  destruct m as [|[p|p|]|p]; simpl; [reflexivity| | |reflexivity|lia].
  - rewrite Pos2Z.inj_xI. apply Z.div_unique with 1%Z; lia.
  - rewrite Pos2Z.inj_xO. apply Z.div_unique with 0%Z; lia.
Qed.

Lemma shr_1_halves m r s :
  (0 <= m)%Z ->
  let mrs' := shr_1 {| shr_m := m; shr_r := r; shr_s := s |} in
  IZR (shr_m mrs') * 2 <= IZR m /\
  IZR m <= IZR (shr_m mrs') * 2 + 1 /\
  (shr_r mrs' = false -> IZR m = IZR (shr_m mrs') * 2) /\
  (shr_r mrs' = true -> IZR m = IZR (shr_m mrs') * 2 + 1) /\
  shr_s mrs' = r || s.
Proof.
  intros Hm. destruct m as [|[p|p|]|p]; [| | | |lia]; simpl.
  - repeat split; try lra; discriminate.
  - assert (IZR (Z.pos p~1) = 2 * IZR (Z.pos p) + 1) as ->
      by (rewrite Pos2Z.inj_xI, plus_IZR, mult_IZR; lra).
    repeat split; try lra; discriminate.
  - assert (IZR (Z.pos p~0) = 2 * IZR (Z.pos p)) as ->
      by (rewrite Pos2Z.inj_xO, mult_IZR; lra).
    repeat split; try lra; discriminate.
  - repeat split; try lra; discriminate.
Qed.

Lemma shr_1_located x mrs e :
  (0 <= shr_m mrs)%Z -> located_rec x mrs e -> located_rec x (shr_1 mrs) (e + 1).
Proof.
  destruct mrs as [m r s]. intros Hm H.
  pose proof (shr_1_halves m r s Hm) as (B1 & B2 & Ev & Od & St).
  destruct (shr_1 {| shr_m := m; shr_r := r; shr_s := s |}) as [m' r' s'].
  unfold located_rec, located, F2R in *. simpl in *. subst s'.
  destruct H as [Hx [Hl1 Hl2]].
  rewrite bpow_succ. pose proof (bpow_pos e) as HB.
  rewrite plus_IZR in *.
  assert (IZR m' * 2 * bpow e <= IZR m * bpow e) as P1
    by (apply Rmult_le_compat_r; lra).
  assert ((IZR m + 1) * bpow e <= (IZR m' * 2 + 2) * bpow e) as P2
    by (apply Rmult_le_compat_r; lra).
  split; [lra|]. split.
  - intros E. destruct r', r, s; simpl in E; try discriminate E.
    specialize (Ev eq_refl). specialize (Hl1 eq_refl). rewrite Hl1, Ev. lra.
  - intros E. destruct r'.
    + specialize (Od eq_refl). exfalso. rewrite Od in Hx.
      assert (0 < 1 * bpow e) by lra. lra.
    + specialize (Ev eq_refl).
      assert (x = IZR m * bpow e) as Hold by (rewrite Ev, E; lra).
      apply Hl2 in Hold. by destruct r, s.
Qed.

Lemma iter_shr_1 x n mrs e :
  (0 <= shr_m mrs)%Z -> located_rec x mrs e ->
  located_rec x (SpecFloat.iter_pos shr_1 n mrs) (e + Zpos n) /\
  shr_m (SpecFloat.iter_pos shr_1 n mrs) = (shr_m mrs / 2 ^ Zpos n)%Z.
Proof.
  revert mrs e. induction n as [n IH|n IH|]; intros mrs e Hm Hx; simpl SpecFloat.iter_pos.
  - pose proof (shr_1_located _ _ _ Hm Hx) as H1.
    pose proof (shr_1_m _ Hm) as M1.
    assert (0 <= shr_m (shr_1 mrs))%Z as Hm1 by (rewrite M1; apply Z.div_pos; lia).
    destruct (IH _ _ Hm1 H1) as [H2 M2].
    assert (0 <= shr_m (SpecFloat.iter_pos shr_1 n (shr_1 mrs)))%Z as Hm2
      by (rewrite M2; apply Z.div_pos; lia).
    destruct (IH _ _ Hm2 H2) as [H3 M3].
    split.
    + replace (e + Z.pos n~1)%Z with (e + 1 + Z.pos n + Z.pos n)%Z by lia. done.
    + rewrite M3, M2, M1, !Z.div_div by lia. f_equal.
      rewrite Pos2Z.inj_xI, <- Z.pow_add_r by lia.
      replace (2 * Z.pos n + 1)%Z with (Z.succ (Z.pos n + Z.pos n)) by lia.
      by rewrite Z.pow_succ_r by lia.
  - destruct (IH _ _ Hm Hx) as [H2 M2].
    assert (0 <= shr_m (SpecFloat.iter_pos shr_1 n mrs))%Z as Hm2
      by (rewrite M2; apply Z.div_pos; lia).
    destruct (IH _ _ Hm2 H2) as [H3 M3].
    split.
    + replace (e + Z.pos n~0)%Z with (e + Z.pos n + Z.pos n)%Z by lia. done.
    + rewrite M3, M2, !Z.div_div by lia. f_equal.
      rewrite Pos2Z.inj_xO, <- !Z.pow_add_r by lia. f_equal. lia.
  - split; [by apply shr_1_located|]. rewrite shr_1_m by done. done.
Qed.


(** Binary64: 53 bits of precision, exponents of canonical mantissas between
    -1074 and 971. *)
Definition fexp64 (e : Z) : Z := SpecFloat.fexp prec emax e.

Lemma fexp64_eq e : fexp64 e = Z.max (e - 53) (-1074).
Proof. reflexivity. Qed.

Lemma fexp64_mono a b : (a <= b)%Z -> (fexp64 a <= fexp64 b)%Z.
Proof. rewrite !fexp64_eq. lia. Qed.

Lemma Zdigits2_nonneg m : (0 <= Zdigits2 m)%Z.
Proof. destruct m; simpl; lia. Qed.

Lemma Zdigits2_bounds m :
  (0 < m)%Z -> (2 ^ (Zdigits2 m - 1) <= m < 2 ^ Zdigits2 m)%Z.
Proof. destruct m; try lia. intros _. apply digits2_bounds. Qed.

Lemma Zdigits2_ge m k : (0 <= k)%Z -> (2 ^ k <= m)%Z -> (k + 1 <= Zdigits2 m)%Z.
Proof.
  intros Hk Hm. assert (0 < m)%Z by (pose proof (Z.pow_pos_nonneg 2 k); lia).
  destruct (Zdigits2_bounds m) as [_ Hu]; [done|].
  destruct (Z_lt_le_dec k (Zdigits2 m)) as [|Hle]; [lia|].
  pose proof (Z.pow_le_mono_r 2 _ _ ltac:(lia) Hle). lia.
Qed.

Lemma Zdigits2_le m k : (0 <= m < 2 ^ k)%Z -> (0 <= k)%Z -> (Zdigits2 m <= k)%Z.
Proof.
  intros [Hm Hu] Hk. destruct (Z.eq_dec m 0%Z) as [->|]; [simpl; lia|].
  destruct (Zdigits2_bounds m) as [Hl _]; [lia|].
  destruct (Z_lt_le_dec k (Zdigits2 m)) as [Hlt|]; [|lia].
  assert (k <= Zdigits2 m - 1)%Z as Hle by lia.
  pose proof (Z.pow_le_mono_r 2 _ _ ltac:(lia) Hle). lia.
Qed.

(** A canonical, bounded mantissa and exponent: what [valid_binary] says of
    a finite binary64 number. *)
Definition bounded64 (m : positive) (e : Z) : Prop :=
  SpecFloat.bounded prec emax m e = true.

Lemma bounded64_spec m e :
  bounded64 m e ->
  fexp64 (Zpos (digits2_pos m) + e) = e /\ (e <= 971)%Z /\ (-1074 <= e)%Z /\
  (Zpos m < 2 ^ 53)%Z /\ ((-1074 < e)%Z -> (2 ^ 52 <= Zpos m)%Z).
Proof.
  unfold bounded64, SpecFloat.bounded, canonical_mantissa.
  intros H. apply andb_true_iff in H as [H1 H2].
  apply Z.eqb_eq in H1. apply Z.leb_le in H2.
  change (SpecFloat.fexp prec emax) with fexp64 in H1.
  change (emax - prec)%Z with 971%Z in H2.
  pose proof (digits2_bounds m) as [Hl Hu].
  rewrite fexp64_eq in H1.
  repeat split; try lia.
  - by rewrite fexp64_eq.
  - assert (Z.pos (digits2_pos m) <= 53)%Z as Hd by lia.
    pose proof (Z.pow_le_mono_r 2 _ _ ltac:(lia) Hd). lia.
  - intros He. assert (Z.pos (digits2_pos m) = 53)%Z as Hd by lia.
    rewrite Hd in Hl. exact Hl.
Qed.

Lemma F2R_pos m e : (0 < m)%Z -> 0 < F2R m e.
Proof.
  intros Hm. unfold F2R. pose proof (bpow_pos e).
  assert (0 < IZR m) by (by apply IZR_lt). nra.
Qed.

Lemma F2R_le m1 m2 e : (m1 <= m2)%Z -> F2R m1 e <= F2R m2 e.
Proof.
  intros H. unfold F2R. pose proof (bpow_pos e). apply IZR_le in H. nra.
Qed.

Lemma F2R_lt_inv m1 m2 e : F2R m1 e < F2R m2 e -> (m1 < m2)%Z.
Proof.
  unfold F2R. intros H. pose proof (bpow_pos e). apply lt_IZR. nra.
Qed.

Lemma F2R_le_inv m1 m2 e : F2R m1 e <= F2R m2 e -> (m1 <= m2)%Z.
Proof.
  unfold F2R. intros H. pose proof (bpow_pos e). apply le_IZR. nra.
Qed.

Lemma F2R_pow2 k e : (0 <= k)%Z -> F2R (2 ^ k) e = bpow (k + e).
Proof. intros Hk. unfold F2R. by rewrite bpow_add, (bpow_IZR k). Qed.


Lemma shr_fexp_spec x m e l :
  (0 <= m)%Z -> located x m e l ->
  (e <= fexp64 (Zdigits2 m + e))%Z ->
  exists mrs,
    shr_fexp prec emax m e l = (mrs, fexp64 (Zdigits2 m + e)) /\
    located_rec x mrs (fexp64 (Zdigits2 m + e)) /\
    shr_m mrs = (m / 2 ^ (fexp64 (Zdigits2 m + e) - e))%Z.
Proof.
  intros Hm Hx He. unfold shr_fexp, shr.
  change (SpecFloat.fexp prec emax) with fexp64.
  destruct (fexp64 (Zdigits2 m + e) - e)%Z as [|n|n] eqn:En; [| |lia].
  - exists (shr_record_of_loc m l).
    replace (fexp64 (Zdigits2 m + e)) with e by lia.
    split; [done|]. split.
    + unfold located_rec. by rewrite shr_m_record_of_loc, loc_of_record_of_loc.
    + rewrite shr_m_record_of_loc. simpl. by rewrite Z.div_1_r.
  - exists (SpecFloat.iter_pos shr_1 n (shr_record_of_loc m l)).
    replace (fexp64 (Zdigits2 m + e)) with (e + Z.pos n)%Z by lia.
    split; [done|].
    destruct (iter_shr_1 x n (shr_record_of_loc m l) e) as [H1 H2].
    + by rewrite shr_m_record_of_loc.
    + unfold located_rec. by rewrite shr_m_record_of_loc, loc_of_record_of_loc.
    + split; [done|]. by rewrite H2, shr_m_record_of_loc.
Qed.

Lemma round_nearest_even_bounds m l :
  (m <= round_nearest_even m l <= m + 1)%Z /\
  (l = loc_Exact -> round_nearest_even m l = m).
Proof.
  destruct l as [|[]]; simpl; try (split; [lia|done]).
  destruct (Z.even m); split; try lia; done.
Qed.

(** When the target exponent is above the smallest one, the shifted
    mantissa has all 53 bits. *)
Lemma shifted_normal m e :
  (0 <= m)%Z -> (e <= fexp64 (Zdigits2 m + e))%Z ->
  (-1074 < fexp64 (Zdigits2 m + e))%Z ->
  (2 ^ 52 <= m / 2 ^ (fexp64 (Zdigits2 m + e) - e))%Z.
Proof.
  intros Hm He HE. rewrite fexp64_eq in *.
  destruct (Z.eq_dec m 0%Z) as [->|Hne]; [simpl in *; lia|].
  destruct (Zdigits2_bounds m) as [Hl _]; [lia|].
  replace (Z.max (Zdigits2 m + e - 53) (-1074) - e)%Z with (Zdigits2 m - 53)%Z by lia.
  assert (53 <= Zdigits2 m)%Z by lia.
  replace (2 ^ 52)%Z with (2 ^ (Zdigits2 m - 1) / 2 ^ (Zdigits2 m - 53))%Z.
  - apply Z.div_le_mono; [|done]. apply Z.pow_pos_nonneg; lia.
  - rewrite <- Z.pow_sub_r by lia. f_equal. lia.
Qed.

Lemma floor_ge x m e m' mg eg :
  (0 <= m)%Z -> (e <= fexp64 (Zdigits2 m + e))%Z ->
  m' = (m / 2 ^ (fexp64 (Zdigits2 m + e) - e))%Z ->
  x < F2R (m' + 1) (fexp64 (Zdigits2 m + e)) ->
  bounded64 mg eg -> F2R (Zpos mg) eg <= x ->
  F2R (Zpos mg) eg <= F2R m' (fexp64 (Zdigits2 m + e)).
Proof.
  intros Hm He -> Hx Hg Hgx.
  destruct (bounded64_spec _ _ Hg) as (Hc & Hmax & Hmin & Hlt & _).
  set (E := fexp64 (Zdigits2 m + e)) in *.
  destruct (Z_le_gt_dec E eg) as [Hle|Hgt].
  - rewrite (F2R_shift (Zpos mg) eg (eg - E)) in * by lia.
    replace (eg - (eg - E))%Z with E in * by lia.
    apply F2R_le. assert (Z.pos mg * 2 ^ (eg - E) < m / 2 ^ (E - e) + 1)%Z; [|lia].
    apply (F2R_lt_inv _ _ E). lra.
  - pose proof (shifted_normal m e Hm He ltac:(fold E; lia)) as Hn. fold E in Hn.
    apply Rle_trans with (F2R (2 ^ 52) E); [|by apply F2R_le].
    apply Rle_trans with (F2R (2 ^ 53) eg); [apply F2R_le; lia|].
    rewrite !F2R_pow2 by lia. apply bpow_le. lia.
Qed.

Lemma round_le x m e m' l' mf ef :
  (0 <= m)%Z -> F2R m e <= x -> (e <= fexp64 (Zdigits2 m + e))%Z ->
  located x m' (fexp64 (Zdigits2 m + e)) l' ->
  bounded64 mf ef -> x <= F2R (Zpos mf) ef ->
  F2R (round_nearest_even m' l') (fexp64 (Zdigits2 m + e)) <= F2R (Zpos mf) ef.
Proof.
  intros Hm Hmx He [Hx Hl] Hf Hxf.
  destruct (bounded64_spec _ _ Hf) as (Hc & Hmax & Hmin & Hlt & _).
  destruct (round_nearest_even_bounds m' l') as [Hr Hre].
  set (E := fexp64 (Zdigits2 m + e)) in *.
  destruct (Z_le_gt_dec E ef) as [Hle|Hgt].
  - rewrite (F2R_shift (Zpos mf) ef (ef - E)) in * by lia.
    replace (ef - (ef - E))%Z with E in * by lia.
    apply F2R_le.
    assert (m' <= Z.pos mf * 2 ^ (ef - E))%Z as HK
      by (apply (F2R_le_inv _ _ E); lra).
    destruct (Z.eq_dec m' (Z.pos mf * 2 ^ (ef - E))%Z) as [Heq|Hne]; [|lia].
    rewrite Hre; [lia|]. apply Hl. rewrite <- Heq in Hxf. lra.
  - exfalso. unfold E in Hgt, He. rewrite fexp64_eq in Hgt, He, Hc.
    destruct (Z.eq_dec m 0%Z) as [->|Hne]; [simpl in *; lia|].
    destruct (Zdigits2_bounds m) as [Hl' _]; [lia|].
    pose proof (digits2_bounds mf) as [_ Hu].
    assert (F2R (Zpos mf) ef < F2R (2 ^ Z.pos (digits2_pos mf)) ef) as H1.
    { unfold F2R. pose proof (bpow_pos ef). apply IZR_lt in Hu. nra. }
    assert (F2R (2 ^ (Zdigits2 m - 1)) e <= F2R m e) as H2 by (by apply F2R_le).
    rewrite F2R_pow2 in H1 by lia.
    rewrite F2R_pow2 in H2 by (pose proof (Zdigits2_nonneg m); lia).
    assert (bpow (Z.pos (digits2_pos mf) + ef) <= bpow (Zdigits2 m - 1 + e))
      by (apply bpow_le; lia).
    lra.
Qed.


Lemma located_exact m e : located (F2R m e) m e loc_Exact.
Proof.
  unfold located. split; [|done]. split; [lra|].
  unfold F2R. rewrite plus_IZR. pose proof (bpow_pos e). nra.
Qed.

(** The second shift of [binary_round_aux] never goes to a smaller
    exponent. *)
Lemma second_shift_ok m e r :
  (0 <= m)%Z -> (e <= fexp64 (Zdigits2 m + e))%Z ->
  (m / 2 ^ (fexp64 (Zdigits2 m + e) - e) <= r)%Z ->
  (fexp64 (Zdigits2 m + e) <= fexp64 (Zdigits2 r + fexp64 (Zdigits2 m + e)))%Z.
Proof.
  intros Hm He Hr.
  destruct (Z_le_gt_dec (fexp64 (Zdigits2 m + e)) (-1074)) as [Hle|Hgt].
  - set (E := fexp64 (Zdigits2 m + e)) in *.
    rewrite (fexp64_eq (Zdigits2 r + E)). lia.
  - pose proof (shifted_normal m e Hm He ltac:(lia)) as Hn.
    set (E := fexp64 (Zdigits2 m + e)) in *.
    pose proof (Zdigits2_ge r 52 ltac:(lia) ltac:(lia)).
    rewrite (fexp64_eq (Zdigits2 r + E)). lia.
Qed.

Section RoundAux.
Variables (sx : bool) (mx ex : Z) (lx : location) (x : R).
Hypothesis mx_nonneg : (0 <= mx)%Z.
Hypothesis x_located : located x mx ex lx.
Hypothesis ex_small : (ex <= fexp64 (Zdigits2 mx + ex))%Z.

Lemma binary_round_aux_le mf ef :
  bounded64 mf ef -> x <= F2R (Zpos mf) ef ->
  match binary_round_aux prec emax sx mx ex lx with
  | S754_zero s => s = sx
  | S754_finite s m e => s = sx /\ F2R (Zpos m) e <= F2R (Zpos mf) ef
  | _ => False
  end.
Proof using mx_nonneg x_located ex_small.
  intros Hf Hxf. unfold binary_round_aux.
  destruct (shr_fexp_spec x mx ex lx mx_nonneg x_located ex_small)
    as (mrs' & -> & Hloc & Hm').
  set (E := fexp64 (Zdigits2 mx + ex)) in *.
  set (r := round_nearest_even (shr_m mrs') (loc_of_shr_record mrs')).
  assert (F2R r E <= F2R (Zpos mf) ef) as Hr.
  { apply (round_le x mx ex); try done. apply x_located. }
  destruct (round_nearest_even_bounds (shr_m mrs') (loc_of_shr_record mrs'))
    as [Hrb _]. fold r in Hrb.
  assert (0 <= shr_m mrs')%Z as Hm'0 by (rewrite Hm'; apply Z.div_pos; lia).
  assert (E <= fexp64 (Zdigits2 r + E))%Z as He2
    by (apply second_shift_ok; try done; fold E; lia).
  destruct (shr_fexp_spec (F2R r E) r E loc_Exact ltac:(lia) (located_exact r E) He2)
    as (mrs'' & -> & Hloc2 & Hm'').
  destruct Hloc2 as [[Hlow _] _].
  assert (0 <= shr_m mrs'')%Z as Hm''0 by (rewrite Hm''; apply Z.div_pos; lia).
  destruct (shr_m mrs'') as [|p|p] eqn:Ep; [done| |lia].
  assert (fexp64 (Zdigits2 r + E) <= 971)%Z as Hov.
  { destruct (bounded64_spec _ _ Hf) as (Hc & Hmax & _).
    apply Z.le_trans with ef; [|done]. rewrite <- Hc. apply fexp64_mono.
    assert (0 < r)%Z as Hr0.
    { destruct (Z.eq_dec r 0%Z) as [Hz|]; [|lia]. clearbody r. subst r.
      rewrite Z.div_0_l in Hm'' by (apply Z.pow_nonzero; lia). lia. }
    destruct (Zdigits2_bounds r Hr0) as [Hl _].
    pose proof (digits2_bounds mf) as [_ Hu].
    assert (F2R (2 ^ (Zdigits2 r - 1)) E <= F2R r E) as H1 by (by apply F2R_le).
    assert (F2R (Zpos mf) ef < F2R (2 ^ Z.pos (digits2_pos mf)) ef) as H2.
    { unfold F2R. pose proof (bpow_pos ef). apply IZR_lt in Hu. nra. }
    pose proof (Zdigits2_ge r 0 ltac:(lia) ltac:(simpl; lia)).
    rewrite F2R_pow2 in H1, H2 by lia.
    destruct (Z_lt_le_dec (Zdigits2 r - 1 + E) (Z.pos (digits2_pos mf) + ef)); [lia|].
    assert (bpow (Z.pos (digits2_pos mf) + ef) <= bpow (Zdigits2 r - 1 + E))
      by (by apply bpow_le).
    lra. }
  change (emax - prec)%Z with 971%Z.
  destruct (Z.leb_spec (fexp64 (Zdigits2 r + E)) 971); [|lia].
  split; [done|]. lra.
Qed.

Lemma binary_round_aux_ge mg eg :
  bounded64 mg eg -> F2R (Zpos mg) eg <= x ->
  match binary_round_aux prec emax sx mx ex lx with
  | S754_infinity s => s = sx
  | S754_finite s m e => s = sx /\ F2R (Zpos mg) eg <= F2R (Zpos m) e
  | _ => False
  end.
Proof using mx_nonneg x_located ex_small.
  intros Hg Hgx. unfold binary_round_aux.
  destruct (shr_fexp_spec x mx ex lx mx_nonneg x_located ex_small)
    as (mrs' & -> & Hloc & Hm').
  set (E := fexp64 (Zdigits2 mx + ex)) in *.
  set (r := round_nearest_even (shr_m mrs') (loc_of_shr_record mrs')).
  destruct (round_nearest_even_bounds (shr_m mrs') (loc_of_shr_record mrs'))
    as [Hrb _]. fold r in Hrb.
  assert (0 <= shr_m mrs')%Z as Hm'0 by (rewrite Hm'; apply Z.div_pos; lia).
  assert (F2R (Zpos mg) eg <= F2R (shr_m mrs') E) as H1.
  { apply (floor_ge x mx ex); try done. apply Hloc. }
  assert (F2R (Zpos mg) eg <= F2R r E) as H2.
  { apply Rle_trans with (F2R (shr_m mrs') E); [done|]. apply F2R_le. lia. }
  assert (E <= fexp64 (Zdigits2 r + E))%Z as He2
    by (apply second_shift_ok; try done; fold E; lia).
  destruct (shr_fexp_spec (F2R r E) r E loc_Exact ltac:(lia) (located_exact r E) He2)
    as (mrs'' & -> & Hloc2 & Hm'').
  assert (F2R (Zpos mg) eg <= F2R (shr_m mrs'') (fexp64 (Zdigits2 r + E))) as H3.
  { apply (floor_ge (F2R r E) r E); try done; [lia|]. apply Hloc2. }
  pose proof (F2R_pos (Zpos mg) eg ltac:(lia)) as Hgpos.
  destruct (shr_m mrs'') as [|p|p] eqn:Ep.
  - unfold F2R in H3 at 2. lra.
  - by destruct (Z.leb _ _).
  - assert (F2R (Z.neg p) (fexp64 (Zdigits2 r + E)) <= 0); [|lra].
    unfold F2R. pose proof (bpow_pos (fexp64 (Zdigits2 r + E))).
    assert (IZR (Z.neg p) <= 0) by (apply IZR_le; lia). nra.
Qed.
End RoundAux.


Lemma Zdigits2_shift m k :
  (0 < m)%Z -> (0 <= k)%Z -> Zdigits2 (m * 2 ^ k) = (Zdigits2 m + k)%Z.
Proof.
  intros Hm Hk. destruct (Zdigits2_bounds m Hm) as [Hl Hu].
  pose proof (Zdigits2_ge m 0 ltac:(lia) ltac:(simpl; lia)) as Hd.
  pose proof (Z.pow_pos_nonneg 2 k ltac:(lia) Hk) as Hp.
  apply Z.le_antisymm.
  - apply Zdigits2_le; [|lia]. rewrite Z.pow_add_r by lia. nia.
  - replace (Zdigits2 m + k)%Z with ((Zdigits2 m - 1 + k) + 1)%Z by lia.
    apply Zdigits2_ge; [lia|]. rewrite Z.pow_add_r by lia. nia.
Qed.

Lemma shl_align_spec mx ex ex' :
  exists k, (0 <= k)%Z /\
    shl_align mx ex ex' = (Z.to_pos (Zpos mx * 2 ^ k), (ex - k)%Z) /\
    (k = 0 \/ ex - k = ex')%Z /\ ((ex' <= ex)%Z -> (ex - k = ex')%Z).
Proof.
  unfold shl_align. destruct (ex' - ex)%Z as [|d|d] eqn:Ed.
  - exists 0%Z. rewrite Z.pow_0_r, Z.mul_1_r, Z.sub_0_r. simpl.
    split; [lia|]. split; [done|]. split; [by left|lia].
  - exists 0%Z. rewrite Z.pow_0_r, Z.mul_1_r, Z.sub_0_r. simpl.
    split; [lia|]. split; [done|]. split; [by left|lia].
  - exists (Zpos d). split; [lia|]. split; [|split; [right|]; lia].
    f_equal; [|lia]. change (PosDef.Pos.iter xO mx d) with (shift_pos d mx).
    apply Pos2Z.inj. rewrite shift_pos_correct, Z2Pos.id.
    + rewrite Zpower_pos_nat, Zpower_nat_Z, positive_nat_Z. lia.
    + pose proof (Z.pow_pos_nonneg 2 (Z.pos d)). lia.
Qed.

Section Round.
Variables (sx : bool) (mx : positive) (ex : Z).

Lemma binary_round_pre :
  exists mz ez,
    shl_align mx ex (SpecFloat.fexp prec emax (Z.pos (digits2_pos mx) + ex)) = (mz, ez) /\
    F2R (Zpos mz) ez = F2R (Zpos mx) ex /\
    (ez <= fexp64 (Zdigits2 (Zpos mz) + ez))%Z.
Proof.
  change (SpecFloat.fexp prec emax) with fexp64.
  destruct (shl_align_spec mx ex (fexp64 (Z.pos (digits2_pos mx) + ex)))
    as (k & Hk & -> & Hcase & Hle).
  pose proof (Z.pow_pos_nonneg 2 k ltac:(lia) Hk) as Hp.
  eexists _, _. split; [done|].
  rewrite Z2Pos.id by lia. split.
  - symmetry. by apply F2R_shift.
  - rewrite Zdigits2_shift by lia. simpl Zdigits2.
    replace (Z.pos (digits2_pos mx) + k + (ex - k))%Z
      with (Z.pos (digits2_pos mx) + ex)%Z by lia.
    destruct (Z_le_gt_dec (fexp64 (Z.pos (digits2_pos mx) + ex)) ex); lia.
Qed.

Lemma binary_round_le mf ef :
  bounded64 mf ef -> F2R (Zpos mx) ex <= F2R (Zpos mf) ef ->
  match binary_round prec emax sx mx ex with
  | S754_zero s => s = sx
  | S754_finite s m e => s = sx /\ F2R (Zpos m) e <= F2R (Zpos mf) ef
  | _ => False
  end.
Proof.
  intros Hf Hx. unfold binary_round.
  destruct binary_round_pre as (mz & ez & -> & Hv & Hpre).
  apply (binary_round_aux_le sx (Zpos mz) ez loc_Exact (F2R (Zpos mx) ex));
    try done. rewrite <- Hv. apply located_exact.
Qed.

Lemma binary_round_ge mg eg :
  bounded64 mg eg -> F2R (Zpos mg) eg <= F2R (Zpos mx) ex ->
  match binary_round prec emax sx mx ex with
  | S754_infinity s => s = sx
  | S754_finite s m e => s = sx /\ F2R (Zpos mg) eg <= F2R (Zpos m) e
  | _ => False
  end.
Proof.
  intros Hg Hx. unfold binary_round.
  destruct binary_round_pre as (mz & ez & -> & Hv & Hpre).
  apply (binary_round_aux_ge sx (Zpos mz) ez loc_Exact (F2R (Zpos mx) ex));
    try done. rewrite <- Hv. apply located_exact.
Qed.
End Round.


(** The mantissas of two positive numbers at their common exponent. *)
Lemma aligned ma ea mb eb :
  let ez := Z.min ea eb in
  F2R (Zpos (fst (shl_align ma ea ez))) ez = F2R (Zpos ma) ea /\
  F2R (Zpos (fst (shl_align mb eb ez))) ez = F2R (Zpos mb) eb.
Proof.
  intros ez.
  destruct (shl_align_spec ma ea ez) as (ka & Hka & -> & _ & Ha).
  destruct (shl_align_spec mb eb ez) as (kb & Hkb & -> & _ & Hb).
  simpl fst.
  pose proof (Z.pow_pos_nonneg 2 ka ltac:(lia) Hka).
  pose proof (Z.pow_pos_nonneg 2 kb ltac:(lia) Hkb).
  rewrite !Z2Pos.id by lia. specialize (Ha ltac:(lia)). specialize (Hb ltac:(lia)).
  split.
  - rewrite <- Ha. symmetry. by apply F2R_shift.
  - rewrite <- Hb. symmetry. by apply F2R_shift.
Qed.

Lemma F2R_plus m1 m2 e : F2R (m1 + m2) e = F2R m1 e + F2R m2 e.
Proof. unfold F2R. rewrite plus_IZR. lra. Qed.

Lemma F2R_minus m1 m2 e : F2R (m1 - m2) e = F2R m1 e - F2R m2 e.
Proof. unfold F2R. rewrite minus_IZR. lra. Qed.

Lemma SFsub_pos_le ma ea mb eb mf ef :
  F2R (Zpos mb) eb < F2R (Zpos ma) ea ->
  bounded64 mf ef ->
  F2R (Zpos ma) ea - F2R (Zpos mb) eb <= F2R (Zpos mf) ef ->
  match SF64sub (S754_finite false ma ea) (S754_finite false mb eb) with
  | S754_zero s => s = false
  | S754_finite s m e => s = false /\ F2R (Zpos m) e <= F2R (Zpos mf) ef
  | _ => False
  end.
Proof.
  intros Hlt Hf Hle. unfold SF64sub, SFsub, cond_Zopp.
  destruct (aligned ma ea mb eb) as [Ha Hb].
  set (ez := Z.min ea eb) in *.
  set (za := Zpos (fst (shl_align ma ea ez))) in *.
  set (zb := Zpos (fst (shl_align mb eb ez))) in *.
  assert (F2R (za - zb) ez = F2R (Zpos ma) ea - F2R (Zpos mb) eb) as Hv
    by (rewrite F2R_minus; lra).
  assert (0 < za - zb)%Z as Hpos.
  { apply (F2R_lt_inv _ _ ez). rewrite Hv. unfold F2R at 1. lra. }
  destruct (za - zb)%Z as [|p|p] eqn:Ep; try lia.
  unfold binary_normalize. apply binary_round_le; [done|]. lra.
Qed.

Lemma SFadd_pos_ge ma ea mb eb mg eg :
  bounded64 mg eg ->
  F2R (Zpos mg) eg <= F2R (Zpos ma) ea + F2R (Zpos mb) eb ->
  match SF64add (S754_finite false ma ea) (S754_finite false mb eb) with
  | S754_infinity s => s = false
  | S754_finite s m e => s = false /\ F2R (Zpos mg) eg <= F2R (Zpos m) e
  | _ => False
  end.
Proof.
  intros Hg Hle. unfold SF64add, SFadd, cond_Zopp.
  destruct (aligned ma ea mb eb) as [Ha Hb].
  set (ez := Z.min ea eb) in *.
  set (za := Zpos (fst (shl_align ma ea ez))) in *.
  set (zb := Zpos (fst (shl_align mb eb ez))) in *.
  assert (F2R (za + zb) ez = F2R (Zpos ma) ea + F2R (Zpos mb) eb) as Hv
    by (rewrite F2R_plus; lra).
  destruct (za + zb)%Z as [|p|p] eqn:Ep; try (unfold za, zb in Ep; lia).
  unfold binary_normalize. apply binary_round_ge; [done|]. lra.
Qed.

Lemma SFmul_pos_le mx ex my ey mf ef :
  (2 ^ 52 <= Zpos my)%Z ->
  bounded64 mf ef ->
  F2R (Zpos mx) ex * F2R (Zpos my) ey <= F2R (Zpos mf) ef ->
  match SF64mul (S754_finite false mx ex) (S754_finite false my ey) with
  | S754_zero s => s = false
  | S754_finite s m e => s = false /\ F2R (Zpos m) e <= F2R (Zpos mf) ef
  | _ => False
  end.
Proof.
  intros Hy Hf Hle. unfold SF64mul, SFmul. simpl xorb.
  assert (F2R (Zpos (mx * my)) (ex + ey) = F2R (Zpos mx) ex * F2R (Zpos my) ey) as Hv.
  { unfold F2R. rewrite Pos2Z.inj_mul, mult_IZR, bpow_add. lra. }
  apply (binary_round_aux_le false (Zpos (mx * my)) (ex + ey) loc_Exact
           (F2R (Zpos (mx * my)) (ex + ey))); try done; try lra.
  - apply located_exact.
  - pose proof (Zdigits2_ge (Zpos (mx * my)) 52 ltac:(lia) ltac:(nia)).
    rewrite fexp64_eq. lia.
Qed.


Lemma new_location_exact n k : new_location n k = loc_Exact <-> k = 0%Z.
Proof.
  unfold new_location, new_location_even, new_location_odd.
  destruct (Z.even n); destruct (Z.eqb_spec k 0); split; congruence.
Qed.

Lemma SFdiv_core_spec mx ex my ey :
  exists q e' l,
    SFdiv_core_binary prec emax (Zpos mx) ex (Zpos my) ey = (q, e', l) /\
    (0 <= q)%Z /\
    located (F2R (Zpos mx) ex / F2R (Zpos my) ey) q e' l /\
    (e' <= fexp64 (Zdigits2 q + e'))%Z.
Proof.
  unfold SFdiv_core_binary. change (SpecFloat.fexp prec emax) with fexp64.
  set (d1 := Zdigits2 (Z.pos mx)). set (d2 := Zdigits2 (Z.pos my)).
  set (e' := Z.min (fexp64 (d1 + ex - (d2 + ey))) (ex - ey)).
  set (s := (ex - ey - e')%Z).
  assert (0 <= s)%Z as Hs by (unfold s, e'; lia).
  set (m' := match s with
             | 0%Z => Z.pos mx
             | Z.pos _ => Z.shiftl (Z.pos mx) s
             | Z.neg _ => 0%Z
             end).
  assert (m' = Z.pos mx * 2 ^ s)%Z as Hm'.
  { unfold m'. destruct s as [|p|p] eqn:Es; [simpl; lia| |lia].
    by rewrite Z.shiftl_mul_pow2. }
  clearbody m'.
  pose proof (Z.pow_pos_nonneg 2 s ltac:(lia) Hs) as Hps.
  pose proof (Z_div_mod m' (Zpos my) ltac:(lia)) as Hdm.
  destruct (Z.div_eucl m' (Z.pos my)) as [q r]. destruct Hdm as [Hq Hr].
  assert (0 <= q)%Z as Hq0 by nia.
  exists q, e', (new_location (Z.pos my) r). split; [done|]. split; [done|].
  pose proof (bpow_pos ey) as Bey. pose proof (bpow_pos e') as Be'.
  assert (0 < IZR (Z.pos my)) as Hmy by (apply IZR_lt; lia).
  assert (F2R (Z.pos mx) ex / F2R (Z.pos my) ey =
          (IZR q + IZR r / IZR (Z.pos my)) * bpow e') as HX.
  { rewrite (F2R_shift (Z.pos mx) ex s Hs), <- Hm'.
    replace (ex - s)%Z with (ey + e')%Z by (unfold s; lia).
    unfold F2R. rewrite bpow_add, Hq, plus_IZR, mult_IZR. field. lra. }
  assert (0 <= IZR r / IZR (Z.pos my) < 1) as Hfrac.
  { assert (0 <= IZR r) by (apply IZR_le; lia).
    assert (IZR r < IZR (Z.pos my)) by (apply IZR_lt; lia).
    split.
    - apply Rmult_le_pos; [done|]. left. by apply Rinv_0_lt_compat.
    - apply (Rmult_lt_reg_r (IZR (Z.pos my))); [done|].
      unfold Rdiv. rewrite Rmult_assoc, Rinv_l by lra. lra. }
  split.
  - rewrite HX. unfold located, F2R. rewrite plus_IZR. split; [nra|].
    rewrite new_location_exact. split.
    + intros ->. unfold Rdiv. lra.
    + intros H. assert (IZR r / IZR (Z.pos my) = 0) as H0 by nra.
      unfold Rdiv in H0. apply Rmult_integral in H0 as [H0|H0].
      * by apply eq_IZR in H0.
      * pose proof (Rinv_0_lt_compat _ Hmy). lra.
  - apply Z.le_trans with (fexp64 (d1 + ex - (d2 + ey))); [unfold e'; lia|].
    apply fexp64_mono.
    replace (d1 + ex - (d2 + ey))%Z with ((d1 + s - d2) + e')%Z by (unfold s; lia).
    apply Z.add_le_mono_r.
    destruct (Z_le_gt_dec (d1 + s - d2) 0) as [|Hk];
      [pose proof (Zdigits2_nonneg q); lia|].
    replace (d1 + s - d2)%Z with ((d1 + s - d2 - 1) + 1)%Z by lia.
    apply Zdigits2_ge; [lia|].
    destruct (Zdigits2_bounds (Z.pos mx) ltac:(lia)) as [Hl1 _].
    destruct (Zdigits2_bounds (Z.pos my) ltac:(lia)) as [_ Hu2].
    fold d1 in Hl1. fold d2 in Hu2.
    assert (1 <= d1)%Z by (pose proof (Zdigits2_ge (Z.pos mx) 0 ltac:(lia) ltac:(simpl; lia)); lia).
    assert (1 <= d2)%Z by (pose proof (Zdigits2_ge (Z.pos my) 0 ltac:(lia) ltac:(simpl; lia)); lia).
    assert (2 ^ (d1 + s - d2 - 1) * 2 ^ d2 = 2 ^ (d1 - 1) * 2 ^ s)%Z as Hpow.
    { rewrite <- !Z.pow_add_r by lia. f_equal. lia. }
    pose proof (Z.pow_pos_nonneg 2 (d1 + s - d2 - 1) ltac:(lia) ltac:(lia)).
    nia.
Qed.

Section Div.
Variables (mx : positive) (ex : Z) (my : positive) (ey : Z).

Lemma SFdiv_pos_le mf ef :
  bounded64 mf ef ->
  F2R (Zpos mx) ex / F2R (Zpos my) ey <= F2R (Zpos mf) ef ->
  match SF64div (S754_finite false mx ex) (S754_finite false my ey) with
  | S754_zero s => s = false
  | S754_finite s m e => s = false /\ F2R (Zpos m) e <= F2R (Zpos mf) ef
  | _ => False
  end.
Proof.
  intros Hf Hle. unfold SF64div, SFdiv. simpl xorb.
  destruct (SFdiv_core_spec mx ex my ey) as (q & e' & l & -> & Hq & Hloc & Hpre).
  by apply (binary_round_aux_le false q e' l
              (F2R (Zpos mx) ex / F2R (Zpos my) ey)).
Qed.

Lemma SFdiv_pos_ge mg eg :
  bounded64 mg eg ->
  F2R (Zpos mg) eg <= F2R (Zpos mx) ex / F2R (Zpos my) ey ->
  match SF64div (S754_finite false mx ex) (S754_finite false my ey) with
  | S754_infinity s => s = false
  | S754_finite s m e => s = false /\ F2R (Zpos mg) eg <= F2R (Zpos m) e
  | _ => False
  end.
Proof.
  intros Hg Hle. unfold SF64div, SFdiv. simpl xorb.
  destruct (SFdiv_core_spec mx ex my ey) as (q & e' & l & -> & Hq & Hloc & Hpre).
  by apply (binary_round_aux_ge false q e' l
              (F2R (Zpos mx) ex / F2R (Zpos my) ey)).
Qed.
End Div.

End Rounding.

(** *** The spread formula stays within 0 and 200 *)

Module SpreadBounds.
Import NumberFacts Rounding.
Local Open Scope R_scope.

(** The real number that a finite, positive binary64 value stands for. *)
Definition B2R (x : spec_float) : R :=
  match x with
  | S754_finite s m e => if s then - F2R (Zpos m) e else F2R (Zpos m) e
  | _ => 0
  end.

Lemma Prim2SF_bounded x s m e :
  Prim2SF x = S754_finite s m e -> bounded64 m e.
Proof.
  intros E. pose proof (Prim2SF_valid x) as H. rewrite E in H. exact H.
Qed.

Lemma positive_finite (x : number) :
  isFinite x = true -> (0 <? x)%float = true ->
  exists m e, Prim2SF x = S754_finite false m e /\ bounded64 m e.
Proof.
  intros Hf Hp.
  assert (is_infinity x = false) as Hi.
  { unfold isFinite, is_finite in Hf. destruct (is_nan x), (is_infinity x); done. }
  unfold is_infinity in Hi. rewrite FloatAxioms.eqb_spec, abs_spec in Hi.
  rewrite FloatAxioms.ltb_spec in Hp.
  change (Prim2SF 0) with (S754_zero false) in Hp.
  change (Prim2SF infinity) with (S754_infinity false) in Hi.
  destruct (Prim2SF x) as [s|s| |s m e] eqn:E; try done.
  destruct s; [done|]. exists m, e. split; [done|].
  by apply (Prim2SF_bounded x false).
Qed.

Lemma canonical_lt m1 e1 m2 e2 :
  bounded64 m1 e1 -> bounded64 m2 e2 ->
  lex_lt (1, e1, Zpos m1)%Z (1, e2, Zpos m2)%Z ->
  F2R (Zpos m1) e1 < F2R (Zpos m2) e2.
Proof.
  intros H1 H2 L. unfold lex_lt in L.
  destruct (bounded64_spec _ _ H1) as (_ & _ & Hmin1 & Hlt1 & _).
  destruct (bounded64_spec _ _ H2) as (_ & _ & Hmin2 & Hlt2 & Hn2).
  assert ((e1 < e2) \/ (e1 = e2 /\ Zpos m1 < Zpos m2))%Z as [He|[-> Hm]] by lia.
  - specialize (Hn2 ltac:(lia)).
    apply Rlt_le_trans with (F2R (2 ^ 53) e1).
    + unfold F2R. pose proof (bpow_pos e1). apply IZR_lt in Hlt1. nra.
    + apply Rle_trans with (F2R (2 ^ 52) e2); [|by apply F2R_le].
      rewrite !F2R_pow2 by lia. apply bpow_le. lia.
  - unfold F2R. pose proof (bpow_pos e2). apply IZR_lt in Hm. nra.
Qed.

(** A representable bound [h] between [a - b] and [a] whose half [g] is
    representable too. *)
Lemma half_bound ma ea mb eb :
  bounded64 ma ea -> bounded64 mb eb ->
  F2R (Zpos mb) eb < F2R (Zpos ma) ea ->
  exists mh eh mg eg,
    bounded64 mh eh /\ bounded64 mg eg /\
    F2R (Zpos mg) eg * 2 = F2R (Zpos mh) eh /\
    F2R (Zpos ma) ea - F2R (Zpos mb) eb <= F2R (Zpos mh) eh /\
    F2R (Zpos mh) eh <= F2R (Zpos ma) ea.
Proof.
  intros Ha Hb Hlt.
  destruct (bounded64_spec _ _ Ha) as (Hca & Hmaxa & Hmina & Hlta & Hna).
  destruct (bounded64_spec _ _ Hb) as (_ & _ & Hminb & _ & _).
  pose proof (F2R_pos (Zpos mb) eb ltac:(lia)) as Hbpos.
  assert (forall m e, (Zpos m < 2 ^ 53)%Z -> (-1074 <= e <= 971)%Z ->
            ((-1074 < e)%Z -> (2 ^ 52 <= Zpos m)%Z) -> bounded64 m e) as mk.
  { intros m e Hm He Hn. unfold bounded64, SpecFloat.bounded, canonical_mantissa.
    apply andb_true_iff. split; [|apply Z.leb_le; change (emax - prec)%Z with 971%Z; lia].
    apply Z.eqb_eq. change (SpecFloat.fexp prec emax) with fexp64. rewrite fexp64_eq.
    pose proof (Zdigits2_le (Zpos m) 53 ltac:(lia) ltac:(lia)) as Hd. simpl in Hd.
    destruct (Z_le_gt_dec e (-1074)); [lia|].
    pose proof (Zdigits2_ge (Zpos m) 52 ltac:(lia) (Hn ltac:(lia))) as Hd'.
    simpl in Hd'. lia. }
  destruct (Z_le_gt_dec ea (-1074)) as [Hle|Hgt].
  - assert (ea = -1074)%Z as -> by lia.
    assert (bpow (-1074) <= F2R (Zpos mb) eb) as Hu.
    { apply Rle_trans with (F2R 1 eb); [|apply F2R_le; lia].
      unfold F2R. rewrite Rmult_1_l. by apply bpow_le. }
    destruct ma as [p|p|].
    + (* odd mantissa: h = a - u *)
      exists (p~0)%positive, (-1074)%Z, p, (-1074)%Z.
      split; [apply mk; lia|]. split; [apply mk; lia|].
      assert (IZR (Z.pos p~1) = 2 * IZR (Z.pos p) + 1) as E1
        by (rewrite Pos2Z.inj_xI, plus_IZR, mult_IZR; lra).
      assert (IZR (Z.pos p~0) = 2 * IZR (Z.pos p)) as E0
        by (rewrite Pos2Z.inj_xO, mult_IZR; lra).
      unfold F2R in *. rewrite E1 in *. rewrite E0.
      pose proof (bpow_pos (-1074)). repeat split; lra.
    + exists (p~0)%positive, (-1074)%Z, p, (-1074)%Z.
      split; [done|]. split; [apply mk; lia|].
      assert (IZR (Z.pos p~0) = 2 * IZR (Z.pos p)) as E0
        by (rewrite Pos2Z.inj_xO, mult_IZR; lra).
      unfold F2R in *. rewrite E0 in *. repeat split; lra.
    + exfalso. unfold F2R in Hlt at 2. lra.
  - exists ma, ea, ma, (ea - 1)%Z.
    split; [done|]. split; [apply mk; try lia; intros _; apply Hna; lia|].
    unfold F2R in *. replace ea with ((ea - 1) + 1)%Z at 2 3 4 by lia.
    rewrite bpow_succ. repeat split; lra.
Qed.



(** The constants of the spread formula. *)
Lemma Prim2SF_2 : Prim2SF 2 = S754_finite false 4503599627370496 (-51).
Proof. reflexivity. Qed.

Lemma Prim2SF_100 : Prim2SF 100 = S754_finite false 7036874417766400 (-46).
Proof. reflexivity. Qed.

Lemma Prim2SF_200 : Prim2SF 200 = S754_finite false 7036874417766400 (-45).
Proof. reflexivity. Qed.

Lemma F2R_2 : F2R 4503599627370496 (-51) = 2.
Proof.
  change 4503599627370496%Z with (2 ^ 52)%Z. rewrite F2R_pow2 by lia.
  apply bpow_1.
Qed.

Lemma F2R_100 : F2R 7036874417766400 (-46) = 100.
Proof.
  change 7036874417766400%Z with (100 * 2 ^ 46)%Z.
  transitivity (F2R 100 0); [symmetry; apply (F2R_shift 100 0 46); lia|].
  unfold F2R. rewrite bpow_0. lra.
Qed.

Lemma F2R_200 : F2R 7036874417766400 (-45) = 200.
Proof.
  change 7036874417766400%Z with (100 * 2 ^ 46)%Z.
  transitivity (F2R 100 1); [symmetry; apply (F2R_shift 100 1 46); lia|].
  unfold F2R. rewrite bpow_1. lra.
Qed.

(** A value that is [+0] or a positive finite number at most [c]. *)
Definition at_most (c : R) (x : spec_float) : Prop :=
  match x with
  | S754_zero s => s = false
  | S754_finite s m e => s = false /\ F2R (Zpos m) e <= c
  | _ => False
  end.

(** A value that is [+Infinity] or a positive finite number at least [c]. *)
Definition at_least (c : R) (x : spec_float) : Prop :=
  match x with
  | S754_infinity s => s = false
  | S754_finite s m e => s = false /\ c <= F2R (Zpos m) e
  | _ => False
  end.

Section Formula.
Variables bid ask : number.
Hypothesis bid_finite : isFinite bid = true.
Hypothesis ask_finite : isFinite ask = true.
Hypothesis bid_positive : (0 <? bid)%float = true.
Hypothesis ask_positive : (0 <? ask)%float = true.
Hypothesis bid_le_ask : (bid <=? ask)%float = true.
Hypothesis bid_ne_ask : (bid =? ask)%float = false.

Lemma formula_at_most_200 :
  at_most 200 (Prim2SF (((ask - bid) / ((bid + ask) / 2)) * 100)%float).
Proof using All.
  destruct (positive_finite bid bid_finite bid_positive) as (mb & eb & Eb & Hb).
  destruct (positive_finite ask ask_finite ask_positive) as (ma & ea & Ea & Ha).
  assert (F2R (Zpos mb) eb < F2R (Zpos ma) ea) as Hlt.
  { apply canonical_lt; try done.
    pose proof bid_le_ask as H. apply leb_rk in H as (Nb & Na & [L|E]).
    - unfold rk in L. by rewrite Eb, Ea in L.
    - assert ((bid =? ask)%float = true) by (by apply eqb_rk). congruence. }
  destruct (half_bound ma ea mb eb Ha Hb Hlt)
    as (mh & eh & mg & eg & Hh & Hg & Hgh & Hdh & Hha).
  pose proof (F2R_pos (Zpos mb) eb ltac:(lia)) as Hbpos.
  pose proof (F2R_pos (Zpos mg) eg ltac:(lia)) as Hgpos.
  (* the difference *)
  pose proof (SFsub_pos_le ma ea mb eb mh eh Hlt Hh Hdh) as HD.
  rewrite <- Ea, <- Eb, <- sub_spec in HD.
  (* the sum *)
  pose proof (SFadd_pos_ge mb eb ma ea ma ea Ha ltac:(lra)) as HS.
  rewrite <- Ea, <- Eb, <- add_spec in HS.
  (* the mid price *)
  assert (at_least (F2R (Zpos mg) eg) (Prim2SF ((bid + ask) / 2)%float)) as HM.
  { rewrite div_spec, Prim2SF_2.
    destruct (Prim2SF (bid + ask)%float) as [?|s|?|s ms es]; try done.
    - simpl. by subst s.
    - destruct HS as [-> HS].
      pose proof (SFdiv_pos_ge ms es 4503599627370496 (-51) mg eg Hg) as H.
      rewrite F2R_2 in H. specialize (H ltac:(lra)).
      unfold at_least. by destruct (SF64div _ _). }
  (* the quotient *)
  assert (at_most 2 (Prim2SF ((ask - bid) / ((bid + ask) / 2))%float)) as HQ.
  { rewrite div_spec.
    destruct (Prim2SF (ask - bid)%float) as [sd|?|?|sd md ed]; try done;
      destruct (Prim2SF ((bid + ask) / 2)%float) as [?|sm|?|sm mm em]; try done.
    - simpl in *. by subst.
    - simpl in *. destruct HM as [-> _]. by subst.
    - simpl in *. destruct HD as [-> _]. by subst.
    - destruct HD as [-> HD]. destruct HM as [-> HM].
      pose proof (SFdiv_pos_le md ed mm em 4503599627370496 (-51)
                    (Prim2SF_bounded 2 _ _ _ Prim2SF_2)) as H.
      rewrite F2R_2 in H.
      assert (F2R (Z.pos md) ed / F2R (Z.pos mm) em <= 2) as Hq.
      { pose proof (F2R_pos (Zpos mm) em ltac:(lia)) as Hmpos.
        apply (Rmult_le_reg_r (F2R (Z.pos mm) em)); [done|].
        unfold Rdiv. rewrite Rmult_assoc, Rinv_l by lra. lra. }
      specialize (H Hq). unfold at_most. by destruct (SF64div _ _). }
  (* the percentage *)
  rewrite mul_spec, Prim2SF_100.
  destruct (Prim2SF ((ask - bid) / ((bid + ask) / 2))%float)
    as [sq|?|?|sq mq eq]; try done.
  - simpl in *. by subst.
  - destruct HQ as [-> HQ].
    pose proof (SFmul_pos_le mq eq 7036874417766400 (-46) 7036874417766400 (-45)
                  ltac:(lia) (Prim2SF_bounded 200 _ _ _ Prim2SF_200)) as H.
    rewrite F2R_100, F2R_200 in H. specialize (H ltac:(lra)).
    unfold at_most. by destruct (SF64mul _ _).
Qed.
End Formula.

(** A number that is [+0] or positive and at most 200 is finite and
    compares accordingly. *)
Lemma at_most_200_float (s : number) :
  at_most 200 (Prim2SF s) ->
  isFinite s = true /\ (0 <=? s)%float = true /\ (s <=? 200)%float = true.
Proof.
  intros H.
  assert (isNaN s = false) as Hn
    by (apply isNaN_false; intros E; by rewrite E in H).
  split; [|split].
  - unfold isFinite, is_finite. unfold isNaN in Hn. rewrite Hn. simpl.
    unfold is_infinity. rewrite FloatAxioms.eqb_spec, abs_spec.
    change (Prim2SF infinity) with (S754_infinity false).
    by destruct (Prim2SF s) as [[]|?|?|[] m e].
  - rewrite FloatAxioms.leb_spec. change (Prim2SF 0) with (S754_zero false).
    destruct (Prim2SF s) as [[]|?|?|[] m e]; try done; by destruct H.
  - apply leb_rk. split; [done|]. split; [done|].
    unfold rk. rewrite Prim2SF_200.
    destruct (Prim2SF s) as [[]|?|?|[] m e] eqn:E; try done;
      try (by destruct H); simpl.
    + left. lia.
    + destruct H as [_ H]. rewrite <- F2R_200 in H.
      destruct (lex_cmp_spec (1, e, Z.pos m)%Z (1, -45, 7036874417766400)%Z)
        as [Heq|L|L]; [by right|by left|].
      exfalso.
      pose proof (canonical_lt _ _ _ _ (Prim2SF_bounded 200 _ _ _ Prim2SF_200)
                    (Prim2SF_bounded s _ _ _ E) L). lra.
Qed.

End SpreadBounds.

(** *** The sign of a difference *)

Module SignFacts.
Import NumberFacts Rounding SpreadBounds.
Local Open Scope R_scope.

Lemma canonical_cmp m1 e1 m2 e2 :
  bounded64 m1 e1 -> bounded64 m2 e2 ->
  match lex_cmp (1, e1, Zpos m1)%Z (1, e2, Zpos m2)%Z with
  | Lt => F2R (Zpos m1) e1 < F2R (Zpos m2) e2
  | Eq => F2R (Zpos m1) e1 = F2R (Zpos m2) e2
  | Gt => F2R (Zpos m2) e2 < F2R (Zpos m1) e1
  end.
Proof.
  intros H1 H2.
  destruct (lex_cmp_spec (1, e1, Zpos m1)%Z (1, e2, Zpos m2)%Z) as [E|L|L].
  - by injection E as -> ->.
  - by apply canonical_lt.
  - by apply canonical_lt.
Qed.

(** The rank order of two finite numbers is the order of their values. *)
Lemma rank_cmp_B2R sx mx ex sy my ey :
  bounded64 mx ex -> bounded64 my ey ->
  let x := S754_finite sx mx ex in
  let y := S754_finite sy my ey in
  match lex_cmp (rank x) (rank y) with
  | Lt => B2R x < B2R y
  | Eq => B2R x = B2R y
  | Gt => B2R y < B2R x
  end.
Proof.
  intros Hx Hy x y.
  pose proof (F2R_pos (Zpos mx) ex ltac:(lia)) as Px.
  pose proof (F2R_pos (Zpos my) ey ltac:(lia)) as Py.
  unfold x, y, rank, B2R. destruct sx, sy.
  - destruct (lex_cmp_spec (-1, - ex, - Zpos mx)%Z (-1, - ey, - Zpos my)%Z)
      as [E|L|L].
    + injection E as E1 E2.
      assert (ex = ey) as -> by lia. assert (mx = my) as -> by lia. done.
    + assert (lex_lt (1, ey, Zpos my)%Z (1, ex, Zpos mx)%Z) as L'
        by (unfold lex_lt in *; lia).
      pose proof (canonical_lt _ _ _ _ Hy Hx L'). lra.
    + assert (lex_lt (1, ex, Zpos mx)%Z (1, ey, Zpos my)%Z) as L'
        by (unfold lex_lt in *; lia).
      pose proof (canonical_lt _ _ _ _ Hx Hy L'). lra.
  - simpl. lra.
  - simpl. lra.
  - by apply canonical_cmp.
Qed.

Definition wf (x : spec_float) : Prop :=
  match x with S754_finite _ m e => bounded64 m e | _ => True end.

(** A nonzero integer at an exponent of at least -1074 does not round to
    zero, and keeps its sign. *)
Lemma binary_normalize_cmp m e :
  (-1074 <= e)%Z ->
  lex_cmp (rank (binary_normalize prec emax m e false)) (0, 0, 0)%Z = (m ?= 0)%Z.
Proof.
  intros He.
  assert (bounded64 1 (-1074)) as Hg by reflexivity.
  assert (forall p, F2R 1 (-1074) <= F2R (Zpos p) e) as Hle.
  { intros p. apply Rle_trans with (F2R 1 e); [|apply F2R_le; lia].
    unfold F2R. rewrite !Rmult_1_l. by apply bpow_le. }
  destruct m as [|p|p]; unfold binary_normalize; [done|..].
  - pose proof (binary_round_ge false p e 1 (-1074) Hg (Hle p)) as H.
    destruct (binary_round prec emax false p e) as [?|s|?|s m' e']; try done.
    + by subst s.
    + by destruct H as [-> _].
  - pose proof (binary_round_ge true p e 1 (-1074) Hg (Hle p)) as H.
    destruct (binary_round prec emax true p e) as [?|s|?|s m' e']; try done.
    + by subst s.
    + by destruct H as [-> _].
Qed.

Lemma SFsub_cmp x y :
  wf x -> wf y -> x <> S754_nan -> y <> S754_nan ->
  lex_cmp (rank (SF64sub x y)) (0, 0, 0)%Z = lex_cmp (rank x) (rank y).
Proof.
  intros Wx Wy Nx Ny.
  destruct x as [sx|sx| |sx mx ex], y as [sy|sy| |sy my ey]; try done;
    try (by destruct sx, sy); try (by destruct sx); try (by destruct sy).
  simpl in Wx, Wy.
    destruct (bounded64_spec _ _ Wx) as (_ & _ & Hminx & _ & _).
    destruct (bounded64_spec _ _ Wy) as (_ & _ & Hminy & _ & _).
    unfold SF64sub, SFsub. rewrite binary_normalize_cmp by lia.
    destruct (aligned mx ex my ey) as [Ha Hb].
    set (ez := Z.min ex ey) in *.
    set (za := Zpos (fst (shl_align mx ex ez))) in *.
    set (zb := Zpos (fst (shl_align my ey ez))) in *.
    assert (F2R (cond_Zopp sx za - cond_Zopp sy zb) ez =
            B2R (S754_finite sx mx ex) - B2R (S754_finite sy my ey)) as Hv.
    { rewrite F2R_minus. simpl. unfold cond_Zopp.
      assert (forall z, F2R (- z) ez = - F2R z ez) as Ho
        by (intros z; unfold F2R; rewrite opp_IZR; lra).
      destruct sx, sy; rewrite ?Ho; lra. }
    pose proof (rank_cmp_B2R sx mx ex sy my ey Wx Wy) as Hc. simpl in Hc.
    simpl B2R in Hv. simpl rank.
    pose proof (bpow_pos ez) as Hb0.
    destruct (Z.compare_spec (cond_Zopp sx za - cond_Zopp sy zb) 0) as [E|L|L].
    + rewrite E in Hv. unfold F2R at 1 in Hv. rewrite Rmult_0_l in Hv.
      destruct (lex_cmp _ _); [done|lra..].
    + apply IZR_lt in L. unfold F2R at 1 in Hv.
      assert (IZR (cond_Zopp sx za - cond_Zopp sy zb) * bpow ez < 0) by nra.
      destruct (lex_cmp _ _); [lra|done|lra].
    + apply IZR_lt in L. unfold F2R at 1 in Hv.
      assert (0 < IZR (cond_Zopp sx za - cond_Zopp sy zb) * bpow ez) by nra.
      destruct (lex_cmp _ _); [lra|lra|done].
Qed.
End SignFacts.

(** *** Comparisons of numbers and differences *)

Module OrderFacts.
Import NumberFacts Rounding SpreadBounds SignFacts.
Local Open Scope float_scope.

Lemma Prim2SF_wf (x : number) : wf (Prim2SF x).
Proof.
  destruct (Prim2SF x) as [s|s| |s m e] eqn:E; simpl; try done.
  by apply (Prim2SF_bounded x s).
Qed.

Lemma lex_cmp_antisym p q : lex_cmp p q = CompOpp (lex_cmp q p).
Proof.
  destruct p as [[a b] c], q as [[a' b'] c'].
  destruct (lex_cmp_spec (a, b, c) (a', b', c')) as [E|L|L],
    (lex_cmp_spec (a', b', c') (a, b, c)) as [E'|L'|L'];
    try done; simplify_eq; unfold lex_lt in *; lia.
Qed.

Lemma ltb_cmp x y :
  isNaN x = false -> isNaN y = false ->
  (x <? y) = match lex_cmp (rk x) (rk y) with Lt => true | _ => false end.
Proof.
  intros Hx Hy. rewrite FloatAxioms.ltb_spec. unfold SFltb.
  rewrite SFcompare_rank by (by apply isNaN_false). done.
Qed.

Lemma leb_cmp x y :
  isNaN x = false -> isNaN y = false ->
  (x <=? y) = match lex_cmp (rk x) (rk y) with Gt => false | _ => true end.
Proof.
  intros Hx Hy. rewrite FloatAxioms.leb_spec. unfold SFleb.
  rewrite SFcompare_rank by (by apply isNaN_false).
  by destruct (lex_cmp _ _).
Qed.

(** Comparisons with 0, also for NaN. *)
Lemma gt0_cmp d :
  (0 <? d) = match lex_cmp (rk d) (0, 0, 0)%Z with Gt => true | _ => false end.
Proof.
  rewrite FloatAxioms.ltb_spec. change (Prim2SF 0) with (S754_zero false).
  unfold rk. by destruct (Prim2SF d) as [[]|[]| |[] m e].
Qed.

Lemma lt0_cmp d :
  (d <? 0) = match lex_cmp (rk d) (0, 0, 0)%Z with Lt => true | _ => false end.
Proof.
  rewrite FloatAxioms.ltb_spec. change (Prim2SF 0) with (S754_zero false).
  unfold rk. by destruct (Prim2SF d) as [[]|[]| |[] m e].
Qed.

Lemma eq0_cmp d :
  (d =? 0) = true -> lex_cmp (rk d) (0, 0, 0)%Z = Eq.
Proof.
  rewrite FloatAxioms.eqb_spec. change (Prim2SF 0) with (S754_zero false).
  unfold rk. by destruct (Prim2SF d) as [[]|[]| |[] m e].
Qed.

Lemma opp_cmp d :
  lex_cmp (rk (- d)) (0, 0, 0)%Z = CompOpp (lex_cmp (rk d) (0, 0, 0)%Z).
Proof.
  unfold rk. rewrite opp_spec. by destruct (Prim2SF d) as [[]|[]| |[] m e].
Qed.

(** The sign of a double-precision difference is the order of its
    operands: no difference of two distinct numbers rounds to zero. *)
Lemma sub_cmp a b :
  isNaN a = false -> isNaN b = false ->
  lex_cmp (rk (a - b)) (0, 0, 0)%Z = lex_cmp (rk a) (rk b).
Proof.
  intros Ha Hb. unfold rk. rewrite sub_spec.
  apply SFsub_cmp; try apply Prim2SF_wf; by apply isNaN_false.
Qed.

Lemma sub_gt0 a b :
  isNaN a = false -> isNaN b = false -> (0 <? a - b) = (b <? a).
Proof.
  intros Ha Hb. rewrite gt0_cmp, sub_cmp, (ltb_cmp b a) by done.
  rewrite (lex_cmp_antisym (rk b)). by destruct (lex_cmp (rk a) (rk b)).
Qed.

Lemma sub_lt0 a b :
  isNaN a = false -> isNaN b = false -> (a - b <? 0) = (a <? b).
Proof.
  intros Ha Hb. by rewrite lt0_cmp, sub_cmp, (ltb_cmp a b).
Qed.

(** What [sort] makes of a comparator result [d] that the chain passes
    on when it is not 0, as it is or negated. *)
Lemma chain_asc_after d :
  (0 <? (if negb (d =? 0) then d else 0)) = (0 <? d).
Proof.
  destruct (d =? 0) eqn:E; simpl; [|done].
  apply eq0_cmp in E. by rewrite (gt0_cmp d), E.
Qed.

Lemma chain_desc_after d :
  (0 <? (if negb (d =? 0) then - d else 0)) = (d <? 0).
Proof.
  destruct (d =? 0) eqn:E; simpl.
  - apply eq0_cmp in E. by rewrite (lt0_cmp d), E.
  - rewrite gt0_cmp, lt0_cmp, opp_cmp. by destruct (lex_cmp _ _).
Qed.
End OrderFacts.

(** *** Spreads and ratings *)

Module SpreadRangeFacts.
Import NumberFacts Rounding SpreadBounds SignFacts OrderFacts.
Local Open Scope float_scope.

(** What the guards of the spread functions establish. *)
Lemma guards_priced (bid ask : number) :
  negb (isFinite bid) || negb (isFinite ask) = false ->
  (bid <=? 0) || (ask <=? 0) = false ->
  isFinite bid = true /\ isFinite ask = true /\
  (0 <? bid) = true /\ (0 <? ask) = true.
Proof.
  intros Hf Hp. apply orb_false_iff in Hf as [Hb Ha], Hp as [Pb Pa].
  apply negb_false_iff in Hb, Ha.
  repeat split; try done;
    apply leb_false_ltb; try done; by apply isFinite_not_NaN.
Qed.

Lemma calculateSpread_Some (bid ask : nullish number) (s : number) :
  calculateSpread bid ask = Some s ->
  isFinite s = true /\ (0 <=? s) = true /\ (s <=? 200) = true.
Proof.
  destruct bid as [| |bid], ask as [| |ask]; try done. simpl.
  destruct (negb (isFinite bid) || negb (isFinite ask)) eqn:Hf; [done|].
  destruct ((bid <=? 0) || (ask <=? 0)) eqn:Hp; [done|].
  destruct (guards_priced bid ask Hf Hp) as (Fb & Fa & Pb & Pa).
  destruct (ask <? bid) eqn:Hc; [done|].
  destruct (bid =? ask) eqn:He.
  - intros [= <-]. repeat split; reflexivity.
  - intros [= <-]. apply at_most_200_float.
    apply formula_at_most_200; try done.
    apply ltb_false_leb; try done; by apply isFinite_not_NaN.
Qed.

(** The rating of a spread that [calculateSpread] returned. *)
Lemma classifyRAG_calculateSpread (bid ask : nullish number) :
  let spread := calculateSpread bid ask in
  (classifyRAG spread = red <-> spread = None) /\
  (classifyRAG spread = green <->
     exists s, spread = Some s /\ (s <=? 2) = true) /\
  (classifyRAG spread = amber <->
     exists s, spread = Some s /\ (2 <? s) = true).
Proof.
  simpl. destruct (calculateSpread bid ask) as [s|] eqn:E.
  2: { simpl. repeat split; try done; by intros (? & ? & ?). }
  destruct (calculateSpread_Some _ _ _ E) as (Hf & _ & _).
  pose proof (isFinite_not_NaN _ Hf) as Hn.
  simpl. rewrite Hf. simpl. unfold GREEN_MAX.
  destruct (s <=? 2) eqn:Hle.
  - repeat split; try done.
    + intros _. by exists s.
    + intros (s' & [= <-] & Hlt).
      apply ltb_true_leb_false in Hlt. congruence.
  - repeat split; try done.
    + intros (s' & [= <-] & Hle'). congruence.
    + intros _. exists s. split; [done|].
      by apply leb_false_ltb.
Qed.
End SpreadRangeFacts.

(** C4 (amended). For finite bid and ask with bid > 0, ask > 0 and
    ask >= bid, [calculateSpread] returns a number in the closed interval
    from 0 to 200, never null: 0 exactly when bid = ask, and otherwise the
    double-precision value of ((ask - bid) / ((bid + ask) / 2)) * 100,
    which is finite, at least 0 and at most 200; and
    calculateSpread(bid, bid) = 0 exactly. *)
Theorem calculateSpread_priced (bid ask : number) :
  isFinite bid = true -> isFinite ask = true ->
  (0 <? bid)%float = true -> (0 <? ask)%float = true ->
  (bid <=? ask)%float = true ->
  (exists s : number,
     calculateSpread (Defined bid) (Defined ask) = Some s /\
     s = (if (bid =? ask)%float then 0
          else ((ask - bid) / ((bid + ask) / 2)) * 100)%float /\
     isFinite s = true /\ (0 <=? s)%float = true /\ (s <=? 200)%float = true) /\
  calculateSpread (Defined bid) (Defined bid) = Some 0%float.
Proof.
  intros Fb Fa Pb Pa Hle.
  pose proof (NumberFacts.isFinite_not_NaN _ Fb) as Nb.
  assert (calculateSpread (Defined bid) (Defined ask) =
            Some (if (bid =? ask)%float then 0
                  else ((ask - bid) / ((bid + ask) / 2)) * 100)%float /\
          calculateSpread (Defined bid) (Defined bid) = Some 0%float) as [E E0].
  { unfold calculateSpread. rewrite Fb, Fa. simpl.
    rewrite (NumberFacts.ltb_true_leb_false _ _ Pb),
      (NumberFacts.ltb_true_leb_false _ _ Pa). simpl.
    rewrite (NumberFacts.leb_true_ltb_false _ _ Hle).
    rewrite (NumberFacts.leb_true_ltb_false _ _ (NumberFacts.leb_refl _ Nb)).
    assert ((bid =? bid)%float = true) as -> by (by apply NumberFacts.eqb_rk).
    split; [|done]. by destruct (bid =? ask)%float. }
  split; [|exact E0]. eexists. split; [exact E|]. split; [reflexivity|].
  exact (SpreadRangeFacts.calculateSpread_Some _ _ _ E).
Qed.

Lemma calculateSpread_priced_witness :
  (isFinite 100%float = true /\ isFinite 102%float = true /\
   (0 <? 100)%float = true /\ (0 <? 102)%float = true /\
   (100 <=? 102)%float = true) /\
  (exists s : number,
     calculateSpread (Defined 100%float) (Defined 102%float) = Some s /\
     s = 1.9801980198019802%float /\
     isFinite s = true /\ (0 <=? s)%float = true /\ (s <=? 200)%float = true) /\
  calculateSpread (Defined 100%float) (Defined 100%float) = Some 0%float.
Proof.
  split; [repeat split; reflexivity|].
  exact (calculateSpread_priced 100%float 102%float
           eq_refl eq_refl eq_refl eq_refl eq_refl).
Defined.

(** X1. [calculateSpread] never returns a number outside the interval from 0
    to 200: whatever the bid and the ask, a spread that is not null is a
    finite number, at least 0 and at most 200, also after the rounding of
    each of the four double-precision operations of the formula. *)
Theorem calculateSpread_range (bid ask : nullish number) (s : number) :
  calculateSpread bid ask = Some s ->
  isFinite s = true /\ (0 <=? s)%float = true /\ (s <=? 200)%float = true.
Proof. apply SpreadRangeFacts.calculateSpread_Some. Qed.

Lemma calculateSpread_range_witness :
  let s := ((102 - 100) / ((100 + 102) / 2) * 100)%float in
  calculateSpread (Defined 100%float) (Defined 102%float) = Some s /\
  isFinite s = true /\ (0 <=? s)%float = true /\ (s <=? 200)%float = true.
Proof.
  split; [reflexivity|].
  apply (calculateSpread_range (Defined 100%float) (Defined 102%float)).
  reflexivity.
Defined.

(** X2. Every record that the assembler delivers carries the spread that
    [calculateSpread] gives for its own bid and ask, twice (as [spread]
    and as [spreadPercentage]), and a rating that matches it: red exactly
    when the spread is null, green exactly when it is a number at most 2,
    amber exactly when it is a number above 2. A record with a spread is
    never rated red. *)
Theorem fetchMarkets_rating_matches_spread
    (pairs : list MarketPair) (summaries : list MarketSummary) :
  Forall
    (fun r =>
       spread r = calculateSpread (ofNullable (highestBid r))
                    (ofNullable (lowestAsk r)) /\
       spreadPercentage r = spread r /\
       (ragStatus r = red <-> spread r = None) /\
       (ragStatus r = green <->
          exists s, spread r = Some s /\ (s <=? 2)%float = true) /\
       (ragStatus r = amber <->
          exists s, spread r = Some s /\ (2 <? s)%float = true))
    (fetchMarkets pairs summaries).
Proof.
  unfold fetchMarkets. rewrite SortFacts.sort_Permutation.
  unfold processedMarkets. apply Forall_fmap, Forall_forall.
  intros pair _. simpl. split; [done|]. split; [done|].
  apply SpreadRangeFacts.classifyRAG_calculateSpread.
Qed.

Module QualityFacts.
Import NumberFacts Rounding SpreadBounds SignFacts OrderFacts.
Local Open Scope float_scope.

(** The difference of two finite numbers is a number. *)
Lemma sub_finite_not_NaN (a b : number) :
  isFinite a = true -> isFinite b = true -> isNaN (a - b) = false.
Proof.
  intros Fa Fb. apply isNaN_false. rewrite sub_spec.
  assert (forall x, isFinite x = true ->
            match Prim2SF x with
            | S754_zero _ | S754_finite _ _ _ => True
            | _ => False
            end) as Hfin.
  { intros x Hx. unfold isFinite, is_finite in Hx.
    destruct (is_nan x) eqn:Hn; [done|]. destruct (is_infinity x) eqn:Hi; [done|].
    apply isNaN_false in Hn. unfold is_infinity in Hi.
    rewrite FloatAxioms.eqb_spec, abs_spec in Hi.
    change (Prim2SF infinity) with (S754_infinity false) in Hi.
    by destruct (Prim2SF x) as [?|[]| |? ? ?]. }
  pose proof (Hfin a Fa) as Ha. pose proof (Hfin b Fb) as Hb.
  pose proof (Prim2SF_wf a) as Wa. pose proof (Prim2SF_wf b) as Wb.
  destruct (Prim2SF a) as [sa|?| |sa ma ea], (Prim2SF b) as [sb|?| |sb mb eb];
    try done; try (by destruct sa, sb).
  simpl in Wa, Wb.
  destruct (bounded64_spec _ _ Wa) as (_ & _ & Hmina & _ & _).
  destruct (bounded64_spec _ _ Wb) as (_ & _ & Hminb & _ & _).
  unfold SF64sub, SFsub.
  set (m := (_ - _)%Z). set (ez := Z.min ea eb).
  assert (-1074 <= ez)%Z as He by (unfold ez; lia).
  assert (bounded64 1 (-1074)) as Hg by reflexivity.
  assert (forall p, (F2R 1 (-1074) <= F2R (Zpos p) ez)%R) as Hle.
  { intros p. apply Rle_trans with (F2R 1 ez); [|apply F2R_le; lia].
    unfold F2R. rewrite !Rmult_1_l. by apply bpow_le. }
  destruct m as [|p|p]; unfold binary_normalize; [done|..].
  - pose proof (binary_round_ge false p ez 1 (-1074) Hg (Hle p)) as H.
    by destruct (binary_round prec emax false p ez).
  - pose proof (binary_round_ge true p ez 1 (-1074) Hg (Hle p)) as H.
    by destruct (binary_round prec emax true p ez).
Qed.

Lemma sub_eq0 a b :
  isFinite a = true -> isFinite b = true -> (a - b =? 0) = (a =? b).
Proof.
  intros Fa Fb.
  pose proof (isFinite_not_NaN _ Fa) as Na.
  pose proof (isFinite_not_NaN _ Fb) as Nb.
  pose proof (sub_finite_not_NaN a b Fa Fb) as Nd.
  pose proof (sub_cmp a b Na Nb) as Hc.
  rewrite !FloatAxioms.eqb_spec. unfold SFeqb.
  rewrite !SFcompare_rank by (by apply isNaN_false).
  change (rank (Prim2SF 0)) with (0, 0, 0)%Z.
  fold (rk (a - b)) (rk a) (rk b). by rewrite Hc.
Qed.

(** Comparisons of a number with the thresholds of the two classifiers. *)
Lemma below_2 s : (s <? 2) = true -> (s <=? 2) = true.
Proof. apply ltb_leb. Qed.

Lemma below_half s : (s <? 0.5) = true -> (s <? 2) = true.
Proof.
  rewrite !ltb_rk. intros (Hs & _ & L). do 2 (split; [done|]).
  change (rk 0.5) with (1, -53, 4503599627370496)%Z in L.
  change (rk 2) with (1, -51, 4503599627370496)%Z.
  unfold lex_lt in *. destruct (rk s) as [[??]?]. lia.
Qed.
End QualityFacts.

(** X3. The two classifiers of a spread agree: the quality is unknown exactly
    when the rating is red; a tight or normal spread is rated green; a
    spread rated amber is wide or very wide; and the only spread that is
    rated green without being tight or normal is the threshold 2 itself,
    which is wide. *)
Theorem classifySpreadQuality_agrees_with_classifyRAG (spread : option number) :
  let quality := classifySpreadQuality (ofNullable spread) in
  let rating := classifyRAG spread in
  (quality = unknown <-> rating = red) /\
  (quality = tight \/ quality = normal -> rating = green) /\
  (rating = amber -> quality = wide \/ quality = very_wide) /\
  (rating = green -> quality <> tight -> quality <> normal ->
     quality = wide /\ exists s, spread = Some s /\ (s =? 2)%float = true).
Proof.
  destruct spread as [s|]; simpl; [|by repeat split; try done; intros [?|?]].
  unfold GREEN_MAX. destruct (isFinite s) eqn:Hf; simpl;
    [|by repeat split; try done; intros [?|?]].
  pose proof (NumberFacts.isFinite_not_NaN _ Hf) as Hn.
  destruct (s <? 0.5)%float eqn:H1.
  { pose proof (QualityFacts.below_half _ H1) as H2.
    rewrite (NumberFacts.ltb_leb _ _ H2). repeat split; done. }
  destruct (s <? 2)%float eqn:H2.
  { rewrite (NumberFacts.ltb_leb _ _ H2). repeat split; done. }
  destruct (s <=? 2)%float eqn:H3.
  - assert ((s =? 2)%float = true) as He.
    { apply NumberFacts.eqb_rk. do 2 (split; [done|]).
      apply NumberFacts.leb_rk in H3 as (_ & _ & [L|E]); [|done].
      assert ((s <? 2)%float = true) by (by apply NumberFacts.ltb_rk).
      congruence. }
    assert ((s <? 5)%float = true) as H5.
    { apply NumberFacts.ltb_rk. do 2 (split; [done|]).
      apply NumberFacts.eqb_rk in He as (_ & _ & ->).
      pose proof (NumberFacts.lex_cmp_spec (rk 2%float) (rk 5%float)) as C.
      change (lex_cmp (rk 2%float) (rk 5%float)) with Lt in C. by inversion C. }
    rewrite H5. repeat split; try done; try (by intros [?|?]).
    by exists s.
  - destruct (s <? 5)%float; repeat split; naive_solver.
Qed.

(** X4. The absolute spread is the number [ask - bid] with the sign that the
    order of ask and bid gives it: it is below 0 exactly on a crossed book
    (ask below bid), above 0 exactly when the ask is above the bid, and 0
    exactly when they are equal; it is never NaN. *)
Theorem calculateAbsoluteSpread_sign (bid ask : number) (s : number) :
  calculateAbsoluteSpread (Defined bid) (Defined ask) = Some s ->
  isNaN s = false /\
  (s <? 0)%float = (ask <? bid)%float /\
  (0 <? s)%float = (bid <? ask)%float /\
  (s =? 0)%float = (ask =? bid)%float.
Proof.
  simpl.
  destruct (negb (isFinite bid) || negb (isFinite ask)) eqn:Hf; [done|].
  destruct ((bid <=? 0) || (ask <=? 0))%float; [done|].
  apply orb_false_iff in Hf as [Hb Ha]. apply negb_false_iff in Hb, Ha.
  pose proof (NumberFacts.isFinite_not_NaN _ Hb).
  pose proof (NumberFacts.isFinite_not_NaN _ Ha).
  intros [= <-]. split; [by apply QualityFacts.sub_finite_not_NaN|].
  split; [by apply OrderFacts.sub_lt0|].
  split; [by apply OrderFacts.sub_gt0|].
  by apply QualityFacts.sub_eq0.
Qed.

Lemma calculateAbsoluteSpread_sign_witness :
  calculateAbsoluteSpread (Defined 100%float) (Defined 90%float)
    = Some (-10)%float /\
  (-10 <? 0)%float = (90 <? 100)%float.
Proof.
  split; [reflexivity|].
  exact (proj1 (proj2 (calculateAbsoluteSpread_sign 100%float 90%float (-10)%float
                         eq_refl))).
Defined.

(** *** Sorted results *)

Module SortedFacts.
Import JSArray SortFacts NumberFacts OrderFacts.
Local Open Scope float_scope.

(** Insertion by a comparator that decides a transitive relation [R] on
    the elements satisfying [P] keeps an array sorted by [R]. *)
Section Ordered.
Context {A : Type} (comparefn : A -> A -> number).
Variable R : A -> A -> Prop.
Variable P : A -> Prop.
Hypothesis R_trans : forall x y z, R x y -> R y z -> R x z.
Hypothesis after_R :
  forall x y, P x -> P y -> sortsAfter comparefn x y = true -> R y x.
Hypothesis stays_R :
  forall x y, P x -> P y -> sortsAfter comparefn x y = false -> R x y.

Lemma insert_StronglySorted x l :
  P x -> Forall P l -> StronglySorted R l ->
  StronglySorted R (insert comparefn x l).
Proof using R_trans after_R stays_R.
  intros Hx Hl Hs. induction Hs as [|y l Hs IH Hy]; simpl.
  - repeat constructor.
  - apply Forall_cons in Hl as [Py Pl].
    destruct (sortsAfter comparefn x y) eqn:E.
    + constructor; [by apply IH|].
      rewrite insert_Permutation. constructor; [|done]. by apply after_R.
    + assert (R x y) as Hxy by (by apply stays_R).
      constructor; [by constructor|]. constructor; [done|].
      eapply Forall_impl; [exact Hy|]. intros z Hz. by eapply R_trans.
Qed.

Lemma sort_StronglySorted l :
  Forall P l -> StronglySorted R (sort comparefn l).
Proof using R_trans after_R stays_R.
  induction l as [|x l IH]; simpl; [constructor|].
  intros [Hx Hl]%Forall_cons. apply insert_StronglySorted; try done.
  - by rewrite sort_Permutation.
  - by apply IH.
Qed.
End Ordered.

(** Arrays sorted by the difference of a numeric key. *)
Section NumericKey.
Context {A : Type} (key : A -> number).

Definition keyed (x : A) : Prop := isNaN (key x) = false.
Definition ascending (x y : A) : Prop := (key x <=? key y) = true.
Definition descending (x y : A) : Prop := (key y <=? key x) = true.

Lemma ascending_trans x y z : ascending x y -> ascending y z -> ascending x z.
Proof. apply leb_trans. Qed.

Lemma descending_trans x y z :
  descending x y -> descending y z -> descending x z.
Proof. unfold descending. intros ? ?. by eapply leb_trans. Qed.

Lemma sort_ascending (comparefn : A -> A -> number) l :
  (forall x y, keyed x -> keyed y ->
     sortsAfter comparefn x y = (key y <? key x)) ->
  Forall keyed l -> StronglySorted ascending (sort comparefn l).
Proof.
  intros Hc. apply sort_StronglySorted.
  - apply ascending_trans.
  - intros x y Hx Hy. rewrite Hc by done. apply ltb_leb.
  - intros x y Hx Hy. rewrite Hc by done. by apply ltb_false_leb.
Qed.

Lemma sort_descending (comparefn : A -> A -> number) l :
  (forall x y, keyed x -> keyed y ->
     sortsAfter comparefn x y = (key x <? key y)) ->
  Forall keyed l -> StronglySorted descending (sort comparefn l).
Proof.
  intros Hc. apply sort_StronglySorted.
  - apply descending_trans.
  - intros x y Hx Hy. rewrite Hc by done. apply ltb_leb.
  - intros x y Hx Hy. rewrite Hc by done. by apply ltb_false_leb.
Qed.
End NumericKey.

(** With an empty comparator result the array is left as it is. *)
Lemma sort_never_after {A} (comparefn : A -> A -> number) l :
  (forall x y, sortsAfter comparefn x y = false) -> sort comparefn l = l.
Proof.
  intros H. induction l as [|x l IH]; [done|].
  change (sort comparefn (x :: l)) with (insert comparefn x (sort comparefn l)).
  rewrite IH. destruct l as [|y l]; simpl; [done|]. by rewrite H.
Qed.
End SortedFacts.

(** The fields that [compareByField] compares by the difference of two
    numbers, with the number compared. *)
Definition numericKey (f : SortField) : option (MarketData -> number) :=
  match f with
  | volume_f => Some volume24h
  | price_f => Some lastPrice
  | _ => None
  end.

(** The order of two spreads under the ascending chain, null last, and
    under the descending chain, null first. *)
Definition spreadAscending (a b : MarketData) : Prop :=
  match spread a, spread b with
  | Some x, Some y => (x <=? y)%float = true
  | None, Some _ => False
  | _, None => True
  end.

Definition spreadDescending (a b : MarketData) : Prop :=
  match spread a, spread b with
  | Some x, Some y => (y <=? x)%float = true
  | Some _, None => False
  | None, _ => True
  end.

Definition spreadKeyed (m : MarketData) : Prop :=
  match spread m with Some s => isNaN s = false | None => True end.

Module MarketOrderFacts.
Import JSArray SortFacts NumberFacts OrderFacts SortedFacts.
Local Open Scope float_scope.

Section WithLocale.
Variable localeCompare : string -> string -> number.

Lemma numeric_asc_after f key x y :
  numericKey f = Some key ->
  isNaN (key x) = false -> isNaN (key y) = false ->
  sortsAfter (compareByChain localeCompare [{| field := f; order := asc |}]) x y
  = (key y <? key x).
Proof.
  intros Hk Hx Hy. unfold sortsAfter. simpl.
  destruct f; simplify_eq/=;
    unfold compareByVolume, compareByPrice;
    by rewrite chain_asc_after, sub_gt0.
Qed.

Lemma numeric_desc_after f key x y :
  numericKey f = Some key ->
  isNaN (key x) = false -> isNaN (key y) = false ->
  sortsAfter (compareByChain localeCompare [{| field := f; order := desc |}]) x y
  = (key x <? key y).
Proof.
  intros Hk Hx Hy. unfold sortsAfter. simpl.
  destruct f; simplify_eq/=;
    unfold compareByVolume, compareByPrice;
    by rewrite chain_desc_after, sub_lt0.
Qed.

Lemma sortMarkets_numeric f key markets :
  numericKey f = Some key ->
  Forall (fun m => isNaN (key m) = false) markets ->
  StronglySorted (fun a b => (key a <=? key b) = true)
    (sortMarkets localeCompare [{| field := f; order := asc |}] markets) /\
  StronglySorted (fun a b => (key b <=? key a) = true)
    (sortMarkets localeCompare [{| field := f; order := desc |}] markets).
Proof.
  intros Hk Hn. split.
  - apply (sort_ascending key); [|done].
    intros x y Hx Hy. by apply numeric_asc_after.
  - apply (sort_descending key); [|done].
    intros x y Hx Hy. by apply numeric_desc_after.
Qed.

Lemma spreadAscending_trans x y z :
  spreadAscending x y -> spreadAscending y z -> spreadAscending x z.
Proof.
  unfold spreadAscending.
  destruct (spread x), (spread y), (spread z); try done. apply leb_trans.
Qed.

Lemma spreadDescending_trans x y z :
  spreadDescending x y -> spreadDescending y z -> spreadDescending x z.
Proof.
  unfold spreadDescending.
  destruct (spread x), (spread y), (spread z); try done.
  intros ? ?. by eapply leb_trans.
Qed.

Lemma sortMarkets_spread markets :
  Forall spreadKeyed markets ->
  StronglySorted spreadAscending
    (sortMarkets localeCompare [{| field := spread_f; order := asc |}] markets) /\
  StronglySorted spreadDescending
    (sortMarkets localeCompare [{| field := spread_f; order := desc |}] markets).
Proof.
  intros Hn. split.
  - apply (sort_StronglySorted _ spreadAscending spreadKeyed); try done.
    + apply spreadAscending_trans.
    + intros x y Hx Hy. unfold sortsAfter. simpl. rewrite chain_asc_after.
      unfold compareBySpread, spreadAscending, spreadKeyed in *.
      destruct (spread x), (spread y); try done.
      rewrite sub_gt0 by done. apply ltb_leb.
    + intros x y Hx Hy. unfold sortsAfter. simpl. rewrite chain_asc_after.
      unfold compareBySpread, spreadAscending, spreadKeyed in *.
      destruct (spread x), (spread y); try done.
      rewrite sub_gt0 by done. by apply ltb_false_leb.
  - apply (sort_StronglySorted _ spreadDescending spreadKeyed); try done.
    + apply spreadDescending_trans.
    + intros x y Hx Hy. unfold sortsAfter. simpl. rewrite chain_desc_after.
      unfold compareBySpread, spreadDescending, spreadKeyed in *.
      destruct (spread x), (spread y); try done.
      rewrite sub_lt0 by done. apply ltb_leb.
    + intros x y Hx Hy. unfold sortsAfter. simpl. rewrite chain_desc_after.
      unfold compareBySpread, spreadDescending, spreadKeyed in *.
      destruct (spread x), (spread y); try done.
      rewrite sub_lt0 by done. by apply ltb_false_leb.
Qed.
End WithLocale.

(** The records that the assembler builds have a spread that is a number
    or null, and a volume that is a number when the summaries' are. *)
Lemma processPair_spreadKeyed sm pair : spreadKeyed (processPair sm pair).
Proof.
  unfold spreadKeyed, processPair. simpl.
  destruct (calculateSpread _ _) as [s|] eqn:E; [|done].
  apply SpreadRangeFacts.calculateSpread_Some in E as (Hf & _).
  by apply isFinite_not_NaN.
Qed.

Lemma processPair_volume summaries pair :
  Forall (fun s => isNaN (base_volume s) = false) summaries ->
  isNaN (volume24h (processPair (summaryMap summaries) pair)) = false.
Proof.
  intros Hn. unfold processPair. simpl.
  destruct (summaryMap summaries !! mp_ticker_id pair) as [s|] eqn:E; [|done].
  apply AssemblerFacts.summaryMap_lookup_Some in E as [Hin _].
  rewrite Forall_forall in Hn. by apply Hn.
Qed.

Lemma fetchMarkets_descending pairs summaries :
  Forall (fun s => isNaN (base_volume s) = false) summaries ->
  StronglySorted (fun a b => (volume24h b <=? volume24h a) = true)
    (fetchMarkets pairs summaries).
Proof.
  intros Hn. unfold fetchMarkets.
  apply (sort_descending volume24h).
  - intros x y Hx Hy. unfold sortsAfter. by rewrite sub_gt0.
  - unfold processedMarkets. apply Forall_fmap, Forall_forall.
    intros pair _. by apply processPair_volume.
Qed.
End MarketOrderFacts.

(** Two trading pairs and their summaries, used in the examples. *)
Definition examplePairs : list MarketPair :=
  [ {| mp_ticker_id := "BTC_USDT"; mp_base := "BTC"; mp_target := "USDT" |};
    {| mp_ticker_id := "ETH_USDT"; mp_base := "ETH"; mp_target := "USDT" |} ].

Definition exampleSummaries : list MarketSummary :=
  [ {| ticker_id := "BTC_USDT"; base_currency := "BTC"; target_currency := "USDT";
       last_price := 16605; base_volume := 12; target_volume := 200000;
       bid := Some 16600%float; ask := Some 16610%float;
       high := 17000; low := 16000 |};
    {| ticker_id := "ETH_USDT"; base_currency := "ETH"; target_currency := "USDT";
       last_price := 1200; base_volume := 340; target_volume := 408000;
       bid := Some 1150%float; ask := Some 1250%float;
       high := 1300; low := 1100 |} ]%float.

(** X5. The assembler delivers the records by volume, highest first: when no
    summary has a NaN volume, every record has a volume at least as high
    as every record after it. *)
Theorem fetchMarkets_sorted_by_volume
    (pairs : list MarketPair) (summaries : list MarketSummary) :
  Forall (fun s => isNaN (base_volume s) = false) summaries ->
  StronglySorted (fun a b => (volume24h b <=? volume24h a)%float = true)
    (fetchMarkets pairs summaries).
Proof. apply MarketOrderFacts.fetchMarkets_descending. Qed.

Lemma fetchMarkets_sorted_by_volume_witness :
  Forall (fun s => isNaN (base_volume s) = false) exampleSummaries /\
  StronglySorted (fun a b => (volume24h b <=? volume24h a)%float = true)
    (fetchMarkets examplePairs exampleSummaries) /\
  tickerId <$> fetchMarkets examplePairs exampleSummaries
  = ["ETH_USDT"; "BTC_USDT"]%string.
Proof.
  assert (Forall (fun s => isNaN (base_volume s) = false) exampleSummaries) as H
    by (repeat constructor).
  split; [exact H|]. split; [|reflexivity].
  exact (fetchMarkets_sorted_by_volume examplePairs exampleSummaries H).
Defined.

(** X6. [sortMarkets] never loses, adds or duplicates a record: its result is
    a rearrangement of its input, whatever the chain; and with an empty
    chain it returns the records in the order given. *)
Theorem sortMarkets_rearranges (localeCompare : string -> string -> number)
    (sortConfigs : list SortConfig) (markets : list MarketData) :
  sortMarkets localeCompare sortConfigs markets ≡ₚ markets /\
  length (sortMarkets localeCompare sortConfigs markets) = length markets /\
  sortMarkets localeCompare [] markets = markets.
Proof.
  split; [apply SortFacts.sort_Permutation|].
  split; [apply SortFacts.sort_length|].
  by apply SortedFacts.sort_never_after.
Qed.

(** X7. Sorting by volume or by price alone puts the records in the order of
    that number, smallest first under asc and largest first under desc,
    when no record has NaN there: the sign of the double-precision
    difference that the comparator returns is the order of the two
    numbers, also when they are very close or very large. *)
Theorem sortMarkets_by_number (localeCompare : string -> string -> number)
    (f : SortField) (key : MarketData -> number) (markets : list MarketData) :
  numericKey f = Some key ->
  Forall (fun m => isNaN (key m) = false) markets ->
  StronglySorted (fun a b => (key a <=? key b)%float = true)
    (sortMarkets localeCompare [{| field := f; order := asc |}] markets) /\
  StronglySorted (fun a b => (key b <=? key a)%float = true)
    (sortMarkets localeCompare [{| field := f; order := desc |}] markets).
Proof. apply MarketOrderFacts.sortMarkets_numeric. Qed.

Lemma sortMarkets_by_number_witness :
  let markets := fetchMarkets examplePairs exampleSummaries in
  let byPrice := fun d => [{| field := price_f; order := d |}] in
  (numericKey price_f = Some lastPrice /\
   Forall (fun m => isNaN (lastPrice m) = false) markets) /\
  StronglySorted (fun a b => (lastPrice a <=? lastPrice b)%float = true)
    (sortMarkets (fun _ _ => 0%float) (byPrice asc) markets) /\
  StronglySorted (fun a b => (lastPrice b <=? lastPrice a)%float = true)
    (sortMarkets (fun _ _ => 0%float) (byPrice desc) markets).
Proof.
  simpl.
  assert (Forall (fun m => isNaN (lastPrice m) = false)
            (fetchMarkets examplePairs exampleSummaries)) as H
    by (repeat constructor).
  split; [split; [reflexivity|exact H]|].
  exact (sortMarkets_by_number (fun _ _ => 0%float) price_f lastPrice
           (fetchMarkets examplePairs exampleSummaries) eq_refl H).
Defined.

(** X8. Sorting by spread alone: under asc the spreads are in non-decreasing
    order and the records without a spread come last; under desc the
    records without a spread come first and the spreads follow in
    non-increasing order; provided no spread is NaN. *)
Theorem sortMarkets_by_spread (localeCompare : string -> string -> number)
    (markets : list MarketData) :
  Forall spreadKeyed markets ->
  StronglySorted spreadAscending
    (sortMarkets localeCompare [{| field := spread_f; order := asc |}] markets) /\
  StronglySorted spreadDescending
    (sortMarkets localeCompare [{| field := spread_f; order := desc |}] markets).
Proof. apply MarketOrderFacts.sortMarkets_spread. Qed.

Lemma sortMarkets_by_spread_witness :
  let markets := [mockMarket (Some 3.5%float) amber; mockMarket None red;
                  mockMarket (Some 0.5%float) green] in
  Forall spreadKeyed markets /\
  StronglySorted spreadAscending
    (sortMarkets (fun _ _ => 0%float) [{| field := spread_f; order := asc |}]
       markets) /\
  StronglySorted spreadDescending
    (sortMarkets (fun _ _ => 0%float) [{| field := spread_f; order := desc |}]
       markets).
Proof.
  simpl.
  assert (Forall spreadKeyed
            [mockMarket (Some 3.5%float) amber; mockMarket None red;
             mockMarket (Some 0.5%float) green]) as H
    by (repeat constructor).
  split; [exact H|].
  exact (sortMarkets_by_spread (fun _ _ => 0%float) _ H).
Defined.

(** X9. The records that the assembler delivers can always be sorted by
    spread: their spreads are numbers or null, never NaN, so the spread
    chains order them whatever the pairs and summaries were. *)
Theorem fetchMarkets_sortable_by_spread
    (localeCompare : string -> string -> number)
    (pairs : list MarketPair) (summaries : list MarketSummary) :
  let markets := fetchMarkets pairs summaries in
  StronglySorted spreadAscending
    (sortMarkets localeCompare [{| field := spread_f; order := asc |}] markets) /\
  StronglySorted spreadDescending
    (sortMarkets localeCompare [{| field := spread_f; order := desc |}] markets).
Proof.
  simpl. apply MarketOrderFacts.sortMarkets_spread.
  unfold fetchMarkets. rewrite SortFacts.sort_Permutation.
  unfold processedMarkets. apply Forall_fmap, Forall_forall.
  intros pair _. apply MarketOrderFacts.processPair_spreadKeyed.
Qed.

(** *** The sort chain *)

Module ChainInvariantFacts.
Import JSArray ToggleFacts.

Section Arrays.
Context {A : Type}.
Implicit Types (p : A -> bool) (l : list A).

Lemma findIndex_Some p l i :
  findIndex p l = Some i ->
  exists x, l !! i = Some x /\ p x = true /\
    Forall (fun y => p y = false) (take i l).
Proof.
  revert i. induction l as [|y l IH]; intros i; simpl; [done|].
  destruct (p y) eqn:Hy.
  - intros [= <-]. exists y. by repeat split.
  - destruct (findIndex p l) as [k|]; [|done]. intros [= <-].
    destruct (IH k eq_refl) as (x & Hx & Hp & Hb). exists x.
    repeat split; try done. simpl. by constructor.
Qed.

Lemma findIndex_first p l i x :
  l !! i = Some x -> p x = true ->
  Forall (fun y => p y = false) (take i l) -> findIndex p l = Some i.
Proof.
  revert i. induction l as [|y l IH]; intros i Hi Hx Hb; [done|].
  destruct i as [|i]; simpl in *.
  - injection Hi as ->. by rewrite Hx.
  - apply Forall_cons in Hb as [Hy Hb]. rewrite Hy.
    by rewrite (IH i Hi Hx Hb).
Qed.

Lemma findIndex_None p l :
  findIndex p l = None -> Forall (fun y => p y = false) l.
Proof.
  induction l as [|y l IH]; simpl; [done|].
  destruct (p y) eqn:Hy; [done|].
  destruct (findIndex p l); [done|]. intros _. constructor; [done|by apply IH].
Qed.

(** Filtering out one index removes the element at that index. *)
Lemma filterFrom_delete i0 k l :
  filterFrom i0 (fun _ i => negb (Nat.eqb i k)) l =
  if Nat.ltb k i0 then l else delete (k - i0) l.
Proof.
  revert i0. induction l as [|x l IH]; intros i0; simpl.
  - by destruct (Nat.ltb k i0).
  - rewrite IH. destruct (Nat.ltb_spec k i0) as [Hlt|Hge].
    + replace (i0 =? k) with false by (symmetry; apply Nat.eqb_neq; lia).
      simpl. by replace (k <? S i0) with true by (symmetry; apply Nat.ltb_lt; lia).
    + destruct (Nat.eqb_spec i0 k) as [->|Hne]; simpl.
      * replace (k <? S k) with true by (symmetry; apply Nat.ltb_lt; lia).
        by rewrite Nat.sub_diag.
      * replace (k <? S i0) with false by (symmetry; apply Nat.ltb_ge; lia).
        replace (k - i0) with (S (k - S i0)) by lia. done.
Qed.

Lemma filteri_delete k l :
  filteri (fun _ i => negb (Nat.eqb i k)) l = delete k l.
Proof. unfold filteri. rewrite filterFrom_delete. simpl. by rewrite Nat.sub_0_r. Qed.
End Arrays.

Section Toggle.
Variable defaultSort : SortConfig.
Variable maxSorts : Z.

Notation toggle := (toggleSort defaultSort maxSorts).

(** The three cases of [toggleSort]. *)
Variant toggled (f : SortField) (current : list SortConfig)
  : list SortConfig -> Prop :=
  | toggled_to_asc i :
      current !! i = Some {| field := f; order := desc |} ->
      absent f (take i current) ->
      toggled f current (<[i := {| field := f; order := asc |}]> current)
  | toggled_off i :
      current !! i = Some {| field := f; order := asc |} ->
      absent f (take i current) ->
      toggled f current
        (match delete i current with [] => [defaultSort] | rest => rest end)
  | toggled_on :
      absent f current ->
      toggled f current (kept maxSorts current ++ [{| field := f; order := desc |}]).

Lemma absent_of_findIndex f l :
  Forall (fun c => SortField_eqb (field c) f = false) l -> absent f l.
Proof.
  intros H. eapply Forall_impl; [exact H|]. intros c Hc E. simpl in *.
  apply SortField_eqb_eq in E. congruence.
Qed.

Lemma toggle_cases f current : toggled f current (toggle f current).
Proof.
  unfold toggleSort.
  destruct (findIndex _ current) as [i|] eqn:Hi.
  - apply findIndex_Some in Hi as (c & Hc & Hf & Hb).
    apply SortField_eqb_eq in Hf. apply absent_of_findIndex in Hb.
    rewrite Hc. destruct c as [f' o]. simpl in *. subst f'.
    destruct o.
    + rewrite filteri_delete.
      replace (if Nat.eqb (length (delete i current)) 0
               then [defaultSort] else delete i current)
        with (match delete i current with [] => [defaultSort] | rest => rest end)
        by (by destruct (delete i current)).
      by apply toggled_off.
    + by apply toggled_to_asc.
  - apply findIndex_None, absent_of_findIndex in Hi.
    replace (if (maxSorts <=? Z.of_nat (length current))%Z
             then slice1 current ++ [{| field := f; order := desc |}]
             else current ++ [{| field := f; order := desc |}])
      with (kept maxSorts current ++ [{| field := f; order := desc |}])
      by (unfold kept; by destruct (_ <=? _)%Z).
    by apply toggled_on.
Qed.

Lemma toggle_nonempty f current : toggle f current <> [].
Proof.
  destruct (toggle_cases f current) as [i Hi _|i Hi _|_].
  - intros E. apply (f_equal length) in E. rewrite length_insert in E.
    apply lookup_lt_Some in Hi. simpl in E. lia.
  - by destruct (delete i current).
  - by destruct (kept maxSorts current).
Qed.

Lemma toggle_NoDup f current :
  NoDup (field <$> current) -> NoDup (field <$> toggle f current).
Proof.
  intros Hnd. destruct (toggle_cases f current) as [i Hi _|i Hi _|Ha].
  - rewrite list_fmap_insert. simpl.
    rewrite list_insert_id; [done|]. by rewrite list_lookup_fmap, Hi.
  - destruct (delete i current) as [|c rest] eqn:E.
    + simpl. apply NoDup_singleton.
    + rewrite <- E, list_fmap_delete.
      eapply sublist_NoDup; [exact Hnd|apply sublist_delete].
  - rewrite fmap_app. simpl. apply NoDup_app. split; [|split].
    + unfold kept, slice1. destruct (_ <=? _)%Z; [|done].
      destruct current; [done|]. simpl in *. by apply NoDup_cons in Hnd as [_ ?].
    + intros g Hg Hin. apply list_elem_of_singleton in Hin. subst g.
      apply list_elem_of_fmap in Hg as (c & Hc & Hin).
      pose proof (absent_kept maxSorts f current Ha) as Hk.
      unfold absent in Hk. rewrite Forall_forall in Hk. by apply (Hk c).
    + apply NoDup_singleton.
Qed.

(** Where the entries of the new chain come from. *)
Lemma toggle_entries f current c :
  c ∈ toggle f current ->
  c ∈ current \/ c = defaultSort \/ field c = f.
Proof.
  destruct (toggle_cases f current) as [i Hi _|i Hi _|_]; intros Hc.
  - apply list_elem_of_lookup in Hc as [j Hj].
    destruct (decide (i = j)) as [->|Hne].
    + rewrite list_lookup_insert_eq in Hj by (by eapply lookup_lt_Some).
      injection Hj as <-. by do 2 right.
    + rewrite list_lookup_insert_ne in Hj by done.
      left. by eapply list_elem_of_lookup_2.
  - destruct (delete i current) as [|c' rest] eqn:E.
    + apply list_elem_of_singleton in Hc. right. by left.
    + rewrite <- E in Hc. left.
      eapply elem_of_sublist; [exact Hc|apply sublist_delete].
  - apply elem_of_app in Hc as [Hc|Hc].
    + left. unfold kept, slice1 in Hc. destruct (_ <=? _)%Z; [|done].
      destruct current; [done|]. by right.
    + apply list_elem_of_singleton in Hc. subst c. by do 2 right.
Qed.

Lemma toggleAll_invariants fields current :
  current <> [] -> NoDup (field <$> current) ->
  let chain := toggleAll defaultSort maxSorts fields current in
  chain <> [] /\ NoDup (field <$> chain) /\
  Forall (fun c => c ∈ current \/ c = defaultSort \/ field c ∈ fields) chain.
Proof.
  simpl. revert current.
  induction fields as [|f fields IH]; intros current Hne Hnd; simpl.
  - repeat split; try done. apply Forall_forall. intros c Hc. by left.
  - destruct (IH (toggle f current)) as (H1 & H2 & H3).
    + apply toggle_nonempty.
    + by apply toggle_NoDup.
    + repeat split; try done.
      eapply Forall_impl; [exact H3|]. intros c [Hc|[Hc|Hc]]; simpl.
      * apply toggle_entries in Hc as [?|[?|?]]; [by left|right; by left|].
        do 2 right. subst f. by left.
      * right. by left.
      * do 2 right. by right.
Qed.
End Toggle.
End ChainInvariantFacts.

(** X10. Whatever fields are toggled, in whatever order and with whatever cap,
    the chain reached from the initial chain is never empty, never holds a
    field twice, and holds only the default entry and entries of the
    fields toggled. One call of [toggleSort] keeps a chain free of
    repeated fields, and never returns an empty chain. *)
Theorem toggleSort_chain_invariants (defaultSort : SortConfig) (maxSorts : Z)
    (fields : list SortField) :
  let chain :=
    toggleAll defaultSort maxSorts fields (initialSortConfigs defaultSort) in
  (chain <> [] /\ NoDup (field <$> chain) /\
   Forall (fun c => c = defaultSort \/ field c ∈ fields) chain) /\
  (forall f current, toggleSort defaultSort maxSorts f current <> []) /\
  (forall f current,
     NoDup (field <$> current) ->
     NoDup (field <$> toggleSort defaultSort maxSorts f current)).
Proof.
  simpl. split; [|split].
  - destruct (ChainInvariantFacts.toggleAll_invariants defaultSort maxSorts
                fields (initialSortConfigs defaultSort)) as (H1 & H2 & H3).
    + done.
    + apply NoDup_singleton.
    + repeat split; try done.
      eapply Forall_impl; [exact H3|]. intros c [Hc|[Hc|Hc]]; simpl.
      * apply list_elem_of_singleton in Hc. by left.
      * by left.
      * by right.
  - apply ChainInvariantFacts.toggle_nonempty.
  - apply ChainInvariantFacts.toggle_NoDup.
Qed.

(** X11. A field that is in the chain keeps its place: toggling the field of
    an entry with direction desc changes that entry to asc and nothing
    else; toggling the field of an entry with direction asc removes that
    entry and nothing else, and gives the default chain when it was the
    only one. *)
Theorem toggleSort_in_place (defaultSort : SortConfig) (maxSorts : Z)
    (f : SortField) (current : list SortConfig) (i : nat) (o : SortOrder) :
  current !! i = Some {| field := f; order := o |} ->
  Forall (fun c => field c <> f) (take i current) ->
  toggleSort defaultSort maxSorts f current =
  match o with
  | desc => <[i := {| field := f; order := asc |}]> current
  | asc => match delete i current with [] => [defaultSort] | rest => rest end
  end.
Proof.
  intros Hi Hb.
  assert (JSArray.findIndex (fun c => SortField_eqb (field c) f) current = Some i)
    as Hfind.
  { eapply ChainInvariantFacts.findIndex_first; [exact Hi|by destruct f|].
    by apply ToggleFacts.absent_findIndex. }
  unfold toggleSort. rewrite Hfind, Hi. simpl. destruct o; [|done].
  rewrite ChainInvariantFacts.filteri_delete.
  by destruct (delete i current).
Qed.

Lemma toggleSort_in_place_witness :
  let chain := [{| field := volume_f; order := desc |};
                {| field := spread_f; order := asc |}] in
  (chain !! 0%nat = Some {| field := volume_f; order := desc |} /\
   Forall (fun c => field c <> volume_f) (take 0 chain)) /\
  toggleSort {| field := volume_f; order := desc |} 2 volume_f chain
  = [{| field := volume_f; order := asc |};
     {| field := spread_f; order := asc |}].
Proof.
  simpl. split; [split; [reflexivity|constructor]|].
  exact (toggleSort_in_place {| field := volume_f; order := desc |} 2 volume_f
           [{| field := volume_f; order := desc |};
            {| field := spread_f; order := asc |}] 0 desc eq_refl
           (Forall_nil_2 _)).
Defined.

(** *** Validated payloads *)

Module SchemaFacts.
Import NumberFacts.
Local Open Scope float_scope.

(** A number that a schema with [.nonnegative()] or [.positive()] lets
    through. *)
Definition nonNegative (n : number) : Prop :=
  isNaN n = false /\ (0 <=? n) = true.
Definition strictlyPositive (n : number) : Prop :=
  isNaN n = false /\ (0 <? n) = true.

Lemma zString_Some data s : zString data = Some s <-> data = VString s.
Proof. destruct data; simpl; naive_solver. Qed.

Lemma zStringMin1_Some data s :
  zStringMin1 data = Some s <-> data = VString s /\ s <> EmptyString.
Proof.
  unfold zStringMin1. destruct data as [| | | |s'| |]; simpl; try naive_solver.
  destruct s' as [|c s']; simpl; naive_solver.
Qed.

Lemma zArray_Some {A} (schema : JSValue -> option A) data l :
  zArray schema data = Some l <->
  exists items, data = VArray items /\
    Forall2 (fun item x => schema item = Some x) items l.
Proof.
  destruct data; simpl; try naive_solver.
  rewrite mapM_Some. naive_solver.
Qed.

Section WithNumber.
Variable Number : JSValue -> number.

Lemma zCoerceNumber_Some data n :
  zCoerceNumber Number data = Some n <->
  n = Number data /\ isNaN n = false.
Proof.
  unfold zCoerceNumber, zNumber.
  destruct (isNaN (Number data)) eqn:E.
  - split; [done|]. intros [-> ?]. congruence.
  - split; [by intros [= <-]|]. by intros [-> _].
Qed.

Lemma zCoerceNumberNonnegative_Some data n :
  zCoerceNumberNonnegative Number data = Some n <->
  n = Number data /\ nonNegative n.
Proof.
  unfold zCoerceNumberNonnegative, nonNegative.
  destruct (zCoerceNumber Number data) as [m|] eqn:E; simpl.
  - apply zCoerceNumber_Some in E as [-> Hn]. unfold nonnegative.
    destruct (Number data <? 0) eqn:Hlt.
    + split; [done|]. intros (-> & _ & Hle).
      apply ltb_true_leb_false in Hlt. congruence.
    + split; [intros [= <-]|by intros [-> _]].
      repeat split; try done. by apply ltb_false_leb.
  - split; [done|]. intros (-> & Hn & _).
    assert (zCoerceNumber Number data = Some (Number data)) as E'
      by (by apply zCoerceNumber_Some).
    congruence.
Qed.

Lemma zCoerceNumberPositive_Some data n :
  zCoerceNumberPositive Number data = Some n <->
  n = Number data /\ strictlyPositive n.
Proof.
  unfold zCoerceNumberPositive, strictlyPositive.
  destruct (zCoerceNumber Number data) as [m|] eqn:E; simpl.
  - apply zCoerceNumber_Some in E as [-> Hn]. unfold zPositive.
    destruct (Number data <=? 0) eqn:Hle.
    + split; [done|]. intros (-> & _ & Hlt).
      apply ltb_true_leb_false in Hlt. congruence.
    + split; [intros [= <-]|by intros [-> _]].
      repeat split; try done. by apply leb_false_ltb.
  - split; [done|]. intros (-> & Hn & _).
    assert (zCoerceNumber Number data = Some (Number data)) as E'
      by (by apply zCoerceNumber_Some).
    congruence.
Qed.

Lemma optionalNumber_Some val r :
  optionalNumber Number val = Some r ->
  match r with Some n => nonNegative n | None => True end.
Proof.
  unfold optionalNumber, zNumberNonnegativeNullable.
  destruct (optionalNumberPreprocess Number val) as [| | |m| | |] eqn:E;
    simpl; try done; try (by intros [= <-]).
  destruct (isNaN m) eqn:Hn; simpl; [done|]. unfold nonnegative.
  destruct (m <? 0) eqn:Hlt; simpl; [done|]. intros [= <-].
  split; [done|]. by apply ltb_false_leb.
Qed.

(** The numbers of an item that the summary schema lets through. *)
Definition itemNumbers (item : Raw.MarketSummaryItem) : Prop :=
  nonNegative (Raw.lowest_price_24h item) /\
  nonNegative (Raw.highest_price_24h item) /\
  nonNegative (Raw.base_volume item) /\
  nonNegative (Raw.quote_volume item) /\
  nonNegative (Raw.last_price item) /\
  match Raw.highest_bid item with Some n => nonNegative n | None => True end /\
  match Raw.lowest_ask item with Some n => nonNegative n | None => True end.

Lemma RawMarketSummaryItemSchema_Some data item :
  RawMarketSummaryItemSchema Number data = Some item ->
  itemNumbers item /\ Raw.trading_pairs item <> EmptyString.
Proof.
  destruct data as [| | | | | |props]; simpl; try done.
  destruct (zStringMin1 _) as [tp|] eqn:E0; simpl; [|done].
  destruct (zCoerceNumberNonnegative _ (getProp "lowest_price_24h" props))
    as [n1|] eqn:E1; simpl; [|done].
  destruct (zCoerceNumberNonnegative _ (getProp "highest_price_24h" props))
    as [n2|] eqn:E2; simpl; [|done].
  destruct (optionalNumber _ (getProp "highest_bid" props))
    as [n3|] eqn:E3; simpl; [|done].
  destruct (optionalNumber _ (getProp "lowest_ask" props))
    as [n4|] eqn:E4; simpl; [|done].
  destruct (zCoerceNumberNonnegative _ (getProp "base_volume" props))
    as [n5|] eqn:E5; simpl; [|done].
  destruct (zCoerceNumberNonnegative _ (getProp "quote_volume" props))
    as [n6|] eqn:E6; simpl; [|done].
  destruct (zCoerceNumberNonnegative _ (getProp "last_price" props))
    as [n7|] eqn:E7; simpl; [|done].
  destruct (zCoerceNumberOptional _ _) as [n8|]; simpl; [|done].
  intros [= <-]. unfold itemNumbers. simpl.
  apply zStringMin1_Some in E0 as [_ E0].
  apply zCoerceNumberNonnegative_Some in E1 as [_ E1], E2 as [_ E2],
    E5 as [_ E5], E6 as [_ E6], E7 as [_ E7].
  apply optionalNumber_Some in E3, E4. done.
Qed.

Lemma validateMarketSummary_Returns data summaries :
  validateMarketSummary Number data = Returns summaries ->
  exists props items raw,
    data = VObject props /\ getProp "summary" props = VArray items /\
    Forall2 (fun item r => RawMarketSummaryItemSchema Number item = Some r)
      items raw /\
    summaries = transformSummaryItem <$> raw.
Proof.
  unfold validateMarketSummary.
  destruct (RawMarketSummaryResponseSchema Number data) as [resp|] eqn:E; [|done].
  intros [= <-]. destruct data as [| | | | | |props]; simpl in E; try done.
  destruct (zString _) as [ts|]; simpl in E; [|done].
  destruct (zArray _ _) as [raw|] eqn:Ea; simpl in E; [|done].
  injection E as <-. simpl.
  apply zArray_Some in Ea as (items & Hs & Hf). by exists props, items, raw.
Qed.
End WithNumber.

(** Splitting a string at a separator. *)
Lemma includes_app c a b :
  JSString.includes c (a +:+ b) = JSString.includes c a || JSString.includes c b.
Proof.
  induction a as [|c' a IH]; simpl; [done|].
  destruct (Ascii.eqb c' c); [done|apply IH].
Qed.

Lemma split_without sep s :
  JSString.includes sep s = false -> JSString.split sep s = [s].
Proof.
  induction s as [|c s IH]; simpl; [done|].
  destruct (Ascii.eqb c sep); [done|]. intros H. by rewrite IH.
Qed.

Lemma split_at sep a b :
  JSString.includes sep a = false ->
  JSString.split sep (a +:+ String sep b) = a :: JSString.split sep b.
Proof.
  induction a as [|c a IH]; simpl.
  - by rewrite Ascii.eqb_refl.
  - destruct (Ascii.eqb c sep); [done|]. intros H. by rewrite IH.
Qed.
End SchemaFacts.

(** X12. A payload that [validateMarketSummary] accepts gives one summary per
    item of its [summary] array, in the same order, each with prices and
    volumes that are numbers at least 0 (never NaN, never negative), a bid
    and an ask that are null or such a number, and a ticker made of the
    base and the target currency joined by an underscore. *)
Theorem validateMarketSummary_output (Number : JSValue -> number)
    (data : JSValue) (summaries : list MarketSummary) :
  validateMarketSummary Number data = Returns summaries ->
  (exists props items,
     data = VObject props /\ getProp "summary" props = VArray items /\
     length summaries = length items) /\
  Forall
    (fun s =>
       SchemaFacts.nonNegative (last_price s) /\
       SchemaFacts.nonNegative (base_volume s) /\
       SchemaFacts.nonNegative (target_volume s) /\
       SchemaFacts.nonNegative (high s) /\
       SchemaFacts.nonNegative (low s) /\
       match bid s with Some n => SchemaFacts.nonNegative n | None => True end /\
       match ask s with Some n => SchemaFacts.nonNegative n | None => True end /\
       ticker_id s = base_currency s +:+ "_" +:+ target_currency s)
    summaries.
Proof.
  intros H.
  apply SchemaFacts.validateMarketSummary_Returns in H
    as (props & items & raw & -> & Hs & Hf & ->).
  split.
  - exists props, items. repeat split; try done.
    rewrite length_fmap. symmetry. by eapply Forall2_length.
  - apply Forall_fmap, Forall_forall. intros item Hin.
    apply (Forall2_Forall_r _ (fun r => exists d,
             RawMarketSummaryItemSchema Number d = Some r)) in Hf.
    + rewrite Forall_forall in Hf. destruct (Hf item Hin) as (d & Hd).
      apply SchemaFacts.RawMarketSummaryItemSchema_Some in Hd
        as [(H1 & H2 & H3 & H4 & H5 & H6 & H7) _].
      simpl. repeat split; try done; try apply H1; try apply H2; try apply H3;
        try apply H4; try apply H5.
    + apply Forall_forall. intros d _ r Hr. by exists d.
Qed.

Lemma validateMarketSummary_output_witness :
  exists summaries,
    validateMarketSummary NumberOfDecimal.Number (summaryPayload (VString "5"))
      = Returns summaries /\
    length summaries = 1%nat /\
    Forall (fun s => SchemaFacts.nonNegative (base_volume s)) summaries.
Proof.
  eexists. split; [reflexivity|].
  destruct (validateMarketSummary_output NumberOfDecimal.Number
              (summaryPayload (VString "5")) _ eq_refl) as [_ H].
  split; [reflexivity|].
  eapply Forall_impl; [exact H|]. intros s Hs. apply Hs.
Defined.

(** X13. The ticker of a summary comes from [trading_pairs]: for a base and a
    target joined by a hyphen (neither holding a hyphen), or joined by an
    underscore (neither holding a hyphen or an underscore), the summary
    has that base, that target, and the ticker base_target. *)
Theorem transformSummaryItem_ticker (item : Raw.MarketSummaryItem)
    (base target : string) (separator : ascii) :
  separator = "-"%char \/ separator = "_"%char ->
  Raw.trading_pairs item = base +:+ String separator target ->
  JSString.includes "-" base = false ->
  JSString.includes "-" target = false ->
  (separator = "_"%char ->
   JSString.includes "_" base = false /\ JSString.includes "_" target = false) ->
  ticker_id (transformSummaryItem item) = base +:+ "_" +:+ target /\
  base_currency (transformSummaryItem item) = base /\
  target_currency (transformSummaryItem item) = target.
Proof.
  intros Hsep Htp Hb Ht Hu. unfold transformSummaryItem. simpl. rewrite Htp.
  rewrite SchemaFacts.includes_app. simpl. rewrite Hb, Ht. simpl.
  destruct Hsep as [-> | ->]; simpl.
  - rewrite SchemaFacts.split_at, SchemaFacts.split_without by done. done.
  - destruct (Hu eq_refl) as [Hb' Ht'].
    rewrite SchemaFacts.split_at, SchemaFacts.split_without by done. done.
Qed.

Lemma transformSummaryItem_ticker_witness :
  let item :=
    {| Raw.trading_pairs := "ETH-EURC";
       Raw.lowest_price_24h := 1100; Raw.highest_price_24h := 1300;
       Raw.highest_bid := Some 1150%float; Raw.lowest_ask := Some 1250%float;
       Raw.base_volume := 340; Raw.quote_volume := 408000;
       Raw.last_price := 1200; Raw.price_change_percent_24h := None |}%float in
  ticker_id (transformSummaryItem item) = "ETH_EURC"%string /\
  base_currency (transformSummaryItem item) = "ETH"%string /\
  target_currency (transformSummaryItem item) = "EURC"%string.
Proof.
  intros item.
  refine (transformSummaryItem_ticker item "ETH" "EURC" "-" _ _ _ _ _).
  - by left.
  - reflexivity.
  - reflexivity.
  - reflexivity.
  - discriminate.
Defined.

(** The number fields of a summary item pass their schemas. *)
Definition numbersAccepted (Number : JSValue -> number)
    (props : list (string * JSValue)) : Prop :=
  is_Some (zCoerceNumberNonnegative Number (getProp "lowest_price_24h" props)) /\
  is_Some (zCoerceNumberNonnegative Number (getProp "highest_price_24h" props)) /\
  is_Some (optionalNumber Number (getProp "highest_bid" props)) /\
  is_Some (optionalNumber Number (getProp "lowest_ask" props)) /\
  is_Some (zCoerceNumberNonnegative Number (getProp "base_volume" props)) /\
  is_Some (zCoerceNumberNonnegative Number (getProp "quote_volume" props)) /\
  is_Some (zCoerceNumberNonnegative Number (getProp "last_price" props)) /\
  is_Some (zCoerceNumberOptional Number (getProp "price_change_percent_24h" props)).

(** X14. A [trading_pairs] without hyphen and without underscore is not
    rejected. A payload with a string as [timestamp] and, as [summary], one
    item whose [trading_pairs] is a string that is not empty and holds
    neither separator, and whose number fields pass their schemas, is
    accepted by the item schema and by [validateMarketSummary]: the
    validator returns one summary, with the whole string as base currency,
    an empty target currency, and a ticker that ends in an underscore. *)
Theorem transformSummaryItem_without_separator (Number : JSValue -> number)
    (payload props : list (string * JSValue)) (ts tp : string) :
  getProp "timestamp" payload = VString ts ->
  getProp "summary" payload = VArray [VObject props] ->
  getProp "trading_pairs" props = VString tp ->
  tp <> EmptyString ->
  JSString.includes "-" tp = false ->
  JSString.includes "_" tp = false ->
  numbersAccepted Number props ->
  exists item,
    RawMarketSummaryItemSchema Number (VObject props) = Some item /\
    Raw.trading_pairs item = tp /\
    validateMarketSummary Number (VObject payload)
      = Returns [transformSummaryItem item] /\
    safeValidateMarketSummary Number (VObject payload)
      = Some [transformSummaryItem item] /\
    base_currency (transformSummaryItem item) = tp /\
    target_currency (transformSummaryItem item) = EmptyString /\
    ticker_id (transformSummaryItem item) = tp +:+ "_".
Proof.
  intros Hts Hsum Htp Hne Hh Hu
    ([n1 E1] & [n2 E2] & [n3 E3] & [n4 E4] & [n5 E5] & [n6 E6] & [n7 E7] & [n8 E8]).
  assert (zStringMin1 (getProp "trading_pairs" props) = Some tp) as E0
    by (by apply SchemaFacts.zStringMin1_Some).
  assert (RawMarketSummaryItemSchema Number (VObject props) =
          Some {| Raw.trading_pairs := tp;
                  Raw.lowest_price_24h := n1; Raw.highest_price_24h := n2;
                  Raw.highest_bid := n3; Raw.lowest_ask := n4;
                  Raw.base_volume := n5; Raw.quote_volume := n6;
                  Raw.last_price := n7;
                  Raw.price_change_percent_24h := n8 |}) as Hitem.
  { unfold RawMarketSummaryItemSchema.
    by rewrite E0, E1, E2, E3, E4, E5, E6, E7, E8. }
  eexists. split; [exact Hitem|]. split; [done|].
  assert (validateMarketSummary Number (VObject payload) =
          Returns [transformSummaryItem
                     {| Raw.trading_pairs := tp;
                        Raw.lowest_price_24h := n1; Raw.highest_price_24h := n2;
                        Raw.highest_bid := n3; Raw.lowest_ask := n4;
                        Raw.base_volume := n5; Raw.quote_volume := n6;
                        Raw.last_price := n7;
                        Raw.price_change_percent_24h := n8 |}]) as Hv.
  { unfold validateMarketSummary, RawMarketSummaryResponseSchema.
    rewrite Hts, Hsum. unfold zString. cbn [mbind option_bind].
    erewrite (proj2 (SchemaFacts.zArray_Some _ _ _));
      [|eexists; split; [done|]; repeat constructor; exact Hitem].
    done. }
  split; [exact Hv|].
  split; [unfold safeValidateMarketSummary; by rewrite Hv|].
  unfold transformSummaryItem. simpl. rewrite Hh.
  by rewrite SchemaFacts.split_without.
Qed.

Lemma transformSummaryItem_without_separator_witness :
  let props :=
    [ ("trading_pairs", VString "BTCUSDT");
      ("lowest_price_24h", VString "16000");
      ("highest_price_24h", VString "17000");
      ("highest_bid", VString "16600");
      ("base_volume", VString "12");
      ("quote_volume", VString "200000");
      ("last_price", VString "16605") ]%string in
  let payload :=
    [ ("timestamp", VString "2024-01-01T00:00:00.000Z");
      ("summary", VArray [VObject props]) ]%string in
  exists s,
    validateMarketSummary NumberOfDecimal.Number (VObject payload) = Returns [s] /\
    base_currency s = "BTCUSDT"%string /\
    target_currency s = EmptyString /\
    ticker_id s = "BTCUSDT_"%string /\
    bid s = Some 16600%float /\ ask s = None.
Proof.
  intros props payload.
  destruct (transformSummaryItem_without_separator NumberOfDecimal.Number
              payload props "2024-01-01T00:00:00.000Z" "BTCUSDT")
    as (item & Hitem & _ & Hv & _ & Hb & Ht & Hk);
    [reflexivity|reflexivity|reflexivity|discriminate|reflexivity|reflexivity| |].
  - unfold numbersAccepted. repeat split; vm_compute; eexists; reflexivity.
  - exists (transformSummaryItem item).
    split; [exact Hv|]. split; [exact Hb|]. split; [exact Ht|].
    split; [exact Hk|].
    vm_compute in Hitem. injection Hitem as <-. split; reflexivity.
Defined.

(** The item of a pairs payload that stands for a pair. *)
Definition pairItem (item : JSValue) (pair : MarketPair) : Prop :=
  exists props,
    item = VObject props /\
    getProp "ticker_id" props = VString (mp_ticker_id pair) /\
    getProp "base" props = VString (mp_base pair) /\
    getProp "target" props = VString (mp_target pair) /\
    mp_ticker_id pair <> EmptyString /\
    mp_base pair <> EmptyString /\
    mp_target pair <> EmptyString.

Module PairFacts.
Lemma MarketPairSchema_Some item pair :
  MarketPairSchema item = Some pair <-> pairItem item pair.
Proof.
  unfold pairItem. split.
  - destruct item as [| | | | | |props]; simpl; try done.
    destruct (zStringMin1 (getProp "ticker_id" props)) as [t|] eqn:E1;
      simpl; [|done].
    destruct (zStringMin1 (getProp "base" props)) as [b|] eqn:E2;
      simpl; [|done].
    destruct (zStringMin1 (getProp "target" props)) as [g|] eqn:E3;
      simpl; [|done].
    intros [= <-]. simpl.
    apply SchemaFacts.zStringMin1_Some in E1 as [? ?], E2 as [? ?], E3 as [? ?].
    by exists props.
  - intros (props & -> & H1 & H2 & H3 & N1 & N2 & N3). simpl.
    assert (zStringMin1 (getProp "ticker_id" props) = Some (mp_ticker_id pair))
      as -> by (by apply SchemaFacts.zStringMin1_Some).
    assert (zStringMin1 (getProp "base" props) = Some (mp_base pair))
      as -> by (by apply SchemaFacts.zStringMin1_Some).
    assert (zStringMin1 (getProp "target" props) = Some (mp_target pair))
      as -> by (by apply SchemaFacts.zStringMin1_Some).
    simpl. by destruct pair.
Qed.
End PairFacts.

(** X15. [validateMarketPairs] returns a list of pairs exactly when the payload
    is an array whose items are objects with three non-empty strings
    [ticker_id], [base] and [target]; the pairs are those of the items, one
    per item and in the same order; one item that is not such an object
    makes the whole payload fail. [safeValidateMarketPairs] returns the
    same list, and null exactly when [validateMarketPairs] throws. *)
Theorem validateMarketPairs_spec (data : JSValue) :
  (forall pairs,
     validateMarketPairs data = Returns pairs <->
     exists items, data = VArray items /\ Forall2 pairItem items pairs) /\
  (forall pairs,
     safeValidateMarketPairs data = Some pairs <->
     validateMarketPairs data = Returns pairs) /\
  (safeValidateMarketPairs data = None <-> validateMarketPairs data = Throws).
Proof.
  assert (forall pairs,
            zArray MarketPairSchema data = Some pairs <->
            exists items, data = VArray items /\ Forall2 pairItem items pairs)
    as Hz.
  { intros pairs. rewrite SchemaFacts.zArray_Some.
    split; intros (items & -> & Hf); exists items; (split; [done|]);
      (eapply Forall2_impl; [exact Hf|]); intros item pair;
      apply PairFacts.MarketPairSchema_Some. }
  unfold validateMarketPairs, safeValidateMarketPairs.
  split; [|split].
  - intros pairs. rewrite <- Hz.
    destruct (zArray MarketPairSchema data); naive_solver.
  - intros pairs. destruct (zArray MarketPairSchema data); naive_solver.
  - destruct (zArray MarketPairSchema data); naive_solver.
Qed.

(** An entry of a validated order book: price and quantity above 0. *)
Definition positiveEntry (e : OrderBookEntry) : Prop :=
  SchemaFacts.strictlyPositive (price e) /\
  SchemaFacts.strictlyPositive (quantity e).

Module DepthSchemaFacts.
Section WithNumber.
Variable Number : JSValue -> number.
Variable dateGetTime : string -> number.

Lemma RawOrderBookEntrySchema_Some item e :
  RawOrderBookEntrySchema Number item = Some e -> positiveEntry e.
Proof.
  destruct item as [| | | | | |props]; simpl; try done.
  destruct (zCoerceNumberPositive Number (getProp "price" props))
    as [p|] eqn:E1; simpl; [|done].
  destruct (zCoerceNumberPositive Number (getProp "quantity" props))
    as [q|] eqn:E2; simpl; [|done].
  intros [= <-].
  apply SchemaFacts.zCoerceNumberPositive_Some in E1 as [_ E1], E2 as [_ E2].
  by split.
Qed.

Lemma entries_positive data entries :
  zArray (RawOrderBookEntrySchema Number) data = Some entries ->
  Forall positiveEntry entries.
Proof.
  intros (items & _ & Hf)%SchemaFacts.zArray_Some.
  induction Hf as [|item e items entries He _ IH]; constructor; [|done].
  by eapply RawOrderBookEntrySchema_Some.
Qed.

Lemma validateMarketDepth_Returns data marketId depth :
  validateMarketDepth Number dateGetTime data marketId = Returns depth ->
  exists props ts,
    data = VObject props /\ getProp "timestamp" props = VString ts /\
    zArray (RawOrderBookEntrySchema Number) (getProp "bids" props)
      = Some (bids depth) /\
    zArray (RawOrderBookEntrySchema Number) (getProp "asks" props)
      = Some (asks depth) /\
    depth_ticker_id depth = marketId /\
    depth_timestamp depth = dateGetTime ts.
Proof.
  unfold validateMarketDepth.
  destruct (RawMarketDepthResponseSchema Number data) as [raw|] eqn:E; [|done].
  intros [= <-]. destruct data as [| | | | | |props]; simpl in E; try done.
  destruct (zString (getProp "timestamp" props)) as [ts|] eqn:Et;
    simpl in E; [|done].
  destruct (zArray _ (getProp "bids" props)) as [bs|] eqn:Eb;
    simpl in E; [|done].
  destruct (zArray _ (getProp "asks" props)) as [as_|] eqn:Ea;
    simpl in E; [|done].
  injection E as <-. simpl. apply SchemaFacts.zString_Some in Et.
  by exists props, ts.
Qed.
End WithNumber.
End DepthSchemaFacts.

(** X16. An order book that [validateMarketDepth] returns has the ticker that
    the caller passed (whatever it is, the payload has no say), only
    entries whose price and quantity are numbers above 0, one entry per
    item of the payload's arrays, and the timestamp that the date parser
    makes of the payload's timestamp string, which no schema checks. *)
Theorem validateMarketDepth_output (Number : JSValue -> number)
    (dateGetTime : string -> number)
    (data : JSValue) (marketId : string) (depth : ValidatedMarketDepth) :
  validateMarketDepth Number dateGetTime data marketId = Returns depth ->
  depth_ticker_id depth = marketId /\
  Forall positiveEntry (bids depth) /\
  Forall positiveEntry (asks depth) /\
  (exists props ts bidItems askItems,
     data = VObject props /\
     getProp "timestamp" props = VString ts /\
     depth_timestamp depth = dateGetTime ts /\
     getProp "bids" props = VArray bidItems /\
     getProp "asks" props = VArray askItems /\
     length (bids depth) = length bidItems /\
     length (asks depth) = length askItems) /\
  safeValidateMarketDepth Number dateGetTime data marketId = Some depth.
Proof.
  intros H.
  pose proof (DepthSchemaFacts.validateMarketDepth_Returns _ _ _ _ _ H)
    as (props & ts & -> & Hts & Hb & Ha & Hid & Htime).
  split; [done|].
  split; [by eapply DepthSchemaFacts.entries_positive|].
  split; [by eapply DepthSchemaFacts.entries_positive|].
  split.
  - pose proof Hb as (bidItems & Eb & Fb)%SchemaFacts.zArray_Some.
    pose proof Ha as (askItems & Ea & Fa)%SchemaFacts.zArray_Some.
    exists props, ts, bidItems, askItems. repeat split; try done.
    + symmetry. by eapply Forall2_length.
    + symmetry. by eapply Forall2_length.
  - unfold safeValidateMarketDepth. by rewrite H.
Qed.

(** A depth payload with two bids and one ask. *)
Definition depthPayload : JSValue :=
  VObject
    [ ("timestamp", VString "2024-01-01T00:00:00.000Z");
      ("bids", VArray [ VObject [("price", VString "16600"); ("quantity", VString "5")];
                        VObject [("price", VString "16590"); ("quantity", VString "12")] ]);
      ("asks", VArray [ VObject [("price", VString "16610"); ("quantity", VString "6")] ])
    ]%string.

Lemma validateMarketDepth_output_witness :
  exists depth,
    validateMarketDepth NumberOfDecimal.Number (fun _ => 1704067200000%float)
      depthPayload "BTC_USDT" = Returns depth /\
    depth_ticker_id depth = "BTC_USDT"%string /\
    Forall positiveEntry (bids depth) /\
    Forall positiveEntry (asks depth).
Proof.
  eexists. split; [reflexivity|].
  destruct (validateMarketDepth_output NumberOfDecimal.Number
              (fun _ => 1704067200000%float) depthPayload "BTC_USDT" _ eq_refl)
    as (H1 & H2 & H3 & _).
  split; [exact H1|]. split; [exact H2|exact H3].
Defined.

Module PositiveFacts.
Import NumberFacts Rounding SpreadBounds SignFacts OrderFacts SchemaFacts MathFacts.
Local Open Scope float_scope.

(** A number above 0 is a positive finite number or [+Infinity]. *)
Lemma strictlyPositive_SF x :
  strictlyPositive x <->
  match Prim2SF x with
  | S754_finite false _ _ | S754_infinity false => True
  | _ => False
  end.
Proof.
  unfold strictlyPositive. rewrite isNaN_false, FloatAxioms.ltb_spec.
  change (Prim2SF 0) with (S754_zero false).
  destruct (Prim2SF x) as [[]|[]| |[] m e]; simpl; naive_solver.
Qed.

(** Adding a number above 0 to 0 or to a number above 0 gives a number
    above 0: a double-precision sum of positive numbers is never NaN and
    never rounds down to 0. *)
Lemma add_strictlyPositive acc q :
  acc = 0 \/ strictlyPositive acc -> strictlyPositive q ->
  strictlyPositive (acc + q).
Proof.
  intros Hacc Hq. apply strictlyPositive_SF. rewrite add_spec.
  pose proof (Prim2SF_wf acc) as Wa. pose proof (Prim2SF_wf q) as Wq.
  apply strictlyPositive_SF in Hq.
  assert (match Prim2SF acc with
          | S754_zero false | S754_finite false _ _ | S754_infinity false => True
          | _ => False
          end) as Ha.
  { destruct Hacc as [->|Hacc]; [done|].
    apply strictlyPositive_SF in Hacc.
    by destruct (Prim2SF acc) as [[]|[]| |[] m e]. }
  destruct (Prim2SF acc) as [[]|[]| |[] ma ea], (Prim2SF q) as [[]|[]| |[] mq eq];
    try done.
  simpl in Wa, Wq.
  pose proof (F2R_pos (Zpos mq) eq ltac:(lia)) as Pq.
  pose proof (SFadd_pos_ge ma ea mq eq ma ea Wa ltac:(lra)) as H.
  destruct (SF64add _ _) as [?|s|?|s m e]; try done.
  - by subst s.
  - by destruct H as [-> _].
Qed.

Lemma sum_strictlyPositive acc l :
  acc = 0 \/ strictlyPositive acc -> Forall strictlyPositive l -> l <> [] ->
  strictlyPositive (foldl add acc l).
Proof.
  intros Hacc Hl. revert acc Hacc.
  induction Hl as [|q l Hq Hl IH]; intros acc Hacc Hne; [done|]. simpl.
  pose proof (add_strictlyPositive acc q Hacc Hq) as Hs.
  destruct l as [|q' l]; [done|]. apply IH; [by right|done].
Qed.

Lemma strictlyPositive_leb x y :
  strictlyPositive x -> (x <=? y) = true -> strictlyPositive y.
Proof.
  intros [Hn Hp] Hle. pose proof Hle as (_ & Hy & _)%leb_rk.
  split; [done|].
  apply ltb_rk in Hp as (H0 & _ & L). apply leb_rk in Hle as (_ & _ & H).
  apply ltb_rk. do 2 (split; [done|]).
  destruct H as [L'|<-]; [|done].
  unfold lex_lt in *. destruct (rk 0) as [[??]?], (rk x) as [[??]?],
    (rk y) as [[??]?]. lia.
Qed.

(** The price range of a side with entries above 0. *)
Lemma range_positive (entries : list OrderBookEntry) :
  entries <> [] -> Forall positiveEntry entries ->
  let prices := price <$> entries in
  strictlyPositive (JSMath.min prices) /\
  (JSMath.min prices <=? JSMath.max prices) = true /\
  Forall (fun e => (JSMath.min prices <=? price e) = true /\
                   (price e <=? JSMath.max prices) = true) entries.
Proof.
  intros Hne Hpos. simpl.
  assert (price <$> entries <> []) as Hne' by (by destruct entries).
  assert (Forall strictlyPositive (price <$> entries)) as Hp.
  { apply Forall_fmap. eapply Forall_impl; [exact Hpos|]. by intros e [? _]. }
  assert (Forall notNaN (price <$> entries)) as Hn.
  { eapply Forall_impl; [exact Hp|]. by intros x [? _]. }
  destruct (min_spec _ Hne' Hn) as [Hmin Hle].
  destruct (max_spec _ Hne' Hn) as [Hmax Hge].
  rewrite Forall_forall in Hp, Hle, Hge.
  split; [by apply Hp|]. split; [by apply Hge|].
  apply Forall_forall. intros e He.
  assert (price e ∈ price <$> entries) as Hin by (by apply list_elem_of_fmap_2).
  split; [by apply Hle|by apply Hge].
Qed.
End PositiveFacts.

(** X17. The analysis of a validated order book whose sides the engine can
    spread into a call (a side is empty or within the argument limit):
    the analysis is returned; it carries the ticker that the caller
    passed; the total quantity of a side that has entries is a number
    above 0 (possibly Infinity, never NaN); the price range of a side that
    has entries starts above 0, has its minimum at most its maximum, and
    holds the price of every entry of the side. With a side that the
    engine cannot spread, the analysis of the validated book throws. *)
Theorem validated_depth_analysis (acceptsArguments : nat -> bool)
    (Number : JSValue -> number) (dateGetTime : string -> number)
    (data : JSValue) (marketId : string) (depth : ValidatedMarketDepth) :
  validateMarketDepth Number dateGetTime data marketId = Returns depth ->
  let within (r : PriceRange) (e : OrderBookEntry) :=
    (range_min r <=? price e)%float = true /\
    (price e <=? range_max r)%float = true in
  (spreads acceptsArguments (bids depth) ->
   spreads acceptsArguments (asks depth) ->
   exists analysis,
     analyzeOrderBook acceptsArguments depth = Returns analysis /\
     analysis_tickerId analysis = marketId /\
     (bids depth <> [] -> SchemaFacts.strictlyPositive (totalBidQuantity analysis)) /\
     (asks depth <> [] -> SchemaFacts.strictlyPositive (totalAskQuantity analysis)) /\
     (forall r, bidPriceRange analysis = Some r ->
        SchemaFacts.strictlyPositive (range_min r) /\
        (range_min r <=? range_max r)%float = true /\
        Forall (within r) (bids depth)) /\
     (forall r, askPriceRange analysis = Some r ->
        SchemaFacts.strictlyPositive (range_min r) /\
        (range_min r <=? range_max r)%float = true /\
        Forall (within r) (asks depth))) /\
  (~ (spreads acceptsArguments (bids depth) /\
      spreads acceptsArguments (asks depth)) ->
   analyzeOrderBook acceptsArguments depth = Throws).
Proof.
  intros H.
  pose proof (DepthSchemaFacts.validateMarketDepth_Returns _ _ _ _ _ H)
    as (props & ts & -> & Hts & Hb & Ha & Hid & Htime).
  apply DepthSchemaFacts.entries_positive in Hb, Ha.
  assert (forall entries, Forall positiveEntry entries -> entries <> [] ->
            SchemaFacts.strictlyPositive
              (foldl (fun sum e => (sum + quantity e)%float) 0%float entries))
    as Htotal.
  { intros entries Hpos Hne. rewrite DepthFacts.foldl_quantity.
    apply PositiveFacts.sum_strictlyPositive; [by left| |by destruct entries].
    apply Forall_fmap. eapply Forall_impl; [exact Hpos|]. by intros e [_ ?]. }
  assert (forall entries r, Forall positiveEntry entries ->
            (if Nat.ltb 0 (length (price <$> entries))
             then Some {| range_min := JSMath.min (price <$> entries);
                          range_max := JSMath.max (price <$> entries) |}
             else None) = Some r ->
            SchemaFacts.strictlyPositive (range_min r) /\
            (range_min r <=? range_max r)%float = true /\
            Forall (fun e => (range_min r <=? price e)%float = true /\
                             (price e <=? range_max r)%float = true) entries)
    as Hrange.
  { intros entries r Hpos Hr.
    assert (entries <> []) as Hne by (by destruct entries).
    destruct entries as [|e entries]; [done|]. simpl in Hr. injection Hr as <-.
    by apply (PositiveFacts.range_positive (e :: entries)). }
  cbv zeta. split.
  - intros Sb Sa. unfold analyzeOrderBook.
    rewrite (DepthFacts.rangeOf_Returns _ _ Sb),
      (DepthFacts.rangeOf_Returns _ _ Sa).
    eexists. split; [reflexivity|]. cbn [analysis_tickerId totalBidQuantity
      totalAskQuantity bidPriceRange askPriceRange bids asks depth_ticker_id].
    split; [done|].
    split; [by apply Htotal|]. split; [by apply Htotal|].
    split; intros r Hr; by apply Hrange.
  - intros N. unfold analyzeOrderBook.
    destruct (DepthFacts.spreads_dec acceptsArguments (bids depth)) as [Sb|Sb].
    + rewrite (DepthFacts.rangeOf_Returns _ _ Sb).
      rewrite DepthFacts.rangeOf_Throws; [done|]. intros Sa. by apply N.
    + by rewrite DepthFacts.rangeOf_Throws.
Qed.

Lemma validated_depth_analysis_witness :
  exists depth analysis,
    validateMarketDepth NumberOfDecimal.Number (fun _ => 1704067200000%float)
      depthPayload "BTC_USDT" = Returns depth /\
    analyzeOrderBook exampleEngine depth = Returns analysis /\
    analysis_tickerId analysis = "BTC_USDT"%string /\
    SchemaFacts.strictlyPositive (totalBidQuantity analysis).
Proof.
  eexists.
  destruct (validated_depth_analysis exampleEngine NumberOfDecimal.Number
              (fun _ => 1704067200000%float) depthPayload "BTC_USDT" _ eq_refl)
    as [H _].
  destruct H as (analysis & H0 & H1 & H2 & _);
    [right; reflexivity|right; reflexivity|].
  exists analysis. split; [reflexivity|]. split; [exact H0|].
  split; [exact H1|]. apply H2. discriminate.
Defined.

(** X18. From validated summaries to the list on screen: whatever the pairs,
    the records assembled from the summaries of an accepted payload are in
    volume order, highest first, and none of them has a volume or a last
    price that is NaN or below 0. *)
Theorem validated_summaries_assemble (Number : JSValue -> number)
    (data : JSValue) (summaries : list MarketSummary) (pairs : list MarketPair) :
  validateMarketSummary Number data = Returns summaries ->
  StronglySorted (fun a b => (volume24h b <=? volume24h a)%float = true)
    (fetchMarkets pairs summaries) /\
  Forall (fun r => SchemaFacts.nonNegative (volume24h r) /\
                   SchemaFacts.nonNegative (lastPrice r))
    (fetchMarkets pairs summaries).
Proof.
  intros H.
  apply SchemaFacts.validateMarketSummary_Returns in H
    as (props & items & raw & -> & Hs & Hf & ->).
  assert (Forall (fun s => SchemaFacts.nonNegative (base_volume s) /\
                           SchemaFacts.nonNegative (last_price s))
            (transformSummaryItem <$> raw)) as Hn.
  { apply Forall_fmap, Forall_forall. intros item Hin.
    apply (Forall2_Forall_r _ (fun r => exists d,
             RawMarketSummaryItemSchema Number d = Some r)) in Hf.
    - rewrite Forall_forall in Hf. destruct (Hf item Hin) as (d & Hd).
      apply SchemaFacts.RawMarketSummaryItemSchema_Some in Hd
        as [(H1 & H2 & H3 & H4 & H5 & _) _]. by split.
    - apply Forall_forall. intros d _ r Hr. by exists d. }
  split.
  - apply MarketOrderFacts.fetchMarkets_descending.
    eapply Forall_impl; [exact Hn|]. by intros s [[? _] _].
  - unfold fetchMarkets. rewrite SortFacts.sort_Permutation.
    unfold processedMarkets. apply Forall_fmap, Forall_forall.
    intros pair _. unfold processPair. simpl.
    destruct (summaryMap _ !! mp_ticker_id pair) as [s|] eqn:E; simpl.
    + apply AssemblerFacts.summaryMap_lookup_Some in E as [Hin _].
      rewrite Forall_forall in Hn. by apply Hn.
    + by split.
Qed.

Lemma validated_summaries_assemble_witness :
  exists summaries,
    validateMarketSummary NumberOfDecimal.Number (summaryPayload (VString "5"))
      = Returns summaries /\
    StronglySorted (fun a b => (volume24h b <=? volume24h a)%float = true)
      (fetchMarkets examplePairs summaries).
Proof.
  eexists. split; [reflexivity|].
  exact (proj1 (validated_summaries_assemble NumberOfDecimal.Number
                  (summaryPayload (VString "5")) _ examplePairs eq_refl)).
Defined.

(** *** Search filter, sort buttons, formatters *)

Module SearchFacts.
Import JSSearch.

Lemma startsWith_spec x s :
  startsWith x s = true <-> exists post, s = x +:+ post.
Proof.
  revert s. induction x as [|c x IH]; intros s; simpl.
  - split; [|done]. intros _. by exists s.
  - destruct s as [|c' s].
    + split; [done|]. by intros (post & ?).
    + rewrite andb_true_iff, IH. split.
      * intros [Hc (post & ->)]. apply Ascii.eqb_eq in Hc as ->. by exists post.
      * intros (post & [= -> ->]). split; [apply Ascii.eqb_refl|by exists post].
Qed.

(** [includes] is the substring test. *)
Lemma includes_spec x s :
  includes x s = true <-> exists pre post, s = pre +:+ x +:+ post.
Proof.
  induction s as [|c s IH]; simpl.
  - rewrite orb_false_r, startsWith_spec. split.
    + intros (post & E). by exists EmptyString, post.
    + intros (pre & post & E). destruct pre; simpl in E; [by exists post|done].
  - rewrite orb_true_iff, startsWith_spec, IH. split.
    + intros [(post & E)|(pre & post & ->)].
      * by exists EmptyString, post.
      * by exists (String c pre), post.
    + intros (pre & post & E). destruct pre as [|c' pre]; simpl in E.
      * left. by exists post.
      * injection E as -> ->. right. by exists pre, post.
Qed.

Lemma filter_sublist {A} (p : A -> bool) l : List.filter p l `sublist_of` l.
Proof.
  induction l as [|x l IH]; simpl; [constructor|].
  destruct (p x); by constructor.
Qed.

Lemma filter_idempotent {A} (p : A -> bool) l :
  List.filter p (List.filter p l) = List.filter p l.
Proof.
  induction l as [|x l IH]; simpl; [done|].
  destruct (p x) eqn:E; simpl; [|done]. by rewrite E, IH.
Qed.

Lemma elem_of_filter {A} (p : A -> bool) l x :
  x ∈ List.filter p l <-> x ∈ l /\ p x = true.
Proof. rewrite !list_elem_of_In. apply filter_In. Qed.

Section WithHost.
Variable toLowerCase : string -> string.
Variable trim : string -> string.
Variable searchFields : list MarketSearchField.

Lemma matchesSearch_spec searchTerm m :
  matchesSearch toLowerCase searchFields searchTerm m = true <->
  exists f pre post,
    f ∈ searchFields /\ searchValue m f <> EmptyString /\
    toLowerCase (searchValue m f) = pre +:+ searchTerm +:+ post.
Proof.
  unfold matchesSearch. rewrite existsb_exists. split.
  - intros (f & Hf & H). apply list_elem_of_In in Hf.
    destruct (searchValue m f) as [|c v] eqn:E; [done|].
    apply includes_spec in H as (pre & post & H).
    exists f, pre, post. by rewrite E.
  - intros (f & pre & post & Hf & Hne & H). exists f.
    split; [by apply list_elem_of_In|].
    destruct (searchValue m f) as [|c v] eqn:E; [done|].
    apply includes_spec. by exists pre, post.
Qed.
End WithHost.
End SearchFacts.

(** X19. [filterMarkets] returns the list as it is for a query that is blank
    after trimming; otherwise it keeps, in their order, exactly the
    records that have a searched field whose string is not empty and
    whose lower case holds the trimmed lower-case query as a substring.
    It never adds, repeats or reorders a record, and filtering its result
    again with the same query changes nothing. *)
Theorem filterMarkets_spec (toLowerCase trim : string -> string)
    (searchFields : list MarketSearchField)
    (markets : list MarketData) (query : string) :
  let filter := filterMarkets toLowerCase trim searchFields in
  (trim query = EmptyString -> filter markets query = markets) /\
  (trim query <> EmptyString ->
   forall m,
     m ∈ filter markets query <->
     m ∈ markets /\
     exists f pre post,
       f ∈ searchFields /\ searchValue m f <> EmptyString /\
       toLowerCase (searchValue m f)
       = pre +:+ trim (toLowerCase query) +:+ post) /\
  filter markets query `sublist_of` markets /\
  filter (filter markets query) query = filter markets query.
Proof.
  simpl. unfold filterMarkets. destruct (trim query) as [|c q] eqn:E.
  - repeat split; try done.
  - split; [done|]. split; [|split].
    + intros _ m. rewrite SearchFacts.elem_of_filter.
      by rewrite SearchFacts.matchesSearch_spec.
    + apply SearchFacts.filter_sublist.
    + apply SearchFacts.filter_idempotent.
Qed.

(** X20. The list that [useFilteredAndSortedMarkets] shows is a rearrangement
    of the filtered records: every record shown is a record of the input
    that passes the filter, none is shown twice unless it is in the input
    twice, and for a blank query the list shown is a rearrangement of all
    the records. With an empty chain the filtered records are shown in
    their order. *)
Theorem filteredMarkets_spec (toLowerCase trim : string -> string)
    (searchFields : list MarketSearchField)
    (localeCompare : string -> string -> number)
    (sortConfigs : list SortConfig)
    (markets : list MarketData) (searchQuery : string) :
  let shown :=
    filteredMarkets toLowerCase trim searchFields localeCompare sortConfigs
      markets searchQuery in
  let filtered := filterMarkets toLowerCase trim searchFields markets searchQuery in
  shown ≡ₚ filtered /\
  shown ⊆+ markets /\
  (trim searchQuery = EmptyString -> shown ≡ₚ markets) /\
  filteredMarkets toLowerCase trim searchFields localeCompare [] markets searchQuery
  = filtered.
Proof.
  simpl. unfold filteredMarkets.
  assert (sortMarkets localeCompare sortConfigs
            (filterMarkets toLowerCase trim searchFields markets searchQuery)
          ≡ₚ filterMarkets toLowerCase trim searchFields markets searchQuery) as P
    by apply SortFacts.sort_Permutation.
  split; [exact P|]. split; [|split].
  - rewrite P. apply sublist_submseteq. unfold filterMarkets.
    destruct (trim searchQuery); [done|]. apply SearchFacts.filter_sublist.
  - intros E. rewrite P. unfold filterMarkets. by rewrite E.
  - by apply SortedFacts.sort_never_after.
Qed.

Module ButtonFacts.
Import JSArray ChainInvariantFacts ToggleFacts.

Lemma findIndex_is_Some {A} (p : A -> bool) l :
  is_Some (findIndex p l) <-> exists x, x ∈ l /\ p x = true.
Proof.
  split.
  - intros [i Hi]. apply findIndex_Some in Hi as (x & Hx & Hp & _).
    exists x. split; [by eapply list_elem_of_lookup_2|done].
  - intros (x & Hx & Hp). destruct (findIndex p l) as [i|] eqn:E; [done|].
    apply findIndex_None in E. rewrite Forall_forall in E.
    specialize (E x Hx). congruence.
Qed.
End ButtonFacts.

(** X21. The sort buttons. A button is active exactly when its field is in the
    chain, and then it shows the direction of that field's entry. For a
    field among the available ones, the button has a priority exactly
    when it is active; a priority is at least 1 and at most the length of
    the chain; and the buttons of two different fields never show the
    same priority. *)
Theorem sortButtonProps_spec (sortConfigs : list SortConfig)
    (availableFields : list SortField) (f : SortField) :
  let button := sortButtonProps sortConfigs availableFields f in
  (isActive button = true <-> exists c, c ∈ sortConfigs /\ field c = f) /\
  (isActive button = true <->
     exists o, sortOrder button = Some o /\
       {| field := f; order := o |} ∈ sortConfigs) /\
  (f ∈ availableFields ->
     (isActive button = true <-> is_Some (priority button))) /\
  (forall p, priority button = Some p -> 1 <= p <= length sortConfigs) /\
  (forall g p,
     priority button = Some p ->
     priority (sortButtonProps sortConfigs availableFields g) = Some p ->
     g = f).
Proof.
  simpl. unfold sortButtonProps. simpl.
  set (p := fun c : SortConfig => SortField_eqb (field c) f).
  set (visible := List.filter
                    (fun c => existsb (SortField_eqb (field c)) availableFields)
                    sortConfigs).
  assert (forall c, p c = true <-> field c = f) as Hp
    by (intros c; apply ToggleFacts.SortField_eqb_eq).
  split; [|split; [|split; [|split]]].
  - rewrite bool_decide_eq_true, ButtonFacts.findIndex_is_Some.
    by setoid_rewrite Hp.
  - rewrite bool_decide_eq_true. split.
    + intros [i Hi]. rewrite Hi. simpl.
      apply ChainInvariantFacts.findIndex_Some in Hi as (c & Hc & Hf & _).
      rewrite Hc. simpl. exists (order c). split; [done|].
      apply Hp in Hf. destruct c as [f' o]. simpl in *. subst f'.
      by eapply list_elem_of_lookup_2.
    + intros (o & Ho & Hin). apply ButtonFacts.findIndex_is_Some.
      exists {| field := f; order := o |}. split; [done|by apply Hp].
  - intros Hav. rewrite bool_decide_eq_true, fmap_is_Some.
    rewrite !ButtonFacts.findIndex_is_Some. split.
    + intros (c & Hc & Hf). exists c. split; [|done].
      apply SearchFacts.elem_of_filter. split; [done|].
      apply existsb_exists. exists f. split; [by apply list_elem_of_In|].
      exact Hf.
    + intros (c & Hc & Hf). exists c. split; [|done].
      by apply SearchFacts.elem_of_filter in Hc as [? _].
  - intros n Hn. destruct (JSArray.findIndex p visible) as [i|] eqn:E; [|done].
    injection Hn as <-. apply ToggleFacts.findIndex_lt in E.
    pose proof (sublist_length _ _
                  (SearchFacts.filter_sublist
                     (fun c => existsb (SortField_eqb (field c)) availableFields)
                     sortConfigs)) as Hl.
    fold visible in Hl. lia.
  - intros g n Hf Hg.
    destruct (JSArray.findIndex p visible) as [i|] eqn:Ei; [|done].
    destruct (JSArray.findIndex _ visible) as [j|] eqn:Ej in Hg; [|done].
    simpl in *. simplify_eq.
    apply ChainInvariantFacts.findIndex_Some in Ei as (c & Hc & Hcf & _).
    apply ChainInvariantFacts.findIndex_Some in Ej as (c' & Hc' & Hcg & _).
    simplify_eq. apply Hp in Hcf. apply ToggleFacts.SortField_eqb_eq in Hcg.
    congruence.
Qed.

Module StatusOrderFacts.
Import JSArray SortFacts.

Definition priorityKey (s : RAGStatus) : nat :=
  match s with red => 0 | amber => 1 | green => 2 end.

Lemma priority_stays x y :
  priorityKey x < priorityKey y -> sortsAfter compareRAGStatus x y = false.
Proof. destruct x, y; simpl; try lia; intros _; reflexivity. Qed.

Lemma priority_moves x y :
  priorityKey y < priorityKey x -> sortsAfter compareRAGStatus x y = true.
Proof. destruct x, y; simpl; try lia; intros _; reflexivity. Qed.

(** A list of ratings in non-decreasing priority is a run of red, a run
    of amber and a run of green. *)
Lemma sorted_runs l :
  StronglySorted (fun x y => priorityKey x <= priorityKey y) l ->
  exists r a g, l = replicate r red ++ replicate a amber ++ replicate g green.
Proof.
  induction 1 as [|x l Hs (r & a & g & ->) Hx].
  - by exists 0, 0, 0.
  - rewrite !Forall_app in Hx. destruct Hx as (Hr & Ha & Hg).
    assert (forall n s, Forall (fun y => priorityKey x <= priorityKey y)
                          (replicate n s) ->
              n = 0 \/ priorityKey x <= priorityKey s) as Hrep.
    { intros [|n] s Hf; [by left|]. right. simpl in Hf.
      by apply Forall_cons in Hf as [? _]. }
    apply Hrep in Hr, Ha, Hg. destruct x; simpl in *.
    + assert (r = 0) as -> by (destruct Hr; lia).
      assert (a = 0) as -> by (destruct Ha; lia).
      by exists 0, 0, (S g).
    + assert (r = 0) as -> by (destruct Hr; lia).
      by exists 0, (S a), g.
    + by exists (S r), a, g.
Qed.
End StatusOrderFacts.

(** X22. Sorting ratings with [compareRAGStatus] puts them in ascending
    priority: all the red ones first, then the amber ones, then the green
    ones, the same ratings as before. This is the reverse of the order
    that the market comparator gives ratings under asc. *)
Theorem compareRAGStatus_sorts_red_first (statuses : list RAGStatus) :
  let sorted := JSArray.sort compareRAGStatus statuses in
  sorted ≡ₚ statuses /\
  (exists r a g,
     sorted = replicate r red ++ replicate a amber ++ replicate g green) /\
  (forall x y,
     JSArray.sortsAfter compareRAGStatus x y =
     JSArray.sortsAfter (fun a b => (ragOrder a - ragOrder b)%float) y x).
Proof.
  simpl. split; [apply SortFacts.sort_Permutation|]. split.
  - apply StatusOrderFacts.sorted_runs.
    apply (SortFacts.sort_sorted compareRAGStatus StatusOrderFacts.priorityKey
             StatusOrderFacts.priority_stays StatusOrderFacts.priority_moves).
  - by intros [] [].
Qed.

(** X23. [truncate], on texts as sequences of UTF-16 code units and for an
    integer [maxLength]: a text of at most [maxLength] units is returned
    as it is; a longer text is cut to its first [maxLength] units (none
    for a negative [maxLength]) and three full stops are added. The result
    of a cut has [maxLength + 3] units, so a text that is one to three
    units longer than [maxLength] does not get shorter. *)
Theorem truncate_spec (text : JSText) (maxLength : Z) :
  let n := Z.of_nat (length text) in
  let result := truncate text maxLength in
  ((n <= maxLength)%Z -> result = text) /\
  ((maxLength < n)%Z ->
     (exists kept rest,
        text = kept ++ rest /\ result = kept ++ [46; 46; 46]%N /\
        Z.of_nat (length kept) = Z.max 0 maxLength) /\
     (forall i : nat, (Z.of_nat i < maxLength)%Z -> result !! i = text !! i) /\
     Z.of_nat (length result) = (Z.max 0 maxLength + 3)%Z /\
     ((n - 3 <= maxLength)%Z -> length text <= length result)).
Proof.
  cbv zeta. unfold truncate, substring0, ellipsis.
  destruct (Z.leb_spec (Z.of_nat (length text)) maxLength) as [Hle|Hgt].
  - split; [done|]. lia.
  - split; [lia|]. intros _.
    assert (length (take (Z.to_nat maxLength) text) = Z.to_nat maxLength) as Hk
      by (rewrite length_take; lia).
    assert (Z.of_nat (length (take (Z.to_nat maxLength) text ++ [46; 46; 46]%N))
            = (Z.max 0 maxLength + 3)%Z) as Hlen
      by (rewrite length_app, Hk; simpl; lia).
    split; [|split; [|split; [exact Hlen|lia]]].
    + exists (take (Z.to_nat maxLength) text), (drop (Z.to_nat maxLength) text).
      split; [by rewrite take_drop|]. split; [done|]. lia.
    + intros i Hi.
      rewrite (lookup_app_l (take (Z.to_nat maxLength) text)) by lia.
      apply (lookup_take_lt text). lia.
Qed.

(** Two texts with characters outside ASCII. "héllo" has five units (é is
    the one unit 233) and is returned as it is for [maxLength] 5. In
    "a😀b" the emoji takes the two units 55357 and 56832, and a cut at 2
    keeps the first of them only. *)
Example truncate_code_units :
  truncate [104; 233; 108; 108; 111]%N 5 = [104; 233; 108; 108; 111]%N /\
  truncate [97; 55357; 56832; 98]%N 2 = [97; 55357; 46; 46; 46]%N /\
  truncate [104; 105]%N (-1) = [46; 46; 46]%N.
Proof. repeat split; reflexivity. Qed.

(** *** Compound sorting *)

(** The order that a chain entry gives two records, and the records that
    it cannot tell apart. A record without a spread counts as above every
    spread. *)
Definition fieldBefore (f : SortField) (a b : MarketData) : Prop :=
  match f with
  | market_f => False
  | spread_f =>
      match spread a, spread b with
      | Some x, Some y => (x <? y)%float = true
      | Some _, None => True
      | None, _ => False
      end
  | volume_f => (volume24h a <? volume24h b)%float = true
  | price_f => (lastPrice a <? lastPrice b)%float = true
  | ragStatus_f =>
      (ragOrder (ragStatus a) <? ragOrder (ragStatus b))%float = true
  end.

Definition fieldTied (f : SortField) (a b : MarketData) : Prop :=
  match f with
  | market_f => True
  | spread_f =>
      match spread a, spread b with
      | Some x, Some y => (x =? y)%float = true
      | None, None => True
      | _, _ => False
      end
  | volume_f => (volume24h a =? volume24h b)%float = true
  | price_f => (lastPrice a =? lastPrice b)%float = true
  | ragStatus_f => ragStatus a = ragStatus b
  end.

Definition entryBefore (c : SortConfig) (a b : MarketData) : Prop :=
  match order c with
  | asc => fieldBefore (field c) a b
  | desc => fieldBefore (field c) b a
  end.

(** The lexicographic order of a chain: the first entry that tells two
    records apart decides. *)
Fixpoint chainOrder (chain : list SortConfig) (a b : MarketData) : Prop :=
  match chain with
  | [] => True
  | c :: rest =>
      entryBefore c a b \/ (fieldTied (field c) a b /\ chainOrder rest a b)
  end.

(** Records whose volume, last price and spread (when there is one) are
    finite numbers. *)
Definition finiteKeys (m : MarketData) : Prop :=
  isFinite (volume24h m) = true /\ isFinite (lastPrice m) = true /\
  match spread m with Some s => isFinite s = true | None => True end.

Module CompoundFacts.
Import JSArray SortFacts NumberFacts OrderFacts SortedFacts QualityFacts.
Local Open Scope float_scope.

(** The position of a record under a field, as a triple that [lex_cmp]
    compares. *)
Definition sortKey (f : SortField) (m : MarketData) : Z * Z * Z :=
  match f with
  | market_f => (0, 0, 0)%Z
  | spread_f => match spread m with Some s => rk s | None => (3, 0, 0)%Z end
  | volume_f => rk (volume24h m)
  | price_f => rk (lastPrice m)
  | ragStatus_f =>
      match ragStatus m with
      | green => (0, 0, 0)%Z | amber => (1, 0, 0)%Z | red => (2, 0, 0)%Z
      end
  end.

Definition entryCmp (c : SortConfig) (a b : MarketData) : comparison :=
  match order c with
  | asc => lex_cmp (sortKey (field c) a) (sortKey (field c) b)
  | desc => lex_cmp (sortKey (field c) b) (sortKey (field c) a)
  end.

Fixpoint chainCmp (chain : list SortConfig) (a b : MarketData) : comparison :=
  match chain with
  | [] => Eq
  | c :: rest =>
      match entryCmp c a b with
      | Eq => chainCmp rest a b
      | r => r
      end
  end.

Lemma eq0_of_cmp d :
  isNaN d = false ->
  (d =? 0) = match lex_cmp (rk d) (0, 0, 0)%Z with Eq => true | _ => false end.
Proof.
  intros Hn. rewrite FloatAxioms.eqb_spec. unfold SFeqb.
  rewrite SFcompare_rank by (by apply isNaN_false || done). done.
Qed.

Lemma rk_below_3 x : lex_cmp (3, 0, 0)%Z (rk x) = Gt /\ lex_cmp (rk x) (3, 0, 0)%Z = Lt.
Proof.
  pose proof (MathFacts.rk_bounds x) as H. destruct (rk x) as [[a b] c].
  destruct H as [H _]. unfold lex_cmp.
  destruct (Z.compare_spec 3 a); try lia.
  destruct (Z.compare_spec a 3); try lia. done.
Qed.

Section WithLocale.
Variable localeCompare : string -> string -> number.

(** The comparator of a field returns a number, and its sign is the order
    of the two records under the field. *)
Lemma compareByField_sign f a b :
  f <> market_f -> finiteKeys a -> finiteKeys b ->
  let d := compareByField localeCompare a b f in
  isNaN d = false /\
  lex_cmp (rk d) (0, 0, 0)%Z = lex_cmp (sortKey f a) (sortKey f b).
Proof.
  intros Hf (Va & Pa & Sa) (Vb & Pb & Sb). simpl.
  destruct f; try done; simpl.
  - unfold compareBySpread.
    destruct (spread a) as [x|], (spread b) as [y|]; try done.
    + split; [by apply sub_finite_not_NaN|].
      apply sub_cmp; by apply isFinite_not_NaN.
    + split; [done|]. by destruct (rk_below_3 x) as [_ ->].
    + split; [done|]. by destruct (rk_below_3 y) as [-> _].
  - unfold compareByVolume. split; [by apply sub_finite_not_NaN|].
    apply sub_cmp; by apply isFinite_not_NaN.
  - unfold compareByPrice. split; [by apply sub_finite_not_NaN|].
    apply sub_cmp; by apply isFinite_not_NaN.
  - unfold compareByRAGStatus. by destruct (ragStatus a), (ragStatus b).
Qed.

Lemma chain_after chain a b :
  Forall (fun c => field c <> market_f) chain ->
  finiteKeys a -> finiteKeys b ->
  sortsAfter (compareByChain localeCompare chain) a b =
  match chainCmp chain a b with Gt => true | _ => false end.
Proof.
  intros Hc Ha Hb. unfold sortsAfter.
  induction Hc as [|c chain Hf _ IH]; simpl; [done|].
  destruct (compareByField_sign (field c) a b Hf Ha Hb) as [Hn Hs].
  simpl in Hn, Hs.
  set (d := compareByField localeCompare a b (field c)) in *.
  rewrite (eq0_of_cmp d Hn). unfold entryCmp.
  destruct (order c).
  - rewrite <- Hs. destruct (lex_cmp (rk d) (0, 0, 0)%Z) eqn:E; simpl.
    + exact IH.
    + by rewrite gt0_cmp, E.
    + by rewrite gt0_cmp, E.
  - rewrite (lex_cmp_antisym (sortKey (field c) b)), <- Hs.
    destruct (lex_cmp (rk d) (0, 0, 0)%Z) eqn:E; simpl.
    + exact IH.
    + by rewrite gt0_cmp, opp_cmp, E.
    + by rewrite gt0_cmp, opp_cmp, E.
Qed.
End WithLocale.

Lemma lex_cmp_Eq p q : lex_cmp p q = Eq <-> p = q.
Proof.
  destruct (lex_cmp_spec p q) as [E|L|L]; split; try done;
    intros ->; unfold lex_lt in L; destruct q as [[??]?]; lia.
Qed.

Lemma lex_cmp_Lt_trans p q r :
  lex_cmp p q = Lt -> lex_cmp q r = Lt -> lex_cmp p r = Lt.
Proof.
  destruct (lex_cmp_spec p q) as [?|L1|?]; try done.
  destruct (lex_cmp_spec q r) as [?|L2|?]; try done. intros _ _.
  destruct (lex_cmp_spec p r) as [E|L|L]; [|done|];
    destruct p as [[??]?], q as [[??]?], r as [[??]?];
    simplify_eq; unfold lex_lt in *; lia.
Qed.

Lemma entryCmp_antisym c a b : entryCmp c a b = CompOpp (entryCmp c b a).
Proof. unfold entryCmp. destruct (order c); apply lex_cmp_antisym. Qed.

Lemma chainCmp_antisym chain a b :
  chainCmp chain a b = CompOpp (chainCmp chain b a).
Proof.
  induction chain as [|c chain IH]; simpl; [done|].
  rewrite (entryCmp_antisym c a b). by destruct (entryCmp c b a).
Qed.

Lemma entryCmp_trans c x y z :
  entryCmp c x y <> Gt -> entryCmp c y z <> Gt ->
  match entryCmp c x y, entryCmp c y z with
  | Eq, r | r, Eq => entryCmp c x z = r
  | _, _ => entryCmp c x z = Lt
  end.
Proof.
  unfold entryCmp. destruct (order c).
  - destruct (lex_cmp (sortKey (field c) x) (sortKey (field c) y)) eqn:E1;
      destruct (lex_cmp (sortKey (field c) y) (sortKey (field c) z)) eqn:E2;
      try done; intros _ _.
    + apply lex_cmp_Eq in E1, E2. apply lex_cmp_Eq. congruence.
    + apply lex_cmp_Eq in E1. by rewrite E1.
    + apply lex_cmp_Eq in E2. by rewrite <- E2.
    + by eapply lex_cmp_Lt_trans.
  - destruct (lex_cmp (sortKey (field c) y) (sortKey (field c) x)) eqn:E1;
      destruct (lex_cmp (sortKey (field c) z) (sortKey (field c) y)) eqn:E2;
      try done; intros _ _.
    + apply lex_cmp_Eq in E1, E2. apply lex_cmp_Eq. congruence.
    + apply lex_cmp_Eq in E1. by rewrite <- E1.
    + apply lex_cmp_Eq in E2. by rewrite E2.
    + by eapply lex_cmp_Lt_trans.
Qed.

Lemma chainCmp_trans chain x y z :
  chainCmp chain x y <> Gt -> chainCmp chain y z <> Gt ->
  chainCmp chain x z <> Gt.
Proof.
  induction chain as [|c chain IH]; simpl; [done|].
  intros H1 H2.
  assert (entryCmp c x y <> Gt) as G1 by (by destruct (entryCmp c x y)).
  assert (entryCmp c y z <> Gt) as G2 by (by destruct (entryCmp c y z)).
  pose proof (entryCmp_trans c x y z G1 G2) as T.
  destruct (entryCmp c x y), (entryCmp c y z); try done; rewrite T; try done.
  by apply IH.
Qed.

(** From the triples back to the comparisons of the program's numbers. *)
Lemma sortKey_Lt f a b :
  f <> market_f -> finiteKeys a -> finiteKeys b ->
  lex_cmp (sortKey f a) (sortKey f b) = Lt -> fieldBefore f a b.
Proof.
  intros Hf (Va & Pa & Sa) (Vb & Pb & Sb).
  destruct f; try done; simpl.
  - destruct (spread a) as [x|], (spread b) as [y|]; try done.
    + intros H. rewrite ltb_cmp, H by (by apply isFinite_not_NaN). done.
    + by destruct (rk_below_3 y) as [-> _].
  - intros H. rewrite ltb_cmp, H by (by apply isFinite_not_NaN). done.
  - intros H. rewrite ltb_cmp, H by (by apply isFinite_not_NaN). done.
  - by destruct (ragStatus a), (ragStatus b).
Qed.

Lemma sortKey_Eq f a b :
  f <> market_f -> finiteKeys a -> finiteKeys b ->
  lex_cmp (sortKey f a) (sortKey f b) = Eq -> fieldTied f a b.
Proof.
  intros Hf (Va & Pa & Sa) (Vb & Pb & Sb).
  destruct f; try done; simpl.
  - destruct (spread a) as [x|], (spread b) as [y|]; try done.
    + intros H%lex_cmp_Eq. apply eqb_rk.
      split; [by apply isFinite_not_NaN|]. split; [by apply isFinite_not_NaN|done].
    + by destruct (rk_below_3 x) as [_ ->].
    + by destruct (rk_below_3 y) as [-> _].
  - intros H%lex_cmp_Eq. apply eqb_rk.
    split; [by apply isFinite_not_NaN|]. split; [by apply isFinite_not_NaN|done].
  - intros H%lex_cmp_Eq. apply eqb_rk.
    split; [by apply isFinite_not_NaN|]. split; [by apply isFinite_not_NaN|done].
  - by destruct (ragStatus a), (ragStatus b).
Qed.

Lemma chainCmp_order chain a b :
  Forall (fun c => field c <> market_f) chain ->
  finiteKeys a -> finiteKeys b ->
  chainCmp chain a b <> Gt -> chainOrder chain a b.
Proof.
  intros Hc Ha Hb. induction Hc as [|c chain Hf _ IH]; simpl; [done|].
  destruct (entryCmp c a b) eqn:E; [| |done].
  - intros H. right. split; [|by apply IH].
    unfold entryCmp in E. destruct (order c).
    + by apply sortKey_Eq.
    + apply lex_cmp_Eq in E. apply sortKey_Eq; try done.
      by apply lex_cmp_Eq.
  - intros _. left. unfold entryBefore. unfold entryCmp in E.
    destruct (order c); by apply sortKey_Lt.
Qed.

Lemma StronglySorted_weaken {A} (R R' : A -> A -> Prop) l :
  (forall x y, R x y -> R' x y) -> StronglySorted R l -> StronglySorted R' l.
Proof.
  intros HR. induction 1 as [|x l Hs IH Hx]; constructor; [done|].
  eapply Forall_impl; [exact Hx|]. apply HR.
Qed.

Lemma sortMarkets_chainCmp localeCompare chain markets :
  Forall (fun c => field c <> market_f) chain ->
  Forall finiteKeys markets ->
  StronglySorted (fun a b => finiteKeys a /\ finiteKeys b /\
                             chainCmp chain a b <> Gt)
    (sortMarkets localeCompare chain markets).
Proof.
  intros Hc Hm. apply (sort_StronglySorted _ _ finiteKeys); try done.
  - intros x y z (Hx & Hy & H1) (_ & Hz & H2).
    do 2 (split; [done|]). by eapply chainCmp_trans.
  - intros x y Hx Hy. rewrite chain_after by done.
    intros H. do 2 (split; [done|]).
    rewrite chainCmp_antisym. by destruct (chainCmp chain x y).
  - intros x y Hx Hy. rewrite chain_after by done.
    intros H. do 2 (split; [done|]). by destruct (chainCmp chain x y).
Qed.

Lemma sortMarkets_chainOrder localeCompare chain markets :
  Forall (fun c => field c <> market_f) chain ->
  Forall finiteKeys markets ->
  StronglySorted (chainOrder chain) (sortMarkets localeCompare chain markets).
Proof.
  intros Hc Hm.
  eapply StronglySorted_weaken; [|by apply sortMarkets_chainCmp].
  intros a b (Ha & Hb & H). by apply chainCmp_order.
Qed.
End CompoundFacts.

(** X24. Compound sorting. For a chain over spread, volume, price and
    liquidity rating, and records whose numbers are finite, [sortMarkets]
    returns the records in the lexicographic order of the chain: of two
    records, the one that the first entry puts first comes first; when the
    first entry cannot tell them apart the second entry decides, and so
    on. *)
Theorem sortMarkets_compound (localeCompare : string -> string -> number)
    (sortConfigs : list SortConfig) (markets : list MarketData) :
  Forall (fun c => field c <> market_f) sortConfigs ->
  Forall finiteKeys markets ->
  StronglySorted (chainOrder sortConfigs)
    (sortMarkets localeCompare sortConfigs markets).
Proof. apply CompoundFacts.sortMarkets_chainOrder. Qed.

Lemma sortMarkets_compound_witness :
  let chain := [{| field := ragStatus_f; order := asc |};
                {| field := volume_f; order := desc |}] in
  let markets := fetchMarkets examplePairs exampleSummaries in
  (Forall (fun c => field c <> market_f) chain /\ Forall finiteKeys markets) /\
  StronglySorted (chainOrder chain) (sortMarkets (fun _ _ => 0%float) chain markets).
Proof.
  simpl.
  assert (Forall (fun c => field c <> market_f)
            [{| field := ragStatus_f; order := asc |};
             {| field := volume_f; order := desc |}]) as Hc
    by (repeat constructor; discriminate).
  assert (Forall finiteKeys (fetchMarkets examplePairs exampleSummaries)) as Hm
    by (repeat constructor).
  split; [by split|].
  exact (sortMarkets_compound (fun _ _ => 0%float) _ _ Hc Hm).
Defined.

Module StableFacts.
Import JSArray.

Section Stable.
Context {A : Type} (comparefn : A -> A -> number) (p : A -> bool).
Hypothesis tied :
  forall x y, p x = true -> p y = true -> sortsAfter comparefn x y = false.

Lemma filter_insert x l :
  List.filter p (insert comparefn x l) = List.filter p (x :: l).
Proof using tied.
  induction l as [|y l IH]; simpl; [done|].
  destruct (sortsAfter comparefn x y) eqn:E; [|done]. simpl. rewrite IH. simpl.
  destruct (p x) eqn:Hx, (p y) eqn:Hy; try done.
  rewrite tied in E by done. done.
Qed.

Lemma filter_sort l : List.filter p (sort comparefn l) = List.filter p l.
Proof using tied.
  induction l as [|x l IH]; [done|].
  change (sort comparefn (x :: l)) with (insert comparefn x (sort comparefn l)).
  rewrite filter_insert. simpl. by rewrite IH.
Qed.
End Stable.
End StableFacts.

(** X25. [sortMarkets] is stable on the inputs for which the comparator is
    a consistent one: for a chain over spread, volume, price and liquidity
    rating, and records whose numbers are finite (no NaN among the keys),
    records that the chain does not put one after the other, in either
    direction, leave it in the order in which they came. *)
Theorem sortMarkets_stable (localeCompare : string -> string -> number)
    (sortConfigs : list SortConfig) (same : MarketData -> bool)
    (markets : list MarketData) :
  Forall (fun c => field c <> market_f) sortConfigs ->
  Forall finiteKeys markets ->
  (forall x y, same x = true -> same y = true ->
     JSArray.sortsAfter (compareByChain localeCompare sortConfigs) x y = false) ->
  List.filter same (sortMarkets localeCompare sortConfigs markets)
  = List.filter same markets.
Proof. intros _ _ H. by apply StableFacts.filter_sort. Qed.

Lemma sortMarkets_stable_witness :
  let chain := [{| field := ragStatus_f; order := asc |}] in
  let isGreen := fun m => match ragStatus m with green => true | _ => false end in
  let markets := [mockMarket (Some 1.5%float) green; mockMarket None red;
                  mockMarket (Some 0.5%float) green] in
  (Forall (fun c => field c <> market_f) chain /\ Forall finiteKeys markets) /\
  List.filter isGreen (sortMarkets (fun _ _ => 0%float) chain markets)
  = [mockMarket (Some 1.5%float) green; mockMarket (Some 0.5%float) green].
Proof.
  intros chain isGreen markets.
  assert (Forall (fun c => field c <> market_f) chain) as Hc
    by (repeat constructor; discriminate).
  assert (Forall finiteKeys markets) as Hm by (repeat constructor).
  split; [by split|].
  refine (sortMarkets_stable (fun _ _ => 0%float) chain isGreen markets Hc Hm _).
  intros x y Hx Hy. unfold isGreen in Hx, Hy. unfold JSArray.sortsAfter. simpl.
  unfold compareByRAGStatus.
  destruct (ragStatus x), (ragStatus y); try done.
Defined.

(** *** The retry policy *)

Module RetryFacts.
Section WithCap.
Variable MAX_RETRY_ATTEMPTS : Z.

Lemma shouldRetry_true response retryCount :
  shouldRetry MAX_RETRY_ATTEMPTS response retryCount = true <->
  (retryCount < MAX_RETRY_ATTEMPTS)%Z /\
  match response with
  | None => True
  | Some status => (500 <= status < 600)%Z \/ status = 429%Z
  end.
Proof.
  unfold shouldRetry.
  destruct (Z.leb_spec MAX_RETRY_ATTEMPTS retryCount); [split; [done|lia]|].
  destruct response as [status|]; [|by split].
  destruct (Z.leb_spec 500 status), (Z.ltb_spec status 600),
    (Z.eqb_spec status 429); simpl; split; try done; try lia;
    intros [_ [?|?]]; lia.
Qed.

Lemma sendRequest_attempts results n :
  (0 <= n)%Z ->
  (Z.of_nat (fst (sendRequest MAX_RETRY_ATTEMPTS results (Some n)))
   <= Z.max 0 (MAX_RETRY_ATTEMPTS - n) + 1)%Z.
Proof.
  revert n. induction results as [|[|response] results IH]; intros n Hn; simpl;
    [lia..|].
  unfold handleResponseError. simpl.
  destruct (shouldRetry MAX_RETRY_ATTEMPTS response n) eqn:E; simpl; [|lia].
  apply shouldRetry_true in E as [Hlt _].
  specialize (IH (n + 1)%Z ltac:(lia)).
  destruct (sendRequest MAX_RETRY_ATTEMPTS results (Some (n + 1)%Z)) as [k o].
  simpl in *. lia.
Qed.

End WithCap.
End RetryFacts.

(** X26. A request is never sent more than [MAX_RETRY_ATTEMPTS + 1] times
    (once when the cap is not positive), whatever the transport answers;
    an error is retried only when there was no response, or the status is
    5xx or 429, and fewer than [MAX_RETRY_ATTEMPTS] retries were made; a
    request whose first attempt fails with another status is rejected at
    once, after that one attempt. *)
Theorem sendRequest_bounded (MAX_RETRY_ATTEMPTS : Z)
    (results : list AttemptResult) :
  (Z.of_nat (fst (sendRequest MAX_RETRY_ATTEMPTS results None))
   <= Z.max 0 MAX_RETRY_ATTEMPTS + 1)%Z /\
  (forall response retryCount,
     shouldRetry MAX_RETRY_ATTEMPTS response retryCount = true <->
     (retryCount < MAX_RETRY_ATTEMPTS)%Z /\
     match response with
     | None => True
     | Some status => (500 <= status < 600)%Z \/ status = 429%Z
     end) /\
  (forall status rest,
     ~ (500 <= status < 600)%Z -> status <> 429%Z ->
     sendRequest MAX_RETRY_ATTEMPTS (Fails (Some status) :: rest) None
     = (1, Rejected (Some status))).
Proof.
  split; [|split].
  - destruct results as [|[|response] results]; simpl; [lia..|].
    unfold handleResponseError. simpl.
    destruct (shouldRetry MAX_RETRY_ATTEMPTS response 0) eqn:E; simpl; [|lia].
    apply RetryFacts.shouldRetry_true in E as [Hlt _].
    pose proof (RetryFacts.sendRequest_attempts MAX_RETRY_ATTEMPTS results 1
                  ltac:(lia)) as H.
    change (0 + 1)%Z with 1%Z.
    destruct (sendRequest MAX_RETRY_ATTEMPTS results (Some 1%Z)) as [k o].
    simpl in *. lia.
  - apply RetryFacts.shouldRetry_true.
  - intros status rest H5 H429. simpl. unfold handleResponseError. simpl.
    destruct (shouldRetry MAX_RETRY_ATTEMPTS (Some status) 0) eqn:E; [|done].
    apply RetryFacts.shouldRetry_true in E as [_ [?|?]]; done.
Qed.

(** *** The standalone script against the application *)

Module ScriptFacts.
Import NumberFacts Rounding SpreadBounds SignFacts OrderFacts.
Local Open Scope float_scope.

(** For equal positive finite bid and ask the spread formula gives
    exactly 0. *)
Lemma formula_equal_prices (bid ask : number) :
  isFinite bid = true -> isFinite ask = true ->
  (0 <? bid) = true -> (0 <? ask) = true -> (bid =? ask) = true ->
  ((ask - bid) / ((bid + ask) / 2)) * 100 = 0.
Proof.
  intros Fb Fa Pb Pa He.
  destruct (positive_finite bid Fb Pb) as (mb & eb & Eb & Hb).
  destruct (positive_finite ask Fa Pa) as (ma & ea & Ea & Ha).
  apply eqb_rk in He as (_ & _ & Hr). unfold rk in Hr. rewrite Eb, Ea in Hr.
  unfold rank in Hr. injection Hr as -> ->.
  apply Prim2SF_inj. change (Prim2SF 0) with (S754_zero false).
  rewrite mul_spec, div_spec, div_spec, sub_spec, add_spec, Ea, Eb.
  rewrite Prim2SF_100, Prim2SF_2.
  assert (SF64sub (S754_finite false ma ea) (S754_finite false ma ea)
          = S754_zero false) as ->.
  { unfold SF64sub, SFsub, cond_Zopp. by rewrite Z.sub_diag. }
  assert (bounded64 2 (-1074)) as H2 by reflexivity.
  assert (bounded64 1 (-1074)) as H1 by reflexivity.
  assert (F2R 1 (-1074) <= F2R (Zpos ma) ea)%R as Hmin.
  { destruct (bounded64_spec _ _ Ha) as (_ & _ & He & _ & _).
    apply Rle_trans with (F2R 1 ea); [|apply F2R_le; lia].
    unfold F2R. rewrite !Rmult_1_l. by apply bpow_le. }
  assert (F2R 2 (-1074) = 2 * F2R 1 (-1074))%R as E2
    by (unfold F2R; lra).
  pose proof (SFadd_pos_ge ma ea ma ea 2 (-1074) H2 ltac:(lra)) as HS.
  destruct (SF64add _ _) as [?|s|?|s ms es]; try done.
  - subst s. reflexivity.
  - destruct HS as [-> HS].
    pose proof (SFdiv_pos_ge ms es 4503599627370496 (-51) 1 (-1074) H1) as HM.
    rewrite F2R_2 in HM. specialize (HM ltac:(lra)).
    destruct (SF64div (S754_finite false ms es) _) as [?|s|?|s mm em];
      try done.
    + subst s. reflexivity.
    + destruct HM as [-> _]. reflexivity.
Qed.
End ScriptFacts.

(** X27. The script computes the same spread as the application on every book
    that the application prices and that is not crossed: for finite bid
    and ask above 0 with bid at most ask, both give the same number. *)
Theorem script_spread_agrees (bid ask : number) :
  isFinite bid = true -> isFinite ask = true ->
  (0 <? bid)%float = true -> (0 <? ask)%float = true ->
  (bid <=? ask)%float = true ->
  Script.calculateSpread (Some bid) (Some ask)
  = calculateSpread (Defined bid) (Defined ask).
Proof.
  intros Fb Fa Pb Pa Hle. simpl. rewrite Fb, Fa. simpl.
  rewrite (NumberFacts.ltb_true_leb_false _ _ Pb),
    (NumberFacts.ltb_true_leb_false _ _ Pa). simpl.
  rewrite (NumberFacts.leb_true_ltb_false _ _ Hle).
  assert ((bid =? 0)%float = false) as ->.
  { destruct (bid =? 0)%float eqn:E; [|done].
    apply NumberFacts.eqb_rk in E as (_ & _ & E).
    apply NumberFacts.ltb_rk in Pb as (_ & _ & L). rewrite E in L.
    unfold lex_lt in L. destruct (rk 0%float) as [[??]?]. lia. }
  destruct (bid =? ask)%float eqn:E; [|done].
  by rewrite ScriptFacts.formula_equal_prices.
Qed.

Lemma script_spread_agrees_witness :
  Script.calculateSpread (Some 100%float) (Some 102%float)
  = calculateSpread (Defined 100%float) (Defined 102%float) /\
  Script.calculateSpread (Some 100%float) (Some 100%float) = Some 0%float.
Proof.
  split; [|reflexivity].
  exact (script_spread_agrees 100%float 102%float
           eq_refl eq_refl eq_refl eq_refl eq_refl).
Defined.

(** X28. The script rates a spread differently from the application in
    exactly two cases: a finite spread above 5, which the script rates red
    and the application amber, and the spread -Infinity, which the script
    rates green and the application red. *)
Theorem script_rating_differs (spread : option number) :
  Script.classifyRAG spread <> classifyRAG spread <->
  exists s, spread = Some s /\
    ((isFinite s = true /\ (5 <? s)%float = true /\
      Script.classifyRAG spread = red /\ classifyRAG spread = amber) \/
     (s = neg_infinity /\
      Script.classifyRAG spread = green /\ classifyRAG spread = red)).
Proof.
  destruct spread as [s|]; simpl; [|split; [done|by intros (? & ? & _)]].
  unfold GREEN_MAX.
  destruct (isFinite s) eqn:Hf; simpl.
  - pose proof (NumberFacts.isFinite_not_NaN _ Hf) as Hn.
    destruct (s <=? 2)%float eqn:H2.
    + split; [done|]. intros (s' & [= <-] & [(_ & _ & ? & _)|(_ & _ & ?)]); done.
    + destruct (s <=? 5)%float eqn:H5.
      * split; [done|]. intros (s' & [= <-] & [(_ & _ & ? & _)|(_ & ? & _)]); done.
      * split; [|done]. intros _. exists s. split; [done|]. left.
        repeat split; try done. by apply NumberFacts.leb_false_ltb.
  - destruct (s <=? 2)%float eqn:H2.
    + split; [|done]. intros _. exists s. split; [done|]. right.
      split; [|done].
      (* not finite and at most 2: -Infinity *)
      apply NumberFacts.leb_rk in H2 as (Hn & _ & H2).
      apply Prim2SF_inj. change (Prim2SF neg_infinity) with (S754_infinity true).
      unfold isFinite, is_finite, isNaN in *. rewrite Hn in Hf. simpl in Hf.
      apply negb_false_iff in Hf. unfold is_infinity in Hf.
      rewrite FloatAxioms.eqb_spec, abs_spec in Hf.
      change (Prim2SF infinity) with (S754_infinity false) in Hf.
      unfold rk in H2. change (Prim2SF 2) with (S754_finite false 4503599627370496 (-51)) in H2.
      destruct (Prim2SF s) as [[]|[]| |[] m e]; try done.
      simpl in H2. unfold lex_lt in H2. destruct H2 as [H2|H2]; [lia|done].
    + assert ((s <=? 5)%float = false) as ->.
      { destruct (s <=? 5)%float eqn:H5; [|done].
        apply NumberFacts.leb_rk in H5 as (Hn & _ & H5).
        unfold isFinite, is_finite, isNaN in *. rewrite Hn in Hf. simpl in Hf.
        apply negb_false_iff in Hf. unfold is_infinity in Hf.
        rewrite FloatAxioms.eqb_spec, abs_spec in Hf.
        change (Prim2SF infinity) with (S754_infinity false) in Hf.
        assert ((s <=? 2)%float = true); [|congruence].
        apply NumberFacts.leb_rk. split; [done|]. split; [done|].
        unfold rk in *.
        change (Prim2SF 5) with (S754_finite false 5629499534213120 (-50)) in H5.
        change (Prim2SF 2) with (S754_finite false 4503599627370496 (-51)).
        destruct (Prim2SF s) as [[]|[]| |[] m e]; try done.
        - left. simpl. lia.
        - simpl in H5. unfold lex_lt in H5. destruct H5 as [H5|H5]; [lia|done]. }
      split; [done|].
      intros (s' & [= <-] & [(_ & _ & _ & ?)|(_ & ? & _)]); done.
Qed.

(** *** Sorting what is already sorted *)

Module ResortFacts.
Import JSArray SortFacts NumberFacts OrderFacts SortedFacts CompoundFacts.
Local Open Scope float_scope.

(** An array in which no element sorts after a later one is left as it
    is. *)
Lemma sort_sorted_id {A} (comparefn : A -> A -> number) l :
  StronglySorted (fun x y => sortsAfter comparefn x y = false) l ->
  sort comparefn l = l.
Proof.
  induction 1 as [|x l Hs IH Hx]; [done|].
  change (sort comparefn (x :: l)) with (insert comparefn x (sort comparefn l)).
  rewrite IH. destruct l as [|y l]; simpl; [done|].
  apply Forall_cons in Hx as [-> _]. done.
Qed.

Lemma sortMarkets_sorted_chain localeCompare chain markets :
  Forall (fun c => field c <> market_f) chain ->
  Forall finiteKeys markets ->
  StronglySorted
    (fun x y => sortsAfter (compareByChain localeCompare chain) x y = false)
    (sortMarkets localeCompare chain markets).
Proof.
  intros Hc Hm.
  eapply StronglySorted_weaken; [|by apply sortMarkets_chainCmp].
  intros a b (Ha & Hb & H). rewrite chain_after by done.
  by destruct (chainCmp chain a b).
Qed.

Lemma fetchMarkets_sorted_default localeCompare pairs summaries :
  Forall (fun s => isNaN (base_volume s) = false) summaries ->
  StronglySorted
    (fun x y =>
       sortsAfter
         (compareByChain localeCompare [{| field := volume_f; order := desc |}])
         x y = false)
    (fetchMarkets pairs summaries).
Proof.
  intros Hn.
  assert (Forall (fun m => isNaN (volume24h m) = false)
            (fetchMarkets pairs summaries)) as Hk.
  { unfold fetchMarkets. rewrite sort_Permutation.
    unfold processedMarkets. apply Forall_fmap, Forall_forall.
    intros pair _. by apply MarketOrderFacts.processPair_volume. }
  pose proof (MarketOrderFacts.fetchMarkets_descending pairs summaries Hn) as Hs.
  revert Hk. induction Hs as [|x l Hs IH Hx]; intros Hk; constructor.
  - apply IH. by apply Forall_cons in Hk as [_ ?].
  - apply Forall_cons in Hk as [Kx Kl].
    rewrite Forall_forall in Hx, Kl. apply Forall_forall. intros y Hy.
    rewrite (MarketOrderFacts.numeric_desc_after localeCompare volume_f volume24h)
      by (done || by apply Kl).
    apply leb_true_ltb_false. by apply Hx.
Qed.
End ResortFacts.

(** X29. Sorting twice is sorting once: for a chain over spread, volume, price
    and liquidity rating and records whose numbers are finite, applying
    [sortMarkets] to its own result changes nothing. *)
Theorem sortMarkets_idempotent (localeCompare : string -> string -> number)
    (sortConfigs : list SortConfig) (markets : list MarketData) :
  Forall (fun c => field c <> market_f) sortConfigs ->
  Forall finiteKeys markets ->
  sortMarkets localeCompare sortConfigs
    (sortMarkets localeCompare sortConfigs markets)
  = sortMarkets localeCompare sortConfigs markets.
Proof.
  intros Hc Hm. apply ResortFacts.sort_sorted_id.
  by apply ResortFacts.sortMarkets_sorted_chain.
Qed.

Lemma sortMarkets_idempotent_witness :
  let chain := [{| field := ragStatus_f; order := asc |};
                {| field := volume_f; order := desc |}] in
  let markets := fetchMarkets examplePairs exampleSummaries in
  sortMarkets (fun _ _ => 0%float) chain
    (sortMarkets (fun _ _ => 0%float) chain markets)
  = sortMarkets (fun _ _ => 0%float) chain markets.
Proof.
  intros chain markets.
  refine (sortMarkets_idempotent (fun _ _ => 0%float) chain markets _ _).
  - repeat constructor; discriminate.
  - repeat constructor.
Defined.

(** X30. The list first shown is the list assembled: under the default chain
    (volume, desc) and a blank search query, the hook shows the records of
    the assembler in exactly the assembler's order, when no summary has a
    NaN volume. *)
Theorem default_view_is_assembly_order
    (toLowerCase trim : string -> string)
    (searchFields : list MarketSearchField)
    (localeCompare : string -> string -> number)
    (pairs : list MarketPair) (summaries : list MarketSummary)
    (searchQuery : string) :
  Forall (fun s => isNaN (base_volume s) = false) summaries ->
  trim searchQuery = EmptyString ->
  filteredMarkets toLowerCase trim searchFields localeCompare
    (initialSortConfigs {| field := volume_f; order := desc |})
    (fetchMarkets pairs summaries) searchQuery
  = fetchMarkets pairs summaries.
Proof.
  intros Hn Hq. unfold filteredMarkets, filterMarkets. rewrite Hq.
  apply ResortFacts.sort_sorted_id.
  by apply ResortFacts.fetchMarkets_sorted_default.
Qed.

Lemma default_view_is_assembly_order_witness :
  filteredMarkets (fun s => s) (fun s => s) defaultSearchFields (fun _ _ => 0%float)
    (initialSortConfigs {| field := volume_f; order := desc |})
    (fetchMarkets examplePairs exampleSummaries) EmptyString
  = fetchMarkets examplePairs exampleSummaries.
Proof.
  refine (default_view_is_assembly_order (fun s => s) (fun s => s)
            defaultSearchFields (fun _ _ => 0%float)
            examplePairs exampleSummaries EmptyString _ _).
  - repeat constructor.
  - reflexivity.
Defined.
